(** * assets-process: the static-export post-processor, as a shallow embedding

    The script [src/scripts/assets-process.ts] walks the [./out] directory of
    a static export, loads every [.html] file into a cheerio document, edits
    the document in four steps and writes it back:

    - preload links are normalised (lines 34-44 of [processHtmlFile]);
    - [updateTDK] injects title, description and keywords;
    - [addCloudflareMetaTags] prepends the platform meta tags when the path
      contains [out/cf];
    - [moveScriptsToBodyBottom] relocates the scripts of the head.

    The document is modelled as the htmlparser2 tree cheerio works on: a
    forest of nodes whose elements carry a name, an attribute object and a
    list of children.  Every cheerio call of the script is a function on
    that forest.  The HTML parser and serialiser of the library, the
    translation tables of [../config/i18n], the clock and the package
    manifest are parameters. *)

From stdpp Require Import base option list strings gmap.
From Stdlib Require Import Ascii String List Bool Arith Lia.

Local Open Scope string_scope.
Local Open Scope list_scope.
Set Warnings "-register-all".

(** ** Strings and paths *)

(** The double quote and the line feed, used by the HTML templates of the
    script. *)
Definition dquote : string := String (ascii_of_nat 34) EmptyString.
Definition newline : string := String (ascii_of_nat 10) EmptyString.

(** [path.sep] on POSIX. *)
Definition sep : ascii := ascii_of_nat 47.

(** [s.split(sep)] for a one-character separator: the pieces between the
    separators, empty pieces included; the result is never empty. *)
Fixpoint split (c : ascii) (s : string) : list string :=
  match s with
  | EmptyString => [EmptyString]
  | String a s' =>
      if Ascii.eqb a c then EmptyString :: split c s'
      else match split c s' with
           | piece :: rest => String a piece :: rest
           | [] => [String a EmptyString]
           end
  end.

(** [parts.join(sep)], the inverse of [split] on separator-free pieces. *)
Fixpoint join (c : ascii) (parts : list string) : string :=
  match parts with
  | [] => EmptyString
  | [p] => p
  | p :: rest => p +:+ String c (join c rest)
  end.

(** The character [c] does not occur in [s]. *)
Fixpoint free_of (c : ascii) (s : string) : bool :=
  match s with
  | EmptyString => true
  | String a s' => negb (Ascii.eqb a c) && free_of c s'
  end.

(** [s.includes(sub)]: [sub] occurs in [s] as a substring. *)
Fixpoint includes (s sub : string) : bool :=
  String.prefix sub s ||
  match s with
  | EmptyString => false
  | String _ s' => includes s' sub
  end.

(** [s.endsWith(suffix)]. *)
Fixpoint ends_with (s suffix : string) : bool :=
  String.eqb s suffix ||
  match s with
  | EmptyString => false
  | String _ s' => ends_with s' suffix
  end.

(** The segments [a] and [b] follow each other in a list of segments. *)
Fixpoint adjacent (a b : string) (parts : list string) : bool :=
  match parts with
  | x :: (y :: _) as rest =>
      (String.eqb x a && String.eqb y b) || adjacent a b rest
  | _ => false
  end.

(** [arr.findIndex(p)], with [None] for the [-1] of JavaScript. *)
Fixpoint findIndex {A} (p : A -> bool) (l : list A) : option nat :=
  match l with
  | [] => None
  | x :: l' => if p x then Some 0 else S <$> findIndex p l'
  end.

(** ASCII lower-casing; css-select compares the value of [rel]
    case-insensitively in HTML documents. *)
Definition ascii_lower (a : ascii) : ascii :=
  let n := nat_of_ascii a in
  if ((65 <=? n)%nat && (n <=? 90)%nat)%bool then ascii_of_nat (n + 32) else a.

Fixpoint string_lower (s : string) : string :=
  match s with
  | EmptyString => EmptyString
  | String a s' => String (ascii_lower a) (string_lower s')
  end.

(** JavaScript truthiness of a string: non-empty. *)
Definition truthy (s : string) : bool := negb (String.eqb s "").

(** ** The document tree *)

(** A node of the htmlparser2 DOM.  [attribs] is the attribute object of an
    element (a map from attribute name to value). *)
Inductive node : Type :=
| Elem (name : string) (attribs : gmap string string) (children : list node)
| Text (data : string)
| Comment (data : string)
| Doctype (data : string).

Definition is_element (n : node) : bool :=
  match n with Elem _ _ _ => true | _ => false end.

Definition node_children (n : node) : list node :=
  match n with Elem _ _ ch => ch | _ => [] end.

Definition node_attribs (n : node) : gmap string string :=
  match n with Elem _ a _ => a | _ => ∅ end.

Definition node_name (n : node) : string :=
  match n with Elem name _ _ => name | _ => "" end.

(** Induction over a node with the hypothesis for every child. *)
Lemma node_forest_ind (P : node -> Prop) :
  (forall name attribs children,
      Forall P children -> P (Elem name attribs children)) ->
  (forall s, P (Text s)) ->
  (forall s, P (Comment s)) ->
  (forall s, P (Doctype s)) ->
  forall n, P n.
Proof.
  intros HE HT HC HD.
  fix IH 1.
  intros [name attribs children | s | s | s];
    [ | apply HT | apply HC | apply HD ].
  apply HE.
  induction children as [|c cs IHcs]; constructor; [ apply IH | exact IHcs ].
Qed.

(** [$(el).text()]: the text of all descendants, in document order. *)
Fixpoint text_of (n : node) : string :=
  match n with
  | Elem _ _ ch => foldr (fun c acc => text_of c +:+ acc) "" ch
  | Text s => s
  | _ => ""
  end.

(** ** Selectors *)

(** A simple selector: a test on the name and the attributes of an element. *)
Definition selector : Type := string -> gmap string string -> bool.

Definition by_tag (tag : string) : selector :=
  fun name _ => String.eqb name tag.

(** [meta[name="..."]]: the value of [name] is compared exactly. *)
Definition meta_named (v : string) : selector :=
  fun name attribs =>
    String.eqb name "meta" && bool_decide (attribs !! "name" = Some v).

(** [link[rel="preload"]]: [rel] is one of the attributes whose value
    css-select compares case-insensitively in an HTML document. *)
Definition preload_link : selector :=
  fun name attribs =>
    String.eqb name "link" &&
    match attribs !! "rel" with
    | Some v => String.eqb (string_lower v) "preload"
    | None => false
    end.

(** [$(sel)]: every element of the document that matches, in document
    order. *)
Fixpoint select_node (p : selector) (n : node) : list node :=
  match n with
  | Elem name attribs children =>
      (if p name attribs then [n] else []) ++ flat_map (select_node p) children
  | _ => []
  end.

Definition select (p : selector) (doc : list node) : list node :=
  flat_map (select_node p) doc.

(** ** Manipulation

    Each function is the effect of one cheerio call on the whole document. *)

(** [$(sel).text(s)]: the children of every match are replaced by one text
    node. *)
Fixpoint set_text_node (p : selector) (s : string) (n : node) : node :=
  match n with
  | Elem name attribs children =>
      if p name attribs then Elem name attribs [Text s]
      else Elem name attribs (map (set_text_node p s) children)
  | _ => n
  end.

Definition set_text (p : selector) (s : string) (doc : list node) : list node :=
  map (set_text_node p s) doc.

(** [$(sel).attr(key, value)]. *)
Fixpoint set_attr_node (p : selector) (key value : string) (n : node) : node :=
  match n with
  | Elem name attribs children =>
      Elem name (if p name attribs then <[key := value]> attribs else attribs)
           (map (set_attr_node p key value) children)
  | _ => n
  end.

Definition set_attr (p : selector) (key value : string) (doc : list node)
  : list node :=
  map (set_attr_node p key value) doc.

(** [$(tag).append(nodes)]: every match receives the nodes after its last
    child (cheerio clones them for all matches but the last). *)
Fixpoint append_node (p : selector) (new : list node) (n : node) : node :=
  match n with
  | Elem name attribs children =>
      let children' := map (append_node p new) children in
      Elem name attribs (if p name attribs then children' ++ new else children')
  | _ => n
  end.

Definition append (p : selector) (new : list node) (doc : list node)
  : list node :=
  map (append_node p new) doc.

(** [$(tag).prepend(nodes)]. *)
Fixpoint prepend_node (p : selector) (new : list node) (n : node) : node :=
  match n with
  | Elem name attribs children =>
      let children' := map (prepend_node p new) children in
      Elem name attribs (if p name attribs then new ++ children' else children')
  | _ => n
  end.

Definition prepend (p : selector) (new : list node) (doc : list node)
  : list node :=
  map (prepend_node p new) doc.

(** ** Preload normalisation ([processHtmlFile], lines 34-44)

    [$('link[rel="preload"]').each(...)]: a style preload becomes a
    stylesheet link and loses [as]; a font preload is removed (with all it
    contains); any other match is kept as it is. *)
Fixpoint normalize_preload_node (n : node) : list node :=
  match n with
  | Elem name attribs children =>
      let children' := flat_map normalize_preload_node children in
      if preload_link name attribs then
        match attribs !! "as" with
        | Some kind =>
            if String.eqb kind "style" then
              [Elem name (delete "as" (<["rel" := "stylesheet"]> attribs))
                    children']
            else if String.eqb kind "font" then []
            else [Elem name attribs children']
        | None => [Elem name attribs children']
        end
      else [Elem name attribs children']
  | _ => [n]
  end.

Definition normalizePreloads (doc : list node) : list node :=
  flat_map normalize_preload_node doc.

(** ** Script relocation ([moveScriptsToBodyBottom])

    [$("head script")] matches the [script] elements that have a [head]
    ancestor.  [in_head] records whether such an ancestor has been passed. *)

(** The document after [headScripts.remove()]. *)
Fixpoint remove_head_scripts (in_head : bool) (n : node) : list node :=
  match n with
  | Elem name attribs children =>
      if in_head && String.eqb name "script" then []
      else
        [Elem name attribs
              (flat_map (remove_head_scripts (in_head || String.eqb name "head"))
                        children)]
  | _ => [n]
  end.

(** [scriptElements]: the matches in document order, each as it is once all
    of them are detached (a match nested in another one is detached from
    it). *)
Fixpoint head_scripts_of (in_head : bool) (n : node) : list node :=
  match n with
  | Elem name attribs children =>
      let inside := in_head || String.eqb name "head" in
      (if in_head && String.eqb name "script"
       then [Elem name attribs (flat_map (remove_head_scripts inside) children)]
       else [])
      ++ flat_map (head_scripts_of inside) children
  | _ => []
  end.

Definition headScripts (doc : list node) : list node :=
  flat_map (head_scripts_of false) doc.

Definition moveScriptsToBodyBottom (doc : list node) : list node :=
  let scriptElements := headScripts doc in
  if (length scriptElements =? 0)%nat then doc
  else
    foldl (fun d script => append (by_tag "body") [script] d)
          (flat_map (remove_head_scripts false) doc)
          scriptElements.

(** ** HTML templates of the script *)

(** [<meta name="NAME" content="CONTENT">] as source text. *)
Definition meta_src (name content : string) : string :=
  "<meta name=" +:+ dquote +:+ name +:+ dquote +:+
  " content=" +:+ dquote +:+ content +:+ dquote +:+ ">".

(** The element that source text denotes when [content] is free of quotes
    and character references. *)
Definition meta_node (name content : string) : node :=
  Elem "meta" {[ "name" := name; "content" := content ]} [].

Definition keywords_content : string := "Cloudflare, security, WAF, protection".

Definition keywords_src : string := meta_src "keywords" keywords_content.

(** The template literal of [addCloudflareMetaTags], lines 133-139: five
    tags, each on a line of its own. *)
Definition indent : string := newline +:+ "    ".

Definition cloudflare_src (buildDate version : string) : string :=
  indent +:+ meta_src "client-ip" "::CLIENT_IP::" +:+
  indent +:+ meta_src "ray-id" "::RAY_ID::" +:+
  indent +:+ meta_src "location-code" "::GEO::" +:+
  indent +:+ meta_src "build-date" buildDate +:+
  indent +:+ meta_src "version" version +:+
  newline +:+ "  ".

(** What a fragment parser makes of that text: the tags with the white
    space between them as text nodes. *)
Definition cloudflare_nodes (buildDate version : string) : list node :=
  [ Text indent; meta_node "client-ip" "::CLIENT_IP::";
    Text indent; meta_node "ray-id" "::RAY_ID::";
    Text indent; meta_node "location-code" "::GEO::";
    Text indent; meta_node "build-date" buildDate;
    Text indent; meta_node "version" version;
    Text (newline +:+ "  ") ].

(** [path.join("out", "cf")]. *)
Definition out_cf : string := "out" +:+ String sep "cf".

(** ** The package manifest *)

(** What [JSON.parse(packageContent).version] yields, as far as the script
    can tell the cases apart. *)
Inductive manifest : Type :=
| ManifestUnreadable            (* readFileSync throws *)
| ManifestUnparsable            (* JSON.parse throws, or the value is null *)
| ManifestNoVersion             (* the field is undefined, null, false or 0 *)
| ManifestVersion (v : string). (* the field, as the template prints it *)

(** [version = packageJson.version || "unknown"], with the catch of lines
    127-129. *)
Definition manifest_version (m : manifest) : string :=
  match m with
  | ManifestVersion v => if truthy v then v else "unknown"
  | _ => "unknown"
  end.

(** ** Translation tables *)

Record translation : Type := { title : string; message : string }.

Section Transform.

(** The fragment parser of cheerio: [$(...).append(html)] and
    [$(...).prepend(html)] parse their string argument with it. *)
Variable parse_fragment : string -> list node.

(** The tables of [../config/i18n]. *)
Variable blockPageTranslations : gmap string translation.
Variable errorPageTranslations : gmap string translation.
Variable challengePageTranslations : gmap string translation.

(** [type in table].  The operator also answers true for the keys that an
    object inherits (["constructor"], ["toString"], ...); for these
    [table[type].title] and [table[type].message] are undefined, which the
    script treats as it treats no match, so only the keys of the table
    itself are modelled. *)
Definition has_key (type : string) (table : gmap string translation) : bool :=
  bool_decide (is_Some (table !! type)).

(** [table[type].title] and [table[type].message]. *)
Definition title_at (table : gmap string translation) (type : string) : string :=
  from_option title "" (table !! type).

Definition message_at (table : gmap string translation) (type : string)
  : string :=
  from_option message "" (table !! type).

(** Lines 64-72 of [updateTDK]: the two path segments after the first
    segment [cf], when there are two. *)
Definition category_and_type (filePath : string) : option (string * string) :=
  let pathParts := split sep filePath in
  match findIndex (fun part => String.eqb part "cf") pathParts with
  | None => None
  | Some cfIndex =>
      if (length pathParts <=? cfIndex + 2)%nat then None
      else Some (nth (cfIndex + 1) pathParts "", nth (cfIndex + 2) pathParts "")
  end.

(** No segment of a list is the marker. *)
Definition no_marker (parts : list string) : Prop :=
  Forall (fun part => String.eqb part "cf" = false) parts.

(** Lines 74-86: [pageTitle] and [pageDescription]. *)
Definition page_texts (directory type : string) : string * string :=
  if String.eqb directory "block" && has_key type blockPageTranslations then
    (title_at blockPageTranslations type, message_at blockPageTranslations type)
  else if String.eqb directory "error" && has_key type errorPageTranslations then
    (title_at errorPageTranslations type, message_at errorPageTranslations type)
  else if String.eqb directory "challenge"
          && has_key type challengePageTranslations then
    (title_at challengePageTranslations type,
     message_at challengePageTranslations type)
  else ("", "").

(** Lines 88-90: [$("title").text(...)]. *)
Definition set_title (doc : list node) (pageTitle : string) : list node :=
  if truthy pageTitle
  then set_text (by_tag "title") (pageTitle +:+ " - Cloudflare") doc
  else doc.

(** Lines 92-101: the description is set on every description meta, or a
    new one is appended to the head when there is none. *)
Definition set_description (doc : list node) (pageDescription : string)
  : list node :=
  if truthy pageDescription then
    if (0 <? length (select (meta_named "description") doc))%nat
    then set_attr (meta_named "description") "content" pageDescription doc
    else append (by_tag "head")
                (parse_fragment (meta_src "description" pageDescription)) doc
  else doc.

(** Lines 103-108. *)
Definition ensure_keywords (doc : list node) : list node :=
  if (length (select (meta_named "keywords") doc) =? 0)%nat
  then append (by_tag "head") (parse_fragment keywords_src) doc
  else doc.

Definition inject (doc : list node) (pageTitle pageDescription : string)
  : list node :=
  ensure_keywords (set_description (set_title doc pageTitle) pageDescription).

Definition updateTDK (doc : list node) (filePath : string) : list node :=
  match category_and_type filePath with
  | None => doc
  | Some (directory, type) =>
      let '(pageTitle, pageDescription) := page_texts directory type in
      inject doc pageTitle pageDescription
  end.

(** [package] is what reading [../package.json] gives, [buildDate] is
    [new Date().toISOString()]. *)
Definition addCloudflareMetaTags (doc : list node) (package : manifest)
           (buildDate : string) : list node :=
  let version := manifest_version package in
  prepend (by_tag "head") (parse_fragment (cloudflare_src buildDate version)) doc.

(** What the script relies on when it writes a tag as text: the library
    parses the tag into the element it denotes.  This holds of an HTML
    parser when the interpolated text has no double quote and no character
    reference. *)
Definition parses_description (text : string) : Prop :=
  parse_fragment (meta_src "description" text) = [meta_node "description" text].

Definition parses_keywords : Prop :=
  parse_fragment keywords_src = [meta_node "keywords" keywords_content].

Definition parses_cloudflare (buildDate version : string) : Prop :=
  parse_fragment (cloudflare_src buildDate version)
  = cloudflare_nodes buildDate version.

(** The entry of the table that belongs to a category, for a type key. *)
Definition translation_entry (directory type : string) : option translation :=
  if String.eqb directory "block" then blockPageTranslations !! type
  else if String.eqb directory "error" then errorPageTranslations !! type
  else if String.eqb directory "challenge" then challengePageTranslations !! type
  else None.

(** [pageDescription] for a file path; empty when nothing is looked up. *)
Definition page_description (filePath : string) : string :=
  match category_and_type filePath with
  | Some (directory, type) => snd (page_texts directory type)
  | None => ""
  end.

(** The library parses every tag the script writes for a file. *)
Definition tags_parse (filePath : string) (package : manifest)
           (buildDate : string) : Prop :=
  parses_description (page_description filePath)
  /\ parses_keywords
  /\ (includes filePath out_cf = true ->
      parses_cloudflare buildDate (manifest_version package)).

(** The edits of [processHtmlFile] between [cheerio.load] and [$.html()]. *)
Definition transform (filePath : string) (package : manifest)
           (buildDate : string) (doc : list node) : list node :=
  let doc := normalizePreloads doc in
  let doc := updateTDK doc filePath in
  let doc :=
    if includes filePath out_cf
    then addCloudflareMetaTags doc package buildDate
    else doc in
  moveScriptsToBodyBottom doc.

(** *** The transform on the children of the head and of the body

    On a loaded document the edits of existing elements act alike on the
    children of the head and on those of the body, and what the script
    creates goes to the head.  The definitions below say so; they are
    related to [transform] by [transform_assemble]. *)

(** [pageTitle] for a file path; empty when nothing is looked up. *)
Definition page_title (filePath : string) : string :=
  match category_and_type filePath with
  | Some (directory, type) => fst (page_texts directory type)
  | None => ""
  end.

(** [$('meta[name="description"]').length > 0] and
    [$('meta[name="keywords"]').length === 0], negated. *)
Definition described (doc : list node) : bool :=
  (0 <? length (select (meta_named "description") doc))%nat.

Definition keyworded (doc : list node) : bool :=
  negb (length (select (meta_named "keywords") doc) =? 0)%nat.

(** The edits of the elements that are there: links, titles and, when the
    document has one, description metas. *)
Definition edit_existing (filePath : string) (has_description : bool)
           (l : list node) : list node :=
  let l := set_title (normalizePreloads l) (page_title filePath) in
  if truthy (page_description filePath) && has_description
  then set_attr (meta_named "description") "content"
                (page_description filePath) l
  else l.

(** The tags [updateTDK] appends to the head. *)
Definition created_tags (filePath : string)
           (has_description has_keywords : bool) : list node :=
  match category_and_type filePath with
  | None => []
  | Some _ =>
      (if truthy (page_description filePath) && negb has_description
       then [meta_node "description" (page_description filePath)] else [])
      ++ (if has_keywords then []
          else [meta_node "keywords" keywords_content])
  end.

(** The tags [addCloudflareMetaTags] prepends to the head. *)
Definition platform_tags (filePath : string) (package : manifest)
           (buildDate : string) : list node :=
  if includes filePath out_cf
  then cloudflare_nodes buildDate (manifest_version package)
  else [].

End Transform.

(** ** Documents as the HTML parser builds them

    [cheerio.load] parses a whole document: the root holds one [html]
    element (between doctype and comments), and [html] holds exactly one
    [head] and, unless the page is a frameset, one [body], with only
    comments and white space beside them.  No [head] or [body] element
    occurs anywhere else. *)
Record skeleton : Type := {
  sk_before : list node;                 (* doctype and comments before html *)
  sk_html : gmap string string;
  sk_pre_head : list node;
  sk_head_attribs : gmap string string;
  sk_head : list node;                   (* the children of head *)
  sk_between : list node;
  sk_body_attribs : gmap string string;
  sk_body : list node;                   (* the children of body *)
  sk_post_body : list node;
  sk_after : list node
}.

Definition assemble (k : skeleton) : list node :=
  sk_before k ++
  [Elem "html" (sk_html k)
        (sk_pre_head k ++
         [Elem "head" (sk_head_attribs k) (sk_head k)] ++
         sk_between k ++
         [Elem "body" (sk_body_attribs k) (sk_body k)] ++
         sk_post_body k)] ++
  sk_after k.

(** The same skeleton around other children of [head] and [body]. *)
Definition with_head_body (k : skeleton) (hd bd : list node) : skeleton :=
  {| sk_before := sk_before k; sk_html := sk_html k;
     sk_pre_head := sk_pre_head k; sk_head_attribs := sk_head_attribs k;
     sk_head := hd; sk_between := sk_between k;
     sk_body_attribs := sk_body_attribs k; sk_body := bd;
     sk_post_body := sk_post_body k; sk_after := sk_after k |}.

(** No element at all: doctype, comments and text. *)
Definition inert (l : list node) : bool := forallb (fun n => negb (is_element n)) l.

(** No element named [tag], at any depth. *)
Fixpoint lacks_node (tag : string) (n : node) : bool :=
  match n with
  | Elem name _ children =>
      negb (String.eqb name tag) && forallb (lacks_node tag) children
  | _ => true
  end.

Definition lacks (tag : string) (l : list node) : bool :=
  forallb (lacks_node tag) l.

Definition parsed (k : skeleton) : bool :=
  inert (sk_before k) && inert (sk_pre_head k) && inert (sk_between k) &&
  inert (sk_post_body k) && inert (sk_after k) &&
  lacks "head" (sk_head k) && lacks "body" (sk_head k) &&
  lacks "head" (sk_body k) && lacks "body" (sk_body k).

(** The elements named [tag] have no element below them: a void element
    such as [link] has no child at all, and the content of [title] and of
    [script] is text. *)
Fixpoint holds_text_node (tag : string) (n : node) : bool :=
  match n with
  | Elem name _ children =>
      (if String.eqb name tag then inert children else true)
      && forallb (holds_text_node tag) children
  | _ => true
  end.

Definition holds_text (tag : string) (l : list node) : bool :=
  forallb (holds_text_node tag) l.

(** The four kinds of element the script reads or edits hold text only. *)
Definition leaves_hold_text (l : list node) : bool :=
  holds_text "title" l && holds_text "meta" l && holds_text "link" l
  && holds_text "script" l.

(** A document as [cheerio.load] yields it for a page of HTML elements:
    parsed, with [title], [meta], [link] and [script] elements that have no
    element below them.  (The parser puts elements below a [title] or a
    [script] of an inline SVG only; such pages are left aside.) *)
Definition loaded (k : skeleton) : bool :=
  parsed k && leaves_hold_text (sk_head k) && leaves_hold_text (sk_body k).

(** ** Observations *)

(** The text of every title element, in document order. *)
Definition title_texts (doc : list node) : list string :=
  map text_of (select (by_tag "title") doc).

(** [document.title]: the text of the first title element, if there is one. *)
Definition document_title (doc : list node) : option string :=
  head (title_texts doc).

(** Every element of the document, in document order, as its name and its
    attributes. *)
Definition any_element : selector := fun _ _ => true.

Definition elements (doc : list node) : list (string * gmap string string) :=
  map (fun n => (node_name n, node_attribs n)) (select any_element doc).

(** The preload rule in the words of the specification: a style preload
    becomes a stylesheet reference without resource type, a font preload
    is deleted, anything else is left untouched. *)
Definition preload_rule (e : string * gmap string string)
  : option (string * gmap string string) :=
  let '(name, attribs) := e in
  if preload_link name attribs then
    if bool_decide (attribs !! "as" = Some "style") then
      Some (name, delete "as" (<["rel" := "stylesheet"]> attribs))
    else if bool_decide (attribs !! "as" = Some "font") then None
    else Some e
  else Some e.

(** Every [link] element of the document, in document order, as its name
    and its attributes. *)
Definition link_elements (doc : list node)
  : list (string * gmap string string) :=
  map (fun n => (node_name n, node_attribs n)) (select (by_tag "link") doc).

(** A script of the head as it is once the scripts nested in it are
    detached: itself, when it holds text only. *)
Definition detach (n : node) : node :=
  match n with
  | Elem name attribs children =>
      Elem name attribs (flat_map (remove_head_scripts true) children)
  | _ => n
  end.

(** The attribute objects of the [meta] elements with a given name. *)
Definition meta_attribs (name : string) (doc : list node)
  : list (gmap string string) :=
  map node_attribs (select (meta_named name) doc).

(** The [content] of every [meta] element with a given name. *)
Definition meta_contents (name : string) (doc : list node)
  : list (option string) :=
  map (fun a => a !! "content") (meta_attribs name doc).

(** ** Auxiliary notions *)

(** [parsed], field by field. *)
Record parsed_facts (k : skeleton) : Prop := {
  pf_before : inert (sk_before k) = true;
  pf_pre_head : inert (sk_pre_head k) = true;
  pf_between : inert (sk_between k) = true;
  pf_post_body : inert (sk_post_body k) = true;
  pf_after : inert (sk_after k) = true;
  pf_head_head : lacks "head" (sk_head k) = true;
  pf_head_body : lacks "body" (sk_head k) = true;
  pf_body_head : lacks "head" (sk_body k) = true;
  pf_body_body : lacks "body" (sk_body k) = true
}.

(** A selector that rejects the three structural elements sees only the
    children of head and body. *)
Definition rejects_structure (p : selector) : Prop :=
  forall a, p "html" a = false /\ p "head" a = false /\ p "body" a = false.

(** [$(q).attr(key, value)] cannot change what the selector [p] matches. *)
Definition unmoved (p q : selector) (key value : string) : Prop :=
  forall name (a : gmap string string),
    p name (if q name a then <[key := value]> a else a) = p name a.

(** The selector [p] matches elements named [tag] only. *)
Definition within (p : selector) (tag : string) : Prop :=
  forall name (a : gmap string string), p name a = true -> name = tag.

(** The selectors [p] and [q] match no common element. *)
Definition apart (p q : selector) : Prop :=
  forall name (a : gmap string string), p name a = true -> q name a = false.

(** Nodes without text. *)
Definition silent (l : list node) : Prop := Forall (fun n => text_of n = "") l.

(** ** A reference fragment parser

    A parser for the fragments the script builds: runs of text and [meta]
    tags whose two attributes are written with double quotes.  It stands
    for the parser of the library in the examples below. *)
Module Reference.

Fixpoint strip_prefix (p s : string) : option string :=
  match p, s with
  | EmptyString, _ => Some s
  | String a p', String b s' => if Ascii.eqb a b then strip_prefix p' s' else None
  | String _ _, EmptyString => None
  end.

(** The characters before the first [c], and the rest from [c] on. *)
Fixpoint span_until (c : ascii) (s : string) : string * string :=
  match s with
  | EmptyString => (EmptyString, EmptyString)
  | String a s' =>
      if Ascii.eqb a c then (EmptyString, s)
      else let '(taken, rest) := span_until c s' in (String a taken, rest)
  end.

Definition quote_char : ascii := ascii_of_nat 34.
Definition lt_char : ascii := ascii_of_nat 60.

Definition meta_tag (s : string) : option (node * string) :=
  s1 ← strip_prefix ("<meta name=" +:+ dquote) s;
  let '(name, s2) := span_until quote_char s1 in
  s3 ← strip_prefix (dquote +:+ " content=" +:+ dquote) s2;
  let '(content, s4) := span_until quote_char s3 in
  s5 ← strip_prefix (dquote +:+ ">") s4;
  Some (meta_node name content, s5).

Fixpoint items (fuel : nat) (s : string) : list node :=
  match fuel with
  | O => []
  | S fuel' =>
      match s with
      | EmptyString => []
      | String a s' =>
          match meta_tag s with
          | Some (tag, rest) => tag :: items fuel' rest
          | None =>
              let '(taken, rest) := span_until lt_char s' in
              Text (String a taken) :: items fuel' rest
          end
      end
  end.

Definition parse_fragment (s : string) : list node :=
  items (String.length s) s.

(** A plain serialiser: every element is written with an end tag. *)
Definition serialize_attribs (a : gmap string string) : string :=
  foldr (fun '(key, value) acc =>
           " " +:+ key +:+ "=" +:+ dquote +:+ value +:+ dquote +:+ acc)
        "" (map_to_list a).

Fixpoint serialize_node (n : node) : string :=
  match n with
  | Elem name attribs children =>
      "<" +:+ name +:+ serialize_attribs attribs +:+ ">" +:+
      foldr (fun c acc => serialize_node c +:+ acc) "" children +:+
      "</" +:+ name +:+ ">"
  | Text s => s
  | Comment s => "<!--" +:+ s +:+ "-->"
  | Doctype s => "<!DOCTYPE " +:+ s +:+ ">"
  end.

Definition serialize (doc : list node) : string :=
  foldr (fun c acc => serialize_node c +:+ acc) "" doc.

End Reference.

(** ** Files, console and the run *)

Record file : Type := {
  content : string;
  readable : bool;     (* readFileSync succeeds *)
  writable : bool      (* writeFileSync succeeds *)
}.

Inductive log_line : Type :=
| Processed (filePath : string)         (* console.log, line 57 *)
| ErrorProcessing (filePath : string)   (* console.error, line 59 *)
| WarnPackage                           (* console.warn, line 128 *)
| ErrorNoOutDir                         (* console.error, line 180 *)
| AllProcessed.                         (* console.log, line 190 *)

Record world : Type := {
  fs : gmap string file;
  console : list log_line
}.

Definition log (l : log_line) (w : world) : world :=
  {| fs := fs w; console := console w ++ [l] |}.

(** [fs.readFileSync(p, "utf-8")]; [None] when it throws. *)
Definition readFileSync (w : world) (p : string) : option string :=
  match fs w !! p with
  | Some f => if readable f then Some (content f) else None
  | None => None
  end.

(** [fs.writeFileSync(p, data)]; [None] when it throws. *)
Definition writeFileSync (w : world) (p data : string) : option world :=
  match fs w !! p with
  | Some f =>
      if writable f then
        Some {| fs := <[p := {| content := data; readable := readable f;
                                writable := true |}]> (fs w);
                console := console w |}
      else None
  | None =>
      Some {| fs := <[p := {| content := data; readable := true;
                              writable := true |}]> (fs w);
              console := console w |}
  end.

Definition is_report (l : log_line) : bool :=
  match l with Processed _ | ErrorProcessing _ => true | _ => false end.

Section Run.

Variable parse_fragment : string -> list node.
Variable blockPageTranslations : gmap string translation.
Variable errorPageTranslations : gmap string translation.
Variable challengePageTranslations : gmap string translation.

(** [cheerio.load(html)], [None] if it throws, and [$.html()]. *)
Variable load : string -> option (list node).
Variable serialize : list node -> string.

(** [path.join(__dirname, "../package.json")], and what [JSON.parse] and the
    read of [version] make of the text of the manifest. *)
Variable packagePath : string.
Variable parse_package : string -> manifest.

(** [new Date().toISOString()] at the time the file at a path is processed. *)
Variable buildDate : string -> string.

(** Lines 120-129, for the world a file is processed in. *)
Definition read_package (w : world) : manifest :=
  match readFileSync w packagePath with
  | Some text => parse_package text
  | None => ManifestUnreadable
  end.

Definition warns (m : manifest) : bool :=
  match m with ManifestUnreadable | ManifestUnparsable => true | _ => false end.

(** [processHtmlFile]: the try block, and the catch that logs the path. *)
Definition processHtmlFile (filePath : string) (w : world) : world :=
  match readFileSync w filePath with
  | None => log (ErrorProcessing filePath) w
  | Some html =>
      match load html with
      | None => log (ErrorProcessing filePath) w
      | Some doc =>
          let package := read_package w in
          let w1 :=
            if includes filePath out_cf && warns package
            then log WarnPackage w else w in
          let doc' :=
            transform parse_fragment blockPageTranslations
                      errorPageTranslations challengePageTranslations
                      filePath package (buildDate filePath) doc in
          match writeFileSync w1 filePath (serialize doc') with
          | None => log (ErrorProcessing filePath) w1
          | Some w2 => log (Processed filePath) w2
          end
      end
  end.

(** What processing a file alone, in the world [w], writes to it; [None]
    when the file cannot be read, loaded or written. *)
Definition outcome (w : world) (filePath : string) : option string :=
  match fs w !! filePath with
  | Some f =>
      if readable f then
        match load (content f) with
        | Some doc =>
            if writable f then
              Some (serialize
                      (transform parse_fragment blockPageTranslations
                                 errorPageTranslations challengePageTranslations
                                 filePath (read_package w) (buildDate filePath)
                                 doc))
            else None
        | None => None
        end
      else None
  | None => None
  end.

Definition report (w : world) (filePath : string) : log_line :=
  match outcome w filePath with
  | Some _ => Processed filePath
  | None => ErrorProcessing filePath
  end.

(** The loop of [main], lines 186-188. *)
Definition process_all (htmlFiles : list string) (w : world) : world :=
  foldl (fun w file => processHtmlFile file w) w htmlFiles.

(** [main]; [out] is [None] when [./out] does not exist, otherwise the
    result of [getAllHtmlFiles(outDir)]. *)
Definition main (out : option (list string)) (w : world) : world :=
  match out with
  | None => log ErrorNoOutDir w
  | Some htmlFiles => log AllProcessed (process_all htmlFiles w)
  end.

End Run.

(** ** Sample data

    Tables, documents and a file system on which the statements below are
    instantiated. *)
Module Sample.

Definition blockPageTranslations : gmap string translation :=
  {[ "ip" := {| title := "IP Blocked";
                message := "Your IP address has been blocked" |} ]}.

Definition errorPageTranslations : gmap string translation :=
  {[ "1015" := {| title := "Rate Limited";
                  message := "Too many requests" |} ]}.

Definition challengePageTranslations : gmap string translation :=
  {[ "managed" := {| title := "Just a moment";
                     message := "Checking your browser" |} ]}.

(** A page with a title, three preload links and two scripts in the head,
    and one script in the body. *)
Definition page : skeleton :=
  {| sk_before := [Doctype "html"];
     sk_html := {[ "lang" := "en" ]};
     sk_pre_head := [];
     sk_head_attribs := ∅;
     sk_head :=
       [ Elem "meta" {[ "charset" := "utf-8" ]} [];
         Elem "title" ∅ [Text "Blocked"];
         Elem "link" {[ "rel" := "preload"; "as" := "style";
                        "href" := "/a.css" ]} [];
         Elem "link" {[ "rel" := "preload"; "as" := "font";
                        "href" := "/f.woff2" ]} [];
         Elem "link" {[ "rel" := "preload"; "as" := "image";
                        "href" := "/i.png" ]} [];
         Elem "script" {[ "src" := "/main.js" ]} [];
         Elem "script" ∅ [Text "self.x=1"] ];
     sk_between := [Text newline];
     sk_body_attribs := ∅;
     sk_body :=
       [ Elem "div" {[ "id" := "root" ]} [Text "Access denied"];
         Elem "script" {[ "src" := "/late.js" ]} [] ];
     sk_post_body := [];
     sk_after := [] |}.

(** A page without title element and without script. *)
Definition bare : skeleton :=
  {| sk_before := [Doctype "html"];
     sk_html := ∅;
     sk_pre_head := [];
     sk_head_attribs := ∅;
     sk_head := [ Elem "meta" {[ "charset" := "utf-8" ]} [] ];
     sk_between := [];
     sk_body_attribs := ∅;
     sk_body := [ Elem "div" ∅ [Text "Access denied"] ];
     sk_post_body := [];
     sk_after := [] |}.

(** A page that already has a keywords meta. *)
Definition tagged : skeleton :=
  with_head_body bare
    [ Elem "title" ∅ [Text "Blocked"];
      Elem "meta" {[ "name" := "keywords"; "content" := "edge" ]} [] ]
    (sk_body bare).

Definition blockedPath : string := "out/cf/block/ip/index.html".
Definition flatPath : string := "out/cf/block/ip.html".
Definition unknownPath : string := "out/cf/block/teapot/index.html".
Definition indexPath : string := "out/index.html".
Definition brokenPath : string := "out/broken.html".

Definition package : manifest := ManifestVersion "1.0.0".
Definition buildDate : string := "2026-01-01T00:00:00.000Z".

(** A loader that knows two texts and throws on any other. *)
Definition load (html : string) : option (list node) :=
  if String.eqb html "page" then Some (assemble page)
  else if String.eqb html "bare" then Some (assemble bare)
  else None.

Definition packagePath : string := "package.json".

Definition parse_package (text : string) : manifest :=
  if String.eqb text "" then ManifestUnparsable else ManifestVersion text.

(** Three files below [out]: two that load, one that cannot be read. *)
Definition disk : world :=
  {| fs := {[ blockedPath := {| content := "page"; readable := true;
                                 writable := true |};
              brokenPath := {| content := "page"; readable := false;
                                writable := true |};
              indexPath := {| content := "bare"; readable := true;
                               writable := true |};
              packagePath := {| content := "1.0.0"; readable := true;
                                 writable := true |} ]};
     console := [] |}.

End Sample.

(** ** Paths of [node:path], POSIX flavour

    [path.join] and [path.extname] as the script uses them, on the segments
    of a path. *)

(** One step of [normalizeString]: an empty segment and [.] are dropped,
    [..] takes the last segment away unless there is none or it is [..]
    itself, and any other segment is kept.  The segments kept so far are
    held last first. *)
Definition resolve_segment (allowAboveRoot : bool) (kept : list string)
           (segment : string) : list string :=
  if String.eqb segment "" || String.eqb segment "." then kept
  else if String.eqb segment ".." then
    match kept with
    | top :: below =>
        if String.eqb top ".."
        then (if allowAboveRoot then ".." :: kept else kept)
        else below
    | [] => if allowAboveRoot then [".."] else []
    end
  else segment :: kept.

Definition normalizeString (path : string) (allowAboveRoot : bool) : string :=
  join sep (rev (foldl (resolve_segment allowAboveRoot) [] (split sep path))).

(** [path.normalize]. *)
Definition normalize (path : string) : string :=
  if String.eqb path "" then "."
  else
    let isAbsolute := String.prefix (String sep "") path in
    let trailingSeparator := ends_with path (String sep "") in
    let resolved := normalizeString path (negb isAbsolute) in
    if String.eqb resolved "" then
      if isAbsolute then String sep ""
      else if trailingSeparator then "." +:+ String sep "" else "."
    else
      (if isAbsolute then String sep "" else "") +:+ resolved +:+
      (if trailingSeparator then String sep "" else "").

(** [path.join(a, b)]: the non-empty arguments, joined and normalised. *)
Definition path_join (a b : string) : string :=
  if String.eqb a "" then (if String.eqb b "" then "." else normalize b)
  else if String.eqb b "" then normalize a
  else normalize (a +:+ String sep b).

(** The text from the last [.] of [s] on, if [s] has one. *)
Fixpoint from_last_dot (s : string) : option string :=
  match s with
  | EmptyString => None
  | String a s' =>
      match from_last_dot s' with
      | Some suffix => Some suffix
      | None => if Ascii.eqb a "."%char then Some s else None
      end
  end.

(** [path.extname] of one path component: empty when the component has no
    [.], when its only [.] is its first character, and for [..]. *)
Definition extname_of (component : string) : string :=
  match from_last_dot component with
  | None => ""
  | Some suffix =>
      if (String.length suffix =? String.length component)%nat then ""
      else if String.eqb component ".." then ""
      else suffix
  end.

(** [path.extname]: that of the last component, trailing separators
    ignored. *)
Definition extname (path : string) : string :=
  match rev (filter (fun segment => negb (String.eqb segment ""))
                    (split sep path)) with
  | component :: _ => extname_of component
  | [] => ""
  end.

(** ** The directory walk ([getAllHtmlFiles])

    What is found at a path: [fs.statSync] follows links, so a link is what
    it leads to.  A tree has no cycle; the script does not guard against
    one. *)
Inductive entry : Type :=
| Plain                                   (* statSync succeeds, no directory *)
| Directory (items : list (string * entry))
                                          (* readdirSync: names, in its order *)
| Unlistable                              (* a directory; readdirSync throws *)
| Unstattable.                            (* statSync throws: a dangling link *)

(** Lines 10-27; [None] when [readdirSync] or [statSync] throws. *)
Fixpoint getAllHtmlFiles (dirPath : string) (e : entry) : option (list string) :=
  match e with
  | Directory items =>
      (fix each (items : list (string * entry)) : option (list string) :=
         match items with
         | [] => Some []
         | (item, child) :: rest =>
             let fullPath := path_join dirPath item in
             found ←
               match child with
               | Unstattable => None
               | Plain =>
                   Some (if String.eqb (extname fullPath) ".html"
                         then [fullPath] else [])
               | _ => getAllHtmlFiles fullPath child
               end;
             more ← each rest;
             Some (found ++ more)
         end) items
  | _ => None
  end.

(** The argument of the call in [main]. *)
Definition outDir : string := "./out".

(** *** Notions to state what the walk yields *)

(** A name as [readdirSync] gives it: no separator, not empty, neither [.]
    nor [..]. *)
Definition proper (name : string) : bool :=
  free_of sep name && negb (String.eqb name "")
  && negb (String.eqb name ".") && negb (String.eqb name "..").

(** The walk is in [dirPath] when [path.join] of it and a proper name is the
    path made of the segments [base] and the name. *)
Definition joins (dirPath : string) (base : list string) : Prop :=
  forall item,
    proper item = true -> path_join dirPath item = join sep (base ++ [item]).

(** No string occurs twice. *)
Fixpoint distinct (l : list string) : bool :=
  match l with
  | [] => true
  | x :: l' => negb (existsb (String.eqb x) l') && distinct l'
  end.

(** The names of a directory are proper and differ from each other, at
    every level. *)
Fixpoint well_named (e : entry) : bool :=
  match e with
  | Directory items =>
      forallb (fun '(name, _) => proper name) items
      && distinct (map fst items)
      && forallb (fun '(_, child) => well_named child) items
  | _ => true
  end.

(** Every directory can be listed and every entry can be examined. *)
Fixpoint listable (e : entry) : bool :=
  match e with
  | Directory items =>
      forallb (fun '(_, child) =>
                 match child with
                 | Plain => true
                 | _ => listable child
                 end) items
  | _ => false
  end.

(** The name ends in [.html] and is longer than that. *)
Definition html_name (name : string) : bool :=
  ends_with name ".html" && negb (String.eqb name ".html").

(** The entry a route of names leads to. *)
Fixpoint entry_at (e : entry) (route : list string) {struct route}
  : option entry :=
  match route with
  | [] => Some e
  | name :: route' =>
      match e with
      | Directory items =>
          (fix find (items : list (string * entry)) : option entry :=
             match items with
             | [] => None
             | (item, child) :: rest =>
                 if String.eqb item name then entry_at child route'
                 else find rest
             end) items
      | _ => None
      end
  end.

(** The routes to the plain entries with an [html_name], directory by
    directory, in the order of the listings. *)
Fixpoint html_routes (e : entry) : list (list string) :=
  match e with
  | Directory items =>
      flat_map (fun '(name, child) =>
                  match child with
                  | Plain => if html_name name then [[name]] else []
                  | _ => map (cons name) (html_routes child)
                  end) items
  | _ => []
  end.

(** The selector of the links the preload edit rewrites or removes. *)
Definition style_or_font_preload : selector :=
  fun name attribs =>
    preload_link name attribs
    && (bool_decide (attribs !! "as" = Some "style")
        || bool_decide (attribs !! "as" = Some "font")).

(** What a later run of the script finds done, in the children of the head
    or of the body, for a file path: no preload link of type style or font,
    each title with the looked-up title as its one text, each description
    meta with the looked-up message. *)
Section Settled.

Variable blockPageTranslations : gmap string translation.
Variable errorPageTranslations : gmap string translation.
Variable challengePageTranslations : gmap string translation.

Definition settled (filePath : string) (l : list node) : Prop :=
  let pageTitle :=
    page_title blockPageTranslations errorPageTranslations
               challengePageTranslations filePath in
  let pageDescription :=
    page_description blockPageTranslations errorPageTranslations
                     challengePageTranslations filePath in
  select style_or_font_preload l = []
  /\ (truthy pageTitle = true ->
      Forall (fun m => node_children m = [Text (pageTitle +:+ " - Cloudflare")])
             (select (by_tag "title") l))
  /\ (truthy pageDescription = true ->
      Forall (fun m => node_attribs m !! "content" = Some pageDescription)
             (select (meta_named "description") l)).

End Settled.

(** ** [main], with the walk *)

Section Walk.

Variable parse_fragment : string -> list node.
Variable blockPageTranslations : gmap string translation.
Variable errorPageTranslations : gmap string translation.
Variable challengePageTranslations : gmap string translation.
Variable load : string -> option (list node).
Variable serialize : list node -> string.
Variable packagePath : string.
Variable parse_package : string -> manifest.
Variable buildDate : string -> string.

(** Lines 175-194.  [root] is what is at [./out]: [None] when
    [fs.existsSync] says no, which it also does when the path cannot be
    examined.  The walk comes before any file is processed; when it throws,
    the catch of line 191 logs, which the [bool] of the result tells. *)
Definition run_main (root : option entry) (w : world) : world * bool :=
  match root with
  | None | Some Unstattable =>
      (main parse_fragment blockPageTranslations errorPageTranslations
            challengePageTranslations load serialize packagePath
            parse_package buildDate None w, false)
  | Some e =>
      match getAllHtmlFiles outDir e with
      | Some htmlFiles =>
          (main parse_fragment blockPageTranslations errorPageTranslations
                challengePageTranslations load serialize packagePath
                parse_package buildDate (Some htmlFiles) w, false)
      | None => (w, true)
      end
  end.

End Walk.

(** *** A sample output directory *)
Module SampleOut.

Definition root : entry :=
  Directory
    [ ("index.html", Plain);
      ("favicon.ico", Plain);
      (".html", Plain);
      ("cf", Directory
         [ ("block", Directory
              [ ("ip", Directory [ ("index.html", Plain) ]);
                ("ip.html", Plain) ]);
           ("notes.HTML", Plain) ]);
      ("cf.html", Plain);
      ("legacy.html", Directory [ ("page.html", Plain) ]) ].

(** The same with a dangling link in the last directory. *)
Definition broken : entry :=
  Directory
    [ ("index.html", Plain);
      ("assets", Directory [ ("logo.html", Plain); ("gone", Unstattable) ]) ].

(** What is at [./out] for the files of [Sample.disk]. *)
Definition site : entry :=
  Directory
    [ ("broken.html", Plain);
      ("cf", Directory
               [("block", Directory [("ip", Directory [("index.html", Plain)])])]);
      ("index.html", Plain) ].

(** A block table whose entry has a message and an empty title. *)
Definition untitled : gmap string translation :=
  {[ "ip" := {| title := "";
                message := "Your IP address has been blocked" |} ]}.

(** The manifest and the date of a later run. *)
Definition laterPackage : manifest := ManifestVersion "1.0.1".
Definition laterDate : string := "2026-01-02T00:00:00.000Z".

(** A frameset page, as the parser builds it: a head and no body. *)
Definition frames : list node :=
  [ Doctype "html";
    Elem "html" ∅
      [ Elem "head" ∅
          [ Elem "title" ∅ [Text "Frames"];
            Elem "script" {[ "src" := "/main.js" ]} [] ];
        Elem "frameset" {[ "cols" := "50%,50%" ]}
          [ Elem "frame" {[ "src" := "/left.html" ]} [];
            Elem "frame" {[ "src" := "/right.html" ]} [] ] ] ].

End SampleOut.
(** * Facts *)

(** ** Lists *)

Lemma flat_map_Forall_ext {A B} (f g : A -> list B) (l : list A) :
  Forall (fun x => f x = g x) l -> flat_map f l = flat_map g l.
Proof.
  induction 1 as [|x l Hx _ IH]; simpl; [reflexivity|].
  now rewrite Hx, IH.
Qed.

Lemma flat_map_nil_Forall {A B} (f : A -> list B) (l : list A) :
  Forall (fun x => f x = []) l -> flat_map f l = [].
Proof.
  induction 1 as [|x l Hx _ IH]; simpl; [reflexivity|].
  now rewrite Hx, IH.
Qed.

Lemma flat_map_singleton_Forall {A} (f : A -> list A) (l : list A) :
  Forall (fun x => f x = [x]) l -> flat_map f l = l.
Proof.
  induction 1 as [|x l Hx _ IH]; simpl; [reflexivity|].
  now rewrite Hx, IH.
Qed.

Lemma map_id_Forall {A} (f : A -> A) (l : list A) :
  Forall (fun x => f x = x) l -> map f l = l.
Proof.
  induction 1 as [|x l Hx _ IH]; simpl; [reflexivity|].
  now rewrite Hx, IH.
Qed.

Lemma flat_map_flat_map {A B C} (f : A -> list B) (g : B -> list C) l :
  flat_map g (flat_map f l) = flat_map (fun x => flat_map g (f x)) l.
Proof.
  induction l as [|x l IH]; simpl; [reflexivity|].
  now rewrite flat_map_app, IH.
Qed.

Lemma flat_map_map {A B C} (f : A -> B) (g : B -> list C) l :
  flat_map g (map f l) = flat_map (fun x => g (f x)) l.
Proof.
  induction l as [|x l IH]; simpl; [reflexivity|]. now rewrite IH.
Qed.

Lemma map_flat_map {A B C} (f : A -> list B) (g : B -> C) l :
  map g (flat_map f l) = flat_map (fun x => map g (f x)) l.
Proof.
  induction l as [|x l IH]; simpl; [reflexivity|].
  now rewrite map_app, IH.
Qed.

Lemma forallb_Forall_iff {A} (p : A -> bool) l :
  forallb p l = true <-> Forall (fun x => p x = true) l.
Proof.
  induction l as [|x l IH]; simpl.
  - split; [constructor | reflexivity].
  - rewrite andb_true_iff, IH. split.
    + intros [? ?]. now constructor.
    + inversion 1; subst. now split.
Qed.

(** ** Inert lists and lists that lack a tag *)

Lemma inert_Forall l :
  inert l = true -> Forall (fun n => is_element n = false) l.
Proof.
  unfold inert. rewrite forallb_Forall_iff.
  apply Forall_impl. intros n Hn. now destruct (is_element n).
Qed.

Lemma lacks_Forall tag l :
  lacks tag l = true -> Forall (fun n => lacks_node tag n = true) l.
Proof. unfold lacks. now rewrite forallb_Forall_iff. Qed.

Lemma lacks_app tag l1 l2 :
  lacks tag (l1 ++ l2) = lacks tag l1 && lacks tag l2.
Proof. unfold lacks. apply forallb_app. Qed.

Lemma inert_lacks tag l : inert l = true -> lacks tag l = true.
Proof.
  intros H. apply inert_Forall in H. unfold lacks.
  rewrite forallb_Forall_iff. eapply Forall_impl; [|exact H].
  now intros [name a ch| | |].
Qed.

Lemma select_app p l1 l2 : select p (l1 ++ l2) = select p l1 ++ select p l2.
Proof. unfold select. apply flat_map_app. Qed.

Lemma select_inert p l : inert l = true -> select p l = [].
Proof.
  intros H. apply flat_map_nil_Forall.
  eapply Forall_impl; [|exact (inert_Forall _ H)].
  now intros [name a ch| | |].
Qed.

(** An element-wise edit leaves an inert list alone. *)
Lemma map_inert (f : node -> node) l :
  (forall n, is_element n = false -> f n = n) ->
  inert l = true -> map f l = l.
Proof.
  intros Hf H. apply map_id_Forall.
  eapply Forall_impl; [|exact (inert_Forall _ H)]. exact Hf.
Qed.

Lemma flat_map_inert (f : node -> list node) l :
  (forall n, is_element n = false -> f n = [n]) ->
  inert l = true -> flat_map f l = l.
Proof.
  intros Hf H. apply flat_map_singleton_Forall.
  eapply Forall_impl; [|exact (inert_Forall _ H)]. exact Hf.
Qed.

(** ** Edits that find nothing to edit *)

Lemma append_node_lacks tag new n :
  lacks_node tag n = true -> append_node (by_tag tag) new n = n.
Proof.
  induction n as [name a ch IH| | |] using node_forest_ind; simpl; auto.
  unfold by_tag at 1. intros [Hn Hch]%andb_true_iff.
  apply negb_true_iff in Hn. rewrite Hn. f_equal.
  apply map_id_Forall. apply lacks_Forall in Hch.
  rewrite Forall_forall in *. auto.
Qed.

Lemma append_lacks tag new l :
  lacks tag l = true -> append (by_tag tag) new l = l.
Proof.
  intros H. apply map_id_Forall.
  eapply Forall_impl; [|exact (lacks_Forall _ _ H)].
  intros n. apply append_node_lacks.
Qed.

Lemma prepend_node_lacks tag new n :
  lacks_node tag n = true -> prepend_node (by_tag tag) new n = n.
Proof.
  induction n as [name a ch IH| | |] using node_forest_ind; simpl; auto.
  unfold by_tag at 1. intros [Hn Hch]%andb_true_iff.
  apply negb_true_iff in Hn. rewrite Hn. f_equal.
  apply map_id_Forall. apply lacks_Forall in Hch.
  rewrite Forall_forall in *. auto.
Qed.

Lemma prepend_lacks tag new l :
  lacks tag l = true -> prepend (by_tag tag) new l = l.
Proof.
  intros H. apply map_id_Forall.
  eapply Forall_impl; [|exact (lacks_Forall _ _ H)].
  intros n. apply prepend_node_lacks.
Qed.

Lemma select_node_lacks tag n :
  lacks_node tag n = true -> select_node (by_tag tag) n = [].
Proof.
  induction n as [name a ch IH| | |] using node_forest_ind; simpl; auto.
  unfold by_tag at 1. intros [Hn Hch]%andb_true_iff.
  apply negb_true_iff in Hn. rewrite Hn. simpl.
  apply flat_map_nil_Forall. apply lacks_Forall in Hch.
  rewrite Forall_forall in *. auto.
Qed.

Lemma select_lacks tag l : lacks tag l = true -> select (by_tag tag) l = [].
Proof.
  intros H. apply flat_map_nil_Forall.
  eapply Forall_impl; [|exact (lacks_Forall _ _ H)].
  intros n. apply select_node_lacks.
Qed.

(** Outside a head there is no head script. *)
Lemma head_scripts_of_lacks n :
  lacks_node "head" n = true -> head_scripts_of false n = [].
Proof.
  induction n as [name a ch IH| | |] using node_forest_ind; simpl; auto.
  intros [Hn Hch]%andb_true_iff. apply negb_true_iff in Hn. rewrite Hn.
  apply flat_map_nil_Forall. apply lacks_Forall in Hch.
  rewrite Forall_forall in *. auto.
Qed.

Lemma remove_head_scripts_lacks n :
  lacks_node "head" n = true -> remove_head_scripts false n = [n].
Proof.
  induction n as [name a ch IH| | |] using node_forest_ind; simpl; auto.
  intros [Hn Hch]%andb_true_iff. apply negb_true_iff in Hn. rewrite Hn.
  do 2 f_equal. apply flat_map_singleton_Forall. apply lacks_Forall in Hch.
  rewrite Forall_forall in *. auto.
Qed.

(** Nothing to collect, nothing to remove. *)
Lemma remove_head_scripts_none b n :
  head_scripts_of b n = [] -> remove_head_scripts b n = [n].
Proof.
  revert b.
  induction n as [name a ch IH| | |] using node_forest_ind; simpl; auto.
  intros b H. destruct (b && String.eqb name "script"); [discriminate|].
  simpl in H. do 2 f_equal. apply flat_map_singleton_Forall.
  rewrite Forall_forall in *. intros c Hc. apply IH; [exact Hc|].
  destruct (head_scripts_of (b || String.eqb name "head") c) eqn:E; auto.
  exfalso. apply in_split in Hc as (l1 & l2 & ->).
  rewrite flat_map_app in H. simpl in H. rewrite E in H.
  now destruct (flat_map _ l1).
Qed.

(** Removal and collection keep a lacking list lacking. *)
Lemma remove_head_scripts_keeps_lacks tag b n :
  lacks_node tag n = true -> lacks tag (remove_head_scripts b n) = true.
Proof.
  revert b.
  induction n as [name a ch IH| | |] using node_forest_ind; simpl; auto.
  intros b [Hn Hch]%andb_true_iff.
  destruct (b && String.eqb name "script"); [reflexivity|].
  simpl. rewrite Hn. simpl. rewrite andb_true_r.
  apply lacks_Forall in Hch. clear Hn.
  induction ch as [|c ch IHch]; simpl; [reflexivity|].
  inversion IH; subst. inversion Hch; subst.
  fold (lacks tag (remove_head_scripts (b || String.eqb name "head") c ++
                   flat_map (remove_head_scripts (b || String.eqb name "head")) ch)).
  rewrite lacks_app. apply andb_true_iff. split; auto.
Qed.

Lemma remove_all_keeps_lacks tag b l :
  lacks tag l = true -> lacks tag (flat_map (remove_head_scripts b) l) = true.
Proof.
  intros H. apply lacks_Forall in H.
  induction H as [|n l Hn _ IH]; simpl; [reflexivity|].
  rewrite lacks_app, IH, andb_true_r.
  now apply remove_head_scripts_keeps_lacks.
Qed.

Lemma head_scripts_of_keeps_lacks tag b n :
  lacks_node tag n = true -> lacks tag (head_scripts_of b n) = true.
Proof.
  revert b.
  induction n as [name a ch IH| | |] using node_forest_ind; simpl; auto.
  intros b [Hn Hch]%andb_true_iff.
  rewrite lacks_app. apply andb_true_iff. split.
  - destruct (b && String.eqb name "script"); [|reflexivity].
    simpl. rewrite Hn. simpl. rewrite andb_true_r.
    now apply remove_all_keeps_lacks.
  - apply lacks_Forall in Hch. clear Hn.
    induction ch as [|c ch IHch]; simpl; [reflexivity|].
    inversion IH; subst. inversion Hch; subst.
    rewrite lacks_app. apply andb_true_iff. split; auto.
Qed.

Lemma collect_all_keeps_lacks tag b l :
  lacks tag l = true -> lacks tag (flat_map (head_scripts_of b) l) = true.
Proof.
  intros H. apply lacks_Forall in H.
  induction H as [|n l Hn _ IH]; simpl; [reflexivity|].
  rewrite lacks_app, IH, andb_true_r.
  now apply head_scripts_of_keeps_lacks.
Qed.

(** Under a head, removal leaves no script behind. *)
Lemma removed_has_no_script n :
  select (by_tag "script") (remove_head_scripts true n) = [].
Proof.
  induction n as [name a ch IH| | |] using node_forest_ind; simpl; auto.
  unfold by_tag at 1.
  destruct (String.eqb name "script") eqn:E; simpl; [reflexivity|].
  rewrite E. simpl. rewrite app_nil_r.
  rewrite flat_map_flat_map. apply flat_map_nil_Forall.
  eapply Forall_impl; [|exact IH]. intros c Hc. exact Hc.
Qed.

Lemma removed_all_have_no_script l :
  select (by_tag "script") (flat_map (remove_head_scripts true) l) = [].
Proof.
  unfold select. rewrite flat_map_flat_map. apply flat_map_nil_Forall.
  apply Forall_forall. intros n _. apply removed_has_no_script.
Qed.

Lemma removed_has_no_head_script n :
  flat_map (head_scripts_of true) (remove_head_scripts true n) = [].
Proof.
  induction n as [name a ch IH| | |] using node_forest_ind; simpl; auto.
  destruct (String.eqb name "script") eqn:E; simpl; [reflexivity|].
  rewrite E. simpl. rewrite app_nil_r.
  rewrite flat_map_flat_map. apply flat_map_nil_Forall.
  eapply Forall_impl; [|exact IH]. intros c Hc. exact Hc.
Qed.

Lemma removed_all_have_no_head_script l :
  flat_map (head_scripts_of true) (flat_map (remove_head_scripts true) l) = [].
Proof.
  rewrite flat_map_flat_map. apply flat_map_nil_Forall.
  apply Forall_forall. intros n _. apply removed_has_no_head_script.
Qed.

(** ** Parsed documents *)

Lemma parsed_facts_iff k : parsed k = true <-> parsed_facts k.
Proof.
  unfold parsed. rewrite !andb_true_iff. split.
  - intros [[[[[[[[? ?] ?] ?] ?] ?] ?] ?] ?]. now constructor.
  - intros []. tauto.
Qed.

Lemma parsed_with_head_body k hd bd :
  parsed k = true ->
  lacks "head" hd = true -> lacks "body" hd = true ->
  lacks "head" bd = true -> lacks "body" bd = true ->
  parsed (with_head_body k hd bd) = true.
Proof.
  rewrite !parsed_facts_iff. intros [? ? ? ? ? ? ? ? ?] ? ? ? ?. now constructor.
Qed.

Lemma with_head_body_same k : with_head_body k (sk_head k) (sk_body k) = k.
Proof. now destruct k. Qed.

Lemma sk_head_with k hd bd : sk_head (with_head_body k hd bd) = hd.
Proof. reflexivity. Qed.

Lemma sk_body_with k hd bd : sk_body (with_head_body k hd bd) = bd.
Proof. reflexivity. Qed.

Lemma with_head_body_twice k hd bd hd' bd' :
  with_head_body (with_head_body k hd bd) hd' bd' = with_head_body k hd' bd'.
Proof. reflexivity. Qed.

Lemma by_tag_rejects tag :
  tag <> "html" -> tag <> "head" -> tag <> "body" ->
  rejects_structure (by_tag tag).
Proof.
  intros H1 H2 H3 a. unfold by_tag.
  repeat split; apply String.eqb_neq; congruence.
Qed.

Lemma meta_named_rejects v : rejects_structure (meta_named v).
Proof. intros a. now unfold meta_named. Qed.

Lemma select_assemble p k :
  parsed k = true -> rejects_structure p ->
  select p (assemble k) = select p (sk_head k) ++ select p (sk_body k).
Proof.
  intros [Hbefore Hprehead Hbetween Hpostbody Hafter Hhh Hhb Hbh Hbb] %parsed_facts_iff Hp. unfold assemble.
  rewrite !select_app. rewrite (select_inert p (sk_before k)) by assumption.
  rewrite (select_inert p (sk_after k)) by assumption.
  unfold select at 1. simpl.
  destruct (Hp (sk_html k)) as (-> & _ & _). simpl.
  rewrite !flat_map_app. simpl.
  destruct (Hp (sk_head_attribs k)) as (_ & -> & _).
  rewrite !flat_map_app. simpl.
  destruct (Hp (sk_body_attribs k)) as (_ & _ & ->). simpl.
  fold (select p (sk_pre_head k)) (select p (sk_between k))
       (select p (sk_post_body k)) (select p (sk_head k)) (select p (sk_body k)).
  rewrite (select_inert p (sk_pre_head k)), (select_inert p (sk_between k)),
    (select_inert p (sk_post_body k)) by assumption.
  simpl. now rewrite !app_nil_r.
Qed.

(** An edit that works node by node, that leaves text and comments alone
    and that passes through the three structural elements, edits the
    children of head and body. *)
Lemma map_assemble (f : node -> node) k :
  parsed k = true ->
  (forall n, is_element n = false -> f n = n) ->
  (forall a ch, f (Elem "html" a ch) = Elem "html" a (map f ch)) ->
  (forall a ch, f (Elem "head" a ch) = Elem "head" a (map f ch)) ->
  (forall a ch, f (Elem "body" a ch) = Elem "body" a (map f ch)) ->
  map f (assemble k) =
  assemble (with_head_body k (map f (sk_head k)) (map f (sk_body k))).
Proof.
  intros [Hbefore Hprehead Hbetween Hpostbody Hafter Hhh Hhb Hbh Hbb] %parsed_facts_iff Hi Hhtml Hhead Hbody. unfold assemble. simpl.
  rewrite !map_app. simpl. rewrite Hhtml, !map_app. simpl.
  rewrite Hhead, !map_app. simpl. rewrite Hbody.
  now rewrite (map_inert f (sk_before k)), (map_inert f (sk_after k)),
    (map_inert f (sk_pre_head k)), (map_inert f (sk_between k)),
    (map_inert f (sk_post_body k)) by assumption.
Qed.

Lemma set_text_assemble p s k :
  parsed k = true -> rejects_structure p ->
  set_text p s (assemble k) =
  assemble (with_head_body k (set_text p s (sk_head k))
                           (set_text p s (sk_body k))).
Proof.
  intros Hk Hp. unfold set_text. apply map_assemble; auto.
  - now intros [].
  - intros a ch. simpl. now destruct (Hp a) as (-> & _ & _).
  - intros a ch. simpl. now destruct (Hp a) as (_ & -> & _).
  - intros a ch. simpl. now destruct (Hp a) as (_ & _ & ->).
Qed.

Lemma set_attr_assemble p key value k :
  parsed k = true -> rejects_structure p ->
  set_attr p key value (assemble k) =
  assemble (with_head_body k (set_attr p key value (sk_head k))
                           (set_attr p key value (sk_body k))).
Proof.
  intros Hk Hp. unfold set_attr. apply map_assemble; auto.
  - now intros [].
  - intros a ch. simpl. now destruct (Hp a) as (-> & _ & _).
  - intros a ch. simpl. now destruct (Hp a) as (_ & -> & _).
  - intros a ch. simpl. now destruct (Hp a) as (_ & _ & ->).
Qed.

Lemma append_head_assemble new k :
  parsed k = true ->
  append (by_tag "head") new (assemble k) =
  assemble (with_head_body k (sk_head k ++ new) (sk_body k)).
Proof.
  intros [Hbefore Hprehead Hbetween Hpostbody Hafter Hhh Hhb Hbh Hbb] %parsed_facts_iff. unfold append, assemble. simpl.
  repeat (rewrite map_app; simpl).
  repeat match goal with
         | |- context [map (append_node ?p new) ?l] =>
             change (map (append_node p new) l) with (append p new l)
         end.
  now rewrite !append_lacks by (assumption || now apply inert_lacks).
Qed.

Lemma prepend_head_assemble new k :
  parsed k = true ->
  prepend (by_tag "head") new (assemble k) =
  assemble (with_head_body k (new ++ sk_head k) (sk_body k)).
Proof.
  intros [Hbefore Hprehead Hbetween Hpostbody Hafter Hhh Hhb Hbh Hbb] %parsed_facts_iff. unfold prepend, assemble. simpl.
  repeat (rewrite map_app; simpl).
  repeat match goal with
         | |- context [map (prepend_node ?p new) ?l] =>
             change (map (prepend_node p new) l) with (prepend p new l)
         end.
  now rewrite !prepend_lacks by (assumption || now apply inert_lacks).
Qed.

Lemma append_body_assemble new k :
  parsed k = true ->
  append (by_tag "body") new (assemble k) =
  assemble (with_head_body k (sk_head k) (sk_body k ++ new)).
Proof.
  intros [Hbefore Hprehead Hbetween Hpostbody Hafter Hhh Hhb Hbh Hbb] %parsed_facts_iff. unfold append, assemble. simpl.
  repeat (rewrite map_app; simpl).
  repeat match goal with
         | |- context [map (append_node ?p new) ?l] =>
             change (map (append_node p new) l) with (append p new l)
         end.
  now rewrite !append_lacks by (assumption || now apply inert_lacks).
Qed.

(** ** Script relocation on a parsed document *)

Lemma headScripts_assemble k :
  parsed k = true ->
  headScripts (assemble k) = flat_map (head_scripts_of true) (sk_head k).
Proof.
  intros [Hbefore Hprehead Hbetween Hpostbody Hafter Hhh Hhb Hbh Hbb] %parsed_facts_iff. unfold headScripts, assemble.
  repeat (rewrite flat_map_app; simpl).
  assert (Hin : forall l, inert l = true ->
                          flat_map (head_scripts_of false) l = []).
  { intros l Hl. apply flat_map_nil_Forall.
    eapply Forall_impl; [|exact (inert_Forall _ Hl)]. now intros []. }
  rewrite (flat_map_nil_Forall (head_scripts_of false) (sk_body k)).
  - rewrite (Hin (sk_before k)), (Hin (sk_pre_head k)), (Hin (sk_between k)),
      (Hin (sk_post_body k)), (Hin (sk_after k)) by assumption.
    simpl. now rewrite ?app_nil_r.
  - eapply Forall_impl; [|exact (lacks_Forall _ _ Hbh)].
    intros n. apply head_scripts_of_lacks.
Qed.

Lemma remove_assemble k :
  parsed k = true ->
  flat_map (remove_head_scripts false) (assemble k) =
  assemble (with_head_body k (flat_map (remove_head_scripts true) (sk_head k))
                           (sk_body k)).
Proof.
  intros [Hbefore Hprehead Hbetween Hpostbody Hafter Hhh Hhb Hbh Hbb] %parsed_facts_iff. unfold assemble.
  repeat (rewrite flat_map_app; simpl).
  assert (Hin : forall l, inert l = true ->
                          flat_map (remove_head_scripts false) l = l).
  { intros l Hl. apply flat_map_inert; [|exact Hl]. now intros []. }
  rewrite (flat_map_singleton_Forall (remove_head_scripts false) (sk_body k)).
  - rewrite (Hin (sk_before k)), (Hin (sk_pre_head k)), (Hin (sk_between k)),
      (Hin (sk_post_body k)), (Hin (sk_after k)) by assumption.
    simpl. now rewrite ?app_nil_r.
  - eapply Forall_impl; [|exact (lacks_Forall _ _ Hbh)].
    intros n. apply remove_head_scripts_lacks.
Qed.

Lemma append_each_assemble scripts : forall k,
  parsed k = true ->
  lacks "head" scripts = true -> lacks "body" scripts = true ->
  foldl (fun d script => append (by_tag "body") [script] d) (assemble k) scripts
  = assemble (with_head_body k (sk_head k) (sk_body k ++ scripts)).
Proof.
  induction scripts as [|s scripts IH]; intros k Hk Hh Hb; simpl.
  - now rewrite app_nil_r, with_head_body_same.
  - simpl in Hh, Hb. apply andb_true_iff in Hh as [Hh1 Hh2].
    apply andb_true_iff in Hb as [Hb1 Hb2].
    pose proof Hk as [Hbefore Hprehead Hbetween Hpostbody Hafter Hhh Hhb Hbh Hbb] %parsed_facts_iff.
    rewrite append_body_assemble by assumption.
    rewrite IH; auto.
    + simpl. now rewrite <- app_assoc.
    + apply parsed_with_head_body; auto; rewrite lacks_app; simpl.
      * now rewrite Hbh, Hh1.
      * now rewrite Hbb, Hb1.
Qed.

Lemma moveScripts_assemble k :
  parsed k = true ->
  moveScriptsToBodyBottom (assemble k) =
  assemble (with_head_body k
              (flat_map (remove_head_scripts true) (sk_head k))
              (sk_body k ++ flat_map (head_scripts_of true) (sk_head k))).
Proof.
  intros Hk. pose proof Hk as [Hbefore Hprehead Hbetween Hpostbody Hafter Hhh Hhb Hbh Hbb] %parsed_facts_iff.
  unfold moveScriptsToBodyBottom. rewrite headScripts_assemble by assumption.
  destruct (flat_map (head_scripts_of true) (sk_head k)) as [|s l] eqn:E.
  - simpl. rewrite app_nil_r.
    rewrite (flat_map_singleton_Forall (remove_head_scripts true)).
    + now rewrite (with_head_body_same k).
    + apply Forall_forall. intros n Hn. apply remove_head_scripts_none.
      destruct (head_scripts_of true n) eqn:En; auto.
      apply in_split in Hn as (l1 & l2 & Hsplit).
      rewrite Hsplit, flat_map_app in E. simpl in E. rewrite En in E.
      now destruct (flat_map _ l1).
  - change (length (s :: l) =? 0)%nat with false. cbv iota.
    rewrite remove_assemble by assumption. rewrite <- E.
    rewrite append_each_assemble.
    + reflexivity.
    + apply parsed_with_head_body; auto; now apply remove_all_keeps_lacks.
    + now apply collect_all_keeps_lacks.
    + now apply collect_all_keeps_lacks.
Qed.

(** The collected scripts are the script elements of the head, in document
    order. *)
Lemma head_scripts_of_select n :
  head_scripts_of true n = map detach (select_node (by_tag "script") n).
Proof.
  induction n as [name a ch IH| | |] using node_forest_ind; simpl; auto.
  unfold by_tag at 1. rewrite map_app. f_equal.
  - now destruct (String.eqb name "script").
  - rewrite map_flat_map. now apply flat_map_Forall_ext.
Qed.

Lemma head_scripts_select l :
  flat_map (head_scripts_of true) l = map detach (select (by_tag "script") l).
Proof.
  unfold select. rewrite map_flat_map. apply flat_map_Forall_ext.
  apply Forall_forall. intros n _. apply head_scripts_of_select.
Qed.

Lemma detach_text n : inert (node_children n) = true -> detach n = n.
Proof.
  destruct n as [name a ch| | |]; simpl; auto. intros H. f_equal.
  apply flat_map_inert; [|exact H]. now intros [].
Qed.

(** ** Preload normalisation *)

Lemma stylesheet_is_no_preload name (a : gmap string string) :
  preload_link name (delete "as" (<["rel" := "stylesheet"]> a)) = false.
Proof.
  unfold preload_link.
  rewrite lookup_delete_ne, lookup_insert_eq by discriminate.
  apply andb_false_r.
Qed.

Lemma normalize_preload_node_twice n :
  flat_map normalize_preload_node (normalize_preload_node n)
  = normalize_preload_node n.
Proof.
  induction n as [name a ch IH| | |] using node_forest_ind; simpl; auto.
  assert (Hch : flat_map normalize_preload_node
                  (flat_map normalize_preload_node ch)
                = flat_map normalize_preload_node ch).
  { rewrite flat_map_flat_map. now apply flat_map_Forall_ext. }
  destruct (preload_link name a) eqn:Hp.
  - destruct (a !! "as") as [kind|] eqn:Has.
    + destruct (String.eqb kind "style") eqn:Hs.
      * simpl. rewrite stylesheet_is_no_preload, Hch. reflexivity.
      * destruct (String.eqb kind "font") eqn:Hf; [reflexivity|].
        simpl. rewrite Hp, Has, Hs, Hf, Hch. reflexivity.
    + simpl. rewrite Hp, Has, Hch. reflexivity.
  - simpl. rewrite Hp, Hch. reflexivity.
Qed.

Lemma normalizePreloads_twice doc :
  normalizePreloads (normalizePreloads doc) = normalizePreloads doc.
Proof.
  unfold normalizePreloads. rewrite flat_map_flat_map.
  apply flat_map_Forall_ext, Forall_forall.
  intros n _. apply normalize_preload_node_twice.
Qed.

Lemma elements_inert l : inert l = true -> elements l = [].
Proof. intros H. unfold elements. now rewrite select_inert. Qed.

Lemma preload_rule_cases name (a : gmap string string) :
  preload_rule (name, a) =
  if preload_link name a then
    match a !! "as" with
    | Some kind =>
        if String.eqb kind "style"
        then Some (name, delete "as" (<["rel" := "stylesheet"]> a))
        else if String.eqb kind "font" then None else Some (name, a)
    | None => Some (name, a)
    end
  else Some (name, a).
Proof.
  unfold preload_rule. destruct (preload_link name a); [|reflexivity].
  destruct (a !! "as") as [kind|]; [|reflexivity].
  destruct (String.eqb_spec kind "style") as [->|Hs].
  - now rewrite bool_decide_eq_true_2.
  - rewrite bool_decide_eq_false_2 by congruence.
    destruct (String.eqb_spec kind "font") as [->|Hf].
    + now rewrite bool_decide_eq_true_2.
    + now rewrite bool_decide_eq_false_2 by congruence.
Qed.

Lemma elements_app l1 l2 : elements (l1 ++ l2) = elements l1 ++ elements l2.
Proof. unfold elements. now rewrite select_app, map_app. Qed.

Lemma elements_cons n l : elements (n :: l) = elements [n] ++ elements l.
Proof. apply (elements_app [n] l). Qed.

Lemma elements_elem name a ch :
  elements [Elem name a ch] = (name, a) :: elements ch.
Proof. unfold elements, select. simpl. now rewrite app_nil_r. Qed.

Lemma elements_normalize_node n :
  holds_text_node "link" n = true ->
  elements (normalize_preload_node n) = omap preload_rule (elements [n]).
Proof.
  induction n as [name a ch IH| | |] using node_forest_ind;
    [|intros; reflexivity..].
  intros H. simpl in H. apply andb_true_iff in H as [Hlink Hch].
  cbn [normalize_preload_node].
  assert (Hrec : elements (flat_map normalize_preload_node ch)
                 = omap preload_rule (elements ch)).
  { clear Hlink. apply forallb_Forall_iff in Hch.
    induction ch as [|c ch IHch]; [reflexivity|].
    inversion IH; subst. inversion Hch; subst. simpl.
    rewrite elements_app, (elements_cons c ch), omap_app.
    f_equal; auto. }
  rewrite elements_elem. cbn [omap list_omap].
  rewrite preload_rule_cases.
  destruct (preload_link name a) eqn:Hp.
  - destruct (a !! "as") as [kind|] eqn:Has.
    + destruct (String.eqb kind "style") eqn:Hs.
      * now rewrite elements_elem, Hrec.
      * destruct (String.eqb kind "font") eqn:Hf.
        -- assert (name = "link") as ->.
           { unfold preload_link in Hp. apply andb_true_iff in Hp as [Hn _].
             now apply String.eqb_eq in Hn. }
           simpl in Hlink. rewrite (elements_inert ch) by assumption.
           reflexivity.
        -- now rewrite elements_elem, Hrec.
    + now rewrite elements_elem, Hrec.
  - now rewrite elements_elem, Hrec.
Qed.

Lemma elements_normalizePreloads doc :
  holds_text "link" doc = true ->
  elements (normalizePreloads doc) = omap preload_rule (elements doc).
Proof.
  intros H. apply forallb_Forall_iff in H. unfold normalizePreloads.
  induction H as [|n l Hn _ IH]; [reflexivity|]. simpl.
  rewrite elements_app, (elements_cons n l), omap_app, IH.
  f_equal. now apply elements_normalize_node.
Qed.

(** ** Edits and what they leave of a selection *)

Lemma string_app_nil_r (s : string) : s +:+ "" = s.
Proof.
  induction s as [|c s IH]; [reflexivity|].
  change (String c (s +:+ "") = String c s). now rewrite IH.
Qed.

Lemma string_app_assoc (s1 s2 s3 : string) :
  (s1 +:+ s2) +:+ s3 = s1 +:+ (s2 +:+ s3).
Proof.
  induction s1 as [|c s1 IH]; [reflexivity|].
  change (String c ((s1 +:+ s2) +:+ s3) = String c (s1 +:+ (s2 +:+ s3))).
  now rewrite IH.
Qed.

(** [$(sel).text(s)] gives every match the text [s]. *)
Lemma set_text_node_texts p s n :
  Forall (fun m => text_of m = s) (select_node p (set_text_node p s n)).
Proof.
  induction n as [name a ch IH| | |] using node_forest_ind; simpl; auto.
  destruct (p name a) eqn:Hp; simpl; rewrite Hp.
  - constructor; [|constructor]. simpl. apply string_app_nil_r.
  - simpl. rewrite flat_map_map. apply Forall_flat_map.
    eapply Forall_impl; [|exact IH]. auto.
Qed.

Lemma set_text_texts p s l :
  Forall (fun m => text_of m = s) (select p (set_text p s l)).
Proof.
  unfold select, set_text. rewrite flat_map_map. apply Forall_flat_map.
  apply Forall_forall. intros n _. apply set_text_node_texts.
Qed.

(** [$(sel).attr(key, value)] and a selector it cannot change. *)
Lemma select_set_attr_node p q key value n :
  unmoved p q key value ->
  select_node p (set_attr_node q key value n)
  = map (set_attr_node q key value) (select_node p n).
Proof.
  intros Hu.
  induction n as [name a ch IH| | |] using node_forest_ind; simpl; auto.
  rewrite Hu, map_app. f_equal.
  - now destruct (p name a).
  - rewrite flat_map_map, map_flat_map. now apply flat_map_Forall_ext.
Qed.

Lemma select_set_attr p q key value l :
  unmoved p q key value ->
  select p (set_attr q key value l)
  = map (set_attr_node q key value) (select p l).
Proof.
  intros Hu. unfold select, set_attr.
  rewrite flat_map_map, map_flat_map. apply flat_map_Forall_ext.
  apply Forall_forall. intros n _. now apply select_set_attr_node.
Qed.

Lemma text_of_set_attr_node q key value n :
  text_of (set_attr_node q key value n) = text_of n.
Proof.
  induction n as [name a ch IH| | |] using node_forest_ind; simpl; auto.
  induction IH as [|c ch Hc _ IHch]; simpl; [reflexivity|].
  now rewrite Hc, IHch.
Qed.

(** Appending and prepending nodes that hold no match and no text. *)
Lemma select_append_node_attribs p q new n :
  select p new = [] ->
  map node_attribs (select_node p (append_node q new n))
  = map node_attribs (select_node p n).
Proof.
  intros Hnew.
  induction n as [name a ch IH| | |] using node_forest_ind; simpl; auto.
  rewrite !map_app. f_equal.
  - now destruct (p name a).
  - assert (H : map node_attribs
                  (flat_map (select_node p) (map (append_node q new) ch))
                = map node_attribs (flat_map (select_node p) ch)).
    { rewrite flat_map_map, !map_flat_map. now apply flat_map_Forall_ext. }
    destruct (q name a); [|exact H].
    rewrite flat_map_app, map_app, H. fold (select p new).
    now rewrite Hnew, app_nil_r.
Qed.

Lemma select_append_attribs p q new l :
  select p new = [] ->
  map node_attribs (select p (append q new l))
  = map node_attribs (select p l).
Proof.
  intros Hnew. unfold select, append.
  rewrite flat_map_map, !map_flat_map. apply flat_map_Forall_ext.
  apply Forall_forall. intros n _. now apply select_append_node_attribs.
Qed.

Lemma text_of_silent l :
  silent l -> foldr (fun c acc => text_of c +:+ acc) "" l = "".
Proof. induction 1 as [|n l Hn _ IH]; simpl; [reflexivity|]. now rewrite Hn. Qed.

Lemma text_of_foldr_app l1 l2 :
  foldr (fun c acc => text_of c +:+ acc) "" (l1 ++ l2)
  = foldr (fun c acc => text_of c +:+ acc) "" l1
    +:+ foldr (fun c acc => text_of c +:+ acc) "" l2.
Proof.
  induction l1 as [|n l1 IH]; simpl; [reflexivity|].
  rewrite IH. symmetry. apply string_app_assoc.
Qed.

Lemma text_of_append_node q new n :
  silent new -> text_of (append_node q new n) = text_of n.
Proof.
  intros Hnew.
  induction n as [name a ch IH| | |] using node_forest_ind; simpl; auto.
  assert (H : foldr (fun c acc => text_of c +:+ acc) ""
                (map (append_node q new) ch)
              = foldr (fun c acc => text_of c +:+ acc) "" ch).
  { induction IH as [|c ch Hc _ IHch]; simpl; [reflexivity|].
    now rewrite Hc, IHch. }
  destruct (q name a); [|exact H].
  rewrite text_of_foldr_app, H, (text_of_silent new) by assumption.
  apply string_app_nil_r.
Qed.

Lemma select_append_node_texts p q new n :
  select p new = [] -> silent new ->
  map text_of (select_node p (append_node q new n))
  = map text_of (select_node p n).
Proof.
  intros Hnew Hs.
  induction n as [name a ch IH| | |] using node_forest_ind; auto.
  cbn [append_node select_node]. rewrite !map_app. f_equal.
  - destruct (p name a); [|reflexivity].
    cbn [map]. f_equal.
    change (text_of (append_node q new (Elem name a ch))
            = text_of (Elem name a ch)).
    now apply text_of_append_node.
  - assert (H : map text_of
                  (flat_map (select_node p) (map (append_node q new) ch))
                = map text_of (flat_map (select_node p) ch)).
    { rewrite flat_map_map, !map_flat_map. now apply flat_map_Forall_ext. }
    destruct (q name a); [|exact H].
    rewrite flat_map_app, map_app, H. fold (select p new).
    now rewrite Hnew, app_nil_r.
Qed.

Lemma select_append_texts p q new l :
  select p new = [] -> silent new ->
  map text_of (select p (append q new l)) = map text_of (select p l).
Proof.
  intros Hnew Hs. unfold select, append.
  rewrite flat_map_map, !map_flat_map. apply flat_map_Forall_ext.
  apply Forall_forall. intros n _. now apply select_append_node_texts.
Qed.

(** ** Edits keep a lacking document lacking *)

Lemma flat_map_nil_inv {A B} (f : A -> list B) l :
  flat_map f l = [] -> Forall (fun x => f x = []) l.
Proof.
  induction l as [|x l IH]; simpl; [constructor|].
  intros [H1 H2]%app_eq_nil. constructor; auto.
Qed.

Lemma lacks_node_select tag n :
  select_node (by_tag tag) n = [] -> lacks_node tag n = true.
Proof.
  induction n as [name a ch IH| | |] using node_forest_ind; simpl; auto.
  unfold by_tag at 1. destruct (String.eqb name tag); [discriminate|].
  simpl. intros H%flat_map_nil_inv. apply forallb_Forall_iff.
  rewrite Forall_forall in *. auto.
Qed.

Lemma lacks_select tag l :
  select (by_tag tag) l = [] <-> lacks tag l = true.
Proof.
  split; [|apply select_lacks].
  intros H%flat_map_nil_inv. apply forallb_Forall_iff.
  eapply Forall_impl; [|exact H]. intros n. apply lacks_node_select.
Qed.

(** An edit that maps every node to nodes of the same names, or to fewer
    nodes, keeps [lacks]. *)
Lemma lacks_flat_map_Forall tag (f : node -> list node) l :
  Forall (fun n => lacks_node tag n = true -> lacks tag (f n) = true) l ->
  lacks tag l = true -> lacks tag (flat_map f l) = true.
Proof.
  induction 1 as [|n l Hn _ IH]; simpl; [reflexivity|].
  intros [H1 H2]%andb_true_iff. rewrite lacks_app. apply andb_true_iff. auto.
Qed.

Lemma lacks_map_Forall tag (f : node -> node) l :
  Forall (fun n => lacks_node tag n = true -> lacks_node tag (f n) = true) l ->
  lacks tag l = true -> lacks tag (map f l) = true.
Proof.
  induction 1 as [|n l Hn _ IH]; simpl; [reflexivity|].
  intros [H1 H2]%andb_true_iff. apply andb_true_iff. auto.
Qed.

Lemma lacks_set_text_node tag p s n :
  lacks_node tag n = true -> lacks_node tag (set_text_node p s n) = true.
Proof.
  induction n as [name a ch IH| | |] using node_forest_ind; simpl; auto.
  intros [Hn Hch]%andb_true_iff. destruct (p name a); simpl; rewrite Hn.
  - reflexivity.
  - now apply lacks_map_Forall.
Qed.

Lemma lacks_set_text tag p s l :
  lacks tag l = true -> lacks tag (set_text p s l) = true.
Proof.
  apply lacks_map_Forall, Forall_forall. intros n _.
  apply lacks_set_text_node.
Qed.

Lemma lacks_set_attr_node tag p key value n :
  lacks_node tag n = true ->
  lacks_node tag (set_attr_node p key value n) = true.
Proof.
  induction n as [name a ch IH| | |] using node_forest_ind; simpl; auto.
  intros [Hn Hch]%andb_true_iff. rewrite Hn. now apply lacks_map_Forall.
Qed.

Lemma lacks_set_attr tag p key value l :
  lacks tag l = true -> lacks tag (set_attr p key value l) = true.
Proof.
  apply lacks_map_Forall, Forall_forall. intros n _.
  apply lacks_set_attr_node.
Qed.

Lemma lacks_append_node tag q new n :
  lacks tag new = true ->
  lacks_node tag n = true -> lacks_node tag (append_node q new n) = true.
Proof.
  intros Hnew.
  induction n as [name a ch IH| | |] using node_forest_ind; simpl; auto.
  intros [Hn Hch]%andb_true_iff. rewrite Hn. simpl.
  assert (H : lacks tag (map (append_node q new) ch) = true)
    by now apply lacks_map_Forall.
  destruct (q name a); [|exact H].
  fold (lacks tag (map (append_node q new) ch ++ new)).
  now rewrite lacks_app, H, Hnew.
Qed.

Lemma lacks_append tag q new l :
  lacks tag new = true -> lacks tag l = true ->
  lacks tag (append q new l) = true.
Proof.
  intros Hnew. apply lacks_map_Forall, Forall_forall. intros n _.
  now apply lacks_append_node.
Qed.

Lemma lacks_prepend_node tag q new n :
  lacks tag new = true ->
  lacks_node tag n = true -> lacks_node tag (prepend_node q new n) = true.
Proof.
  intros Hnew.
  induction n as [name a ch IH| | |] using node_forest_ind; simpl; auto.
  intros [Hn Hch]%andb_true_iff. rewrite Hn. simpl.
  assert (H : lacks tag (map (prepend_node q new) ch) = true)
    by now apply lacks_map_Forall.
  destruct (q name a); [|exact H].
  fold (lacks tag (new ++ map (prepend_node q new) ch)).
  now rewrite lacks_app, H, Hnew.
Qed.

Lemma lacks_prepend tag q new l :
  lacks tag new = true -> lacks tag l = true ->
  lacks tag (prepend q new l) = true.
Proof.
  intros Hnew. apply lacks_map_Forall, Forall_forall. intros n _.
  now apply lacks_prepend_node.
Qed.

Lemma lacks_normalize_node tag n :
  lacks_node tag n = true -> lacks tag (normalize_preload_node n) = true.
Proof.
  induction n as [name a ch IH| | |] using node_forest_ind; simpl; auto.
  intros [Hn Hch]%andb_true_iff.
  assert (H : lacks tag (flat_map normalize_preload_node ch) = true)
    by now apply lacks_flat_map_Forall.
  destruct (preload_link name a); [destruct (a !! "as") as [kind|]|];
    try destruct (String.eqb kind "style");
    try destruct (String.eqb kind "font");
    simpl; rewrite ?Hn; simpl; rewrite ?andb_true_r; auto.
Qed.

Lemma lacks_normalizePreloads tag l :
  lacks tag l = true -> lacks tag (normalizePreloads l) = true.
Proof.
  apply lacks_flat_map_Forall, Forall_forall. intros n _.
  apply lacks_normalize_node.
Qed.

Lemma lacks_append_each tag scripts : forall doc,
  lacks tag scripts = true -> lacks tag doc = true ->
  lacks tag (foldl (fun d script => append (by_tag "body") [script] d)
                   doc scripts) = true.
Proof.
  induction scripts as [|s scripts IH]; intros doc Hs Hd; simpl; auto.
  simpl in Hs. apply andb_true_iff in Hs as [Hs1 Hs2].
  apply IH; [exact Hs2|]. apply lacks_append; [|exact Hd].
  simpl. now rewrite Hs1.
Qed.

Lemma lacks_moveScripts tag doc :
  lacks tag doc = true -> lacks tag (moveScriptsToBodyBottom doc) = true.
Proof.
  intros H. unfold moveScriptsToBodyBottom.
  destruct (length (headScripts doc) =? 0)%nat; [exact H|].
  apply lacks_append_each.
  - now apply collect_all_keeps_lacks.
  - now apply remove_all_keeps_lacks.
Qed.

(** ** The meta elements the script creates *)

Lemma meta_named_meta_node v name content :
  meta_named v "meta" (node_attribs (meta_node name content))
  = bool_decide (name = v).
Proof.
  unfold meta_named, meta_node. simpl. rewrite lookup_insert_eq.
  destruct (decide (name = v)) as [->|Hne].
  - now rewrite !bool_decide_eq_true_2.
  - rewrite !bool_decide_eq_false_2; congruence.
Qed.

Lemma select_meta_node_same name content :
  select (meta_named name) [meta_node name content] = [meta_node name content].
Proof.
  unfold select. simpl.
  change (meta_named name "meta" _)
    with (meta_named name "meta" (node_attribs (meta_node name content))).
  now rewrite meta_named_meta_node, bool_decide_eq_true_2.
Qed.

Lemma select_meta_node_other v name content :
  name <> v -> select (meta_named v) [meta_node name content] = [].
Proof.
  intros Hne. unfold select. simpl.
  change (meta_named v "meta" _)
    with (meta_named v "meta" (node_attribs (meta_node name content))).
  now rewrite meta_named_meta_node, bool_decide_eq_false_2.
Qed.

Lemma select_tag_meta_node tag name content :
  tag <> "meta" -> select (by_tag tag) [meta_node name content] = [].
Proof.
  intros Hne. apply select_lacks. unfold lacks, meta_node.
  cbn [forallb lacks_node].
  rewrite (proj2 (String.eqb_neq "meta" tag)) by congruence. reflexivity.
Qed.

Lemma lacks_meta_node tag name content :
  tag <> "meta" -> lacks tag [meta_node name content] = true.
Proof. intros Hne. apply lacks_select. now apply select_tag_meta_node. Qed.

Lemma silent_meta_node name content : silent [meta_node name content].
Proof. now repeat constructor. Qed.

(** The platform block: six text nodes around five meta elements. *)
Lemma lacks_cloudflare_nodes tag buildDate version :
  tag <> "meta" -> lacks tag (cloudflare_nodes buildDate version) = true.
Proof.
  intros Hne. unfold lacks, cloudflare_nodes, meta_node.
  cbn [forallb lacks_node].
  rewrite (proj2 (String.eqb_neq "meta" tag)) by congruence. reflexivity.
Qed.

(** A description meta and a keywords meta are different elements. *)
Lemma meta_named_exclusive v w name (a : gmap string string) :
  v <> w -> meta_named v name a = true -> meta_named w name a = false.
Proof.
  unfold meta_named. intros Hne [_ H]%andb_true_iff.
  apply bool_decide_eq_true in H. apply andb_false_iff. right.
  apply bool_decide_eq_false. congruence.
Qed.

Lemma meta_named_unmoved v w value :
  unmoved (meta_named v) (meta_named w) "content" value.
Proof.
  intros name a. destruct (meta_named w name a); [|reflexivity].
  unfold meta_named. now rewrite lookup_insert_ne by discriminate.
Qed.

Lemma by_tag_unmoved tag q key value : unmoved (by_tag tag) q key value.
Proof. intros name a. reflexivity. Qed.

(** ** Paths *)

Lemma split_nonempty c s : split c s <> [].
Proof.
  destruct s as [|a s]; simpl; [discriminate|].
  destruct (Ascii.eqb a c); [discriminate|].
  now destruct (split c s).
Qed.

Lemma split_free c s : free_of c s = true -> split c s = [s].
Proof.
  induction s as [|a s IH]; simpl; [reflexivity|].
  intros [Ha Hs]%andb_true_iff. apply negb_true_iff in Ha.
  now rewrite Ha, IH.
Qed.

Lemma split_app_sep c s rest :
  free_of c s = true -> split c (s +:+ String c rest) = s :: split c rest.
Proof.
  induction s as [|a s IH]; simpl.
  - intros _. now rewrite Ascii.eqb_refl.
  - intros [Ha Hs]%andb_true_iff. apply negb_true_iff in Ha.
    change ((String a s) +:+ String c rest) with (String a (s +:+ String c rest)).
    simpl. now rewrite Ha, IH.
Qed.

Lemma split_join c parts :
  parts <> [] -> Forall (fun p => free_of c p = true) parts ->
  split c (join c parts) = parts.
Proof.
  intros Hne H. induction H as [|p l Hp Hl IH]; [now destruct Hne|].
  destruct l as [|q l].
  - simpl. now apply split_free.
  - change (join c (p :: q :: l)) with (p +:+ String c (join c (q :: l))).
    rewrite split_app_sep by assumption. f_equal. now apply IH.
Qed.

Lemma findIndex_app {A} (p : A -> bool) pre x post :
  Forall (fun y => p y = false) pre -> p x = true ->
  findIndex p (pre ++ x :: post) = Some (length pre).
Proof.
  induction 1 as [|y pre Hy _ IH]; intros Hx; simpl.
  - now rewrite Hx.
  - now rewrite Hy, IH.
Qed.

Lemma findIndex_None {A} (p : A -> bool) l :
  Forall (fun y => p y = false) l -> findIndex p l = None.
Proof. induction 1 as [|y l Hy _ IH]; simpl; [|rewrite Hy, IH]; reflexivity. Qed.

Lemma findIndex_Some {A} (p : A -> bool) l i :
  findIndex p l = Some i ->
  exists pre x post,
    l = pre ++ x :: post /\ length pre = i /\ p x = true
    /\ Forall (fun y => p y = false) pre.
Proof.
  revert i. induction l as [|y l IH]; simpl; [discriminate|]. intros i.
  destruct (p y) eqn:Hy.
  - intros [= <-]. now exists [], y, l.
  - destruct (findIndex p l) as [j|]; [|discriminate]. simpl.
    intros [= <-]. destruct (IH j eq_refl) as (pre & x & post & -> & <- & Hx & Hpre).
    exists (y :: pre), x, post. repeat split; auto.
Qed.

Lemma nth_middle_1 {A} (pre : list A) x y z post d :
  nth (length pre + 1) (pre ++ x :: y :: z :: post) d = y.
Proof. induction pre; simpl; auto. Qed.

Lemma nth_middle_2 {A} (pre : list A) x y z post d :
  nth (length pre + 2) (pre ++ x :: y :: z :: post) d = z.
Proof. induction pre; simpl; auto. Qed.

(** The marker followed by two segments: these are category and type. *)
Lemma category_and_type_found filePath pre directory type post :
  split sep filePath = pre ++ "cf" :: directory :: type :: post ->
  no_marker pre ->
  category_and_type filePath = Some (directory, type).
Proof.
  intros Hs Hpre. unfold category_and_type. rewrite Hs.
  rewrite findIndex_app by first [exact Hpre | reflexivity].
  rewrite length_app. simpl.
  destruct (Nat.leb_spec (length pre + S (S (S (length post))))
                         (length pre + 2)) as [H|_]; [lia|].
  now rewrite nth_middle_1, nth_middle_2.
Qed.

(** No marker: nothing is derived. *)
Lemma category_and_type_no_marker filePath :
  no_marker (split sep filePath) -> category_and_type filePath = None.
Proof.
  intros H. unfold category_and_type. now rewrite findIndex_None.
Qed.

(** Fewer than two segments after the marker: nothing is derived. *)
Lemma category_and_type_short filePath pre post :
  split sep filePath = pre ++ "cf" :: post ->
  no_marker pre -> length post < 2 ->
  category_and_type filePath = None.
Proof.
  intros Hs Hpre Hlen. unfold category_and_type. rewrite Hs.
  rewrite findIndex_app by first [exact Hpre | reflexivity].
  rewrite length_app. simpl.
  destruct (Nat.leb_spec (length pre + S (length post))
                         (length pre + 2)) as [_|H]; [reflexivity|lia].
Qed.

Lemma category_and_type_inv filePath directory type :
  category_and_type filePath = Some (directory, type) ->
  exists pre post,
    split sep filePath = pre ++ "cf" :: directory :: type :: post
    /\ no_marker pre.
Proof.
  unfold category_and_type.
  destruct (findIndex _ (split sep filePath)) as [i|] eqn:E; [|discriminate].
  apply findIndex_Some in E as (pre & x & post & Hs & <- & Hx & Hpre).
  apply String.eqb_eq in Hx as ->. rewrite Hs, length_app. simpl.
  destruct (Nat.leb_spec (length pre + S (length post))
                         (length pre + 2)) as [_|H]; [discriminate|].
  destruct post as [|d [|t post]]; simpl in H; try lia.
  rewrite nth_middle_1, nth_middle_2. intros [= <- <-].
  now exists pre, post.
Qed.

Lemma ends_with_refl s : ends_with s s = true.
Proof. destruct s; cbn [ends_with]; now rewrite String.eqb_refl. Qed.

Lemma ends_with_cons a s suffix :
  ends_with s suffix = true -> ends_with (String a s) suffix = true.
Proof. intros H. simpl. rewrite H. apply orb_true_r. Qed.

(** A path that ends with a separator-free suffix ends with it in its last
    segment. *)
Lemma ends_with_last_segment c s suffix :
  free_of c suffix = true -> ends_with s suffix = true ->
  ends_with (List.last (split c s) "") suffix = true.
Proof.
  intros Hf. induction s as [|a s IH]; [auto|].
  intros H. cbn [ends_with] in H. apply orb_true_iff in H as [H|H].
  - apply String.eqb_eq in H. subst suffix.
    rewrite split_free by assumption. apply ends_with_refl.
  - specialize (IH H). cbn [split].
    destruct (Ascii.eqb a c).
    + destruct (split c s) as [|p l] eqn:E; [now apply split_nonempty in E|].
      exact IH.
    + destruct (split c s) as [|p [|q l]] eqn:E.
      * now apply split_nonempty in E.
      * simpl in *. now apply ends_with_cons.
      * exact IH.
Qed.

(** ** Elements that hold text only

    An element that holds text only is a leaf for every edit that is
    aimed at other elements: the edit leaves it as it is.  What is selected
    among such elements is therefore the same before and after. *)

Lemma holds_text_Forall tag l :
  holds_text tag l = true -> Forall (fun n => holds_text_node tag n = true) l.
Proof. unfold holds_text. now rewrite forallb_Forall_iff. Qed.

Lemma within_by_tag tag : within (by_tag tag) tag.
Proof. intros name a H. now apply String.eqb_eq in H. Qed.

Lemma within_meta_named v : within (meta_named v) "meta".
Proof.
  intros name a H. unfold meta_named in H.
  apply andb_true_iff in H as [H _]. now apply String.eqb_eq in H.
Qed.

Lemma within_preload_link : within preload_link "link".
Proof.
  intros name a H. unfold preload_link in H.
  apply andb_true_iff in H as [H _]. now apply String.eqb_eq in H.
Qed.

Lemma within_false p tag name (a : gmap string string) :
  within p tag -> name <> tag -> p name a = false.
Proof.
  intros Hw Hne. destruct (p name a) eqn:E; [|reflexivity].
  now apply Hw in E.
Qed.

Lemma within_rejects p tag :
  within p tag -> tag <> "html" -> tag <> "head" -> tag <> "body" ->
  rejects_structure p.
Proof.
  intros Hw H1 H2 H3 a.
  repeat split; apply (within_false p tag); auto; congruence.
Qed.

Lemma within_apart p q t t' : within p t -> within q t' -> t <> t' -> apart p q.
Proof.
  intros Hp Hq Hne name a H. apply Hp in H. subst name.
  now apply (within_false q t').
Qed.

Lemma meta_named_apart v w : v <> w -> apart (meta_named v) (meta_named w).
Proof. intros Hne name a. now apply meta_named_exclusive. Qed.

(** A matching element that holds text only. *)
Lemma holds_text_match p tag name (a : gmap string string) ch :
  within p tag -> p name a = true ->
  holds_text_node tag (Elem name a ch) = true -> inert ch = true.
Proof.
  intros Hw Hp H. apply Hw in Hp. subst name. simpl in H.
  rewrite String.eqb_refl in H. now apply andb_true_iff in H as [H _].
Qed.

Lemma holds_text_children tag name (a : gmap string string) ch :
  holds_text_node tag (Elem name a ch) = true -> holds_text tag ch = true.
Proof. simpl. now intros [_ H]%andb_true_iff. Qed.

(** *** [set_text] *)

Lemma select_set_text_node_apart p t t' s n :
  within p t -> t <> t' ->
  holds_text_node t n = true -> holds_text_node t' n = true ->
  select_node p (set_text_node (by_tag t') s n) = select_node p n.
Proof.
  intros Hw Hne.
  induction n as [name a ch IH| | |] using node_forest_ind; auto.
  intros Ht Ht'. cbn [set_text_node]. unfold by_tag at 1.
  destruct (String.eqb_spec name t') as [->|Hn].
  - cbn [select_node]. rewrite (within_false p t t' a Hw) by congruence.
    simpl in Ht'. rewrite String.eqb_refl in Ht'.
    apply andb_true_iff in Ht' as [Hin _].
    fold (select p ch). now rewrite select_inert.
  - cbn [select_node]. destruct (p name a) eqn:Hp.
    + pose proof (holds_text_match p t name a ch Hw Hp Ht) as Hin.
      rewrite (map_inert (set_text_node (by_tag t') s)) by (auto; now intros []).
      reflexivity.
    + f_equal. rewrite flat_map_map. apply flat_map_Forall_ext.
      apply holds_text_children, holds_text_Forall in Ht, Ht'.
      rewrite Forall_forall in *. auto.
Qed.

Lemma select_set_text_apart p t t' s l :
  within p t -> t <> t' ->
  holds_text t l = true -> holds_text t' l = true ->
  select p (set_text (by_tag t') s l) = select p l.
Proof.
  intros Hw Hne Ht Ht'. unfold select, set_text. rewrite flat_map_map.
  apply flat_map_Forall_ext.
  apply holds_text_Forall in Ht, Ht'. rewrite Forall_forall in *.
  intros n Hn. apply (select_set_text_node_apart p t t'); auto.
Qed.

(** The matches themselves all get the new text, and none is lost. *)
Lemma select_set_text_node_same tag s n :
  holds_text_node tag n = true ->
  map text_of (select_node (by_tag tag) (set_text_node (by_tag tag) s n))
  = map (fun _ => s) (select_node (by_tag tag) n).
Proof.
  induction n as [name a ch IH| | |] using node_forest_ind; auto.
  intros Ht. destruct (by_tag tag name a) eqn:Hq.
  - assert (name = tag) as -> by now apply String.eqb_eq.
    simpl in Ht. rewrite String.eqb_refl in Ht.
    apply andb_true_iff in Ht as [Hin _].
    cbn [set_text_node]. rewrite Hq. cbn [select_node]. rewrite !Hq.
    fold (select (by_tag tag) ch). rewrite select_inert by assumption.
    simpl. now rewrite string_app_nil_r.
  - cbn [set_text_node]. rewrite Hq. cbn [select_node]. rewrite !Hq.
    cbn [app]. rewrite flat_map_map, !map_flat_map.
    apply flat_map_Forall_ext.
    apply holds_text_children, holds_text_Forall in Ht.
    rewrite Forall_forall in *. auto.
Qed.

Lemma select_set_text_same tag s l :
  holds_text tag l = true ->
  map text_of (select (by_tag tag) (set_text (by_tag tag) s l))
  = map (fun _ => s) (select (by_tag tag) l).
Proof.
  intros Ht. unfold select, set_text.
  rewrite flat_map_map, !map_flat_map. apply flat_map_Forall_ext.
  apply holds_text_Forall in Ht. eapply Forall_impl; [|exact Ht].
  intros n. apply select_set_text_node_same.
Qed.

Lemma holds_text_set_text_node tag q s n :
  holds_text_node tag n = true ->
  holds_text_node tag (set_text_node q s n) = true.
Proof.
  induction n as [name a ch IH| | |] using node_forest_ind; auto.
  intros Ht. cbn [set_text_node]. destruct (q name a).
  - simpl. now destruct (String.eqb name tag).
  - simpl in *. apply andb_true_iff in Ht as [H1 H2].
    apply andb_true_iff. split.
    + destruct (String.eqb name tag); [|reflexivity].
      now rewrite (map_inert (set_text_node q s)) by (auto; now intros []).
    + apply forallb_Forall_iff. apply forallb_Forall_iff in H2.
      apply Forall_map. rewrite Forall_forall in *. auto.
Qed.

Lemma holds_text_set_text tag q s l :
  holds_text tag l = true -> holds_text tag (set_text q s l) = true.
Proof.
  intros H. apply forallb_Forall_iff, Forall_map.
  eapply Forall_impl; [|exact (holds_text_Forall _ _ H)].
  intros n. apply holds_text_set_text_node.
Qed.

(** *** [set_attr] *)

Lemma select_set_attr_node_apart p q t key value n :
  within p t -> apart p q -> unmoved p q key value ->
  holds_text_node t n = true ->
  select_node p (set_attr_node q key value n) = select_node p n.
Proof.
  intros Hw Ha Hu.
  induction n as [name a ch IH| | |] using node_forest_ind; auto.
  intros Ht. cbn [set_attr_node select_node]. rewrite (Hu name a).
  destruct (p name a) eqn:Hp.
  - rewrite (Ha name a Hp).
    pose proof (holds_text_match p t name a ch Hw Hp Ht) as Hin.
    rewrite (map_inert (set_attr_node q key value)) by (auto; now intros []).
    reflexivity.
  - cbn [app]. rewrite flat_map_map. apply flat_map_Forall_ext.
    apply holds_text_children, holds_text_Forall in Ht.
    rewrite Forall_forall in *. auto.
Qed.

Lemma select_set_attr_apart p q t key value l :
  within p t -> apart p q -> unmoved p q key value ->
  holds_text t l = true ->
  select p (set_attr q key value l) = select p l.
Proof.
  intros Hw Ha Hu Ht. unfold select, set_attr. rewrite flat_map_map.
  apply flat_map_Forall_ext.
  eapply Forall_impl; [|exact (holds_text_Forall _ _ Ht)].
  intros n. now apply select_set_attr_node_apart.
Qed.

Lemma holds_text_set_attr_node tag q key value n :
  holds_text_node tag n = true ->
  holds_text_node tag (set_attr_node q key value n) = true.
Proof.
  induction n as [name a ch IH| | |] using node_forest_ind; auto.
  intros Ht. simpl in *. apply andb_true_iff in Ht as [H1 H2].
  apply andb_true_iff. split.
  - destruct (String.eqb name tag); [|reflexivity].
    now rewrite (map_inert (set_attr_node q key value))
      by (auto; now intros []).
  - apply forallb_Forall_iff. apply forallb_Forall_iff in H2.
    apply Forall_map. rewrite Forall_forall in *. auto.
Qed.

Lemma holds_text_set_attr tag q key value l :
  holds_text tag l = true -> holds_text tag (set_attr q key value l) = true.
Proof.
  intros H. apply forallb_Forall_iff, Forall_map.
  eapply Forall_impl; [|exact (holds_text_Forall _ _ H)].
  intros n. apply holds_text_set_attr_node.
Qed.

(** *** [normalizePreloads] *)

Lemma select_normalize_node_apart p t n :
  within p t -> t <> "link" ->
  holds_text_node t n = true -> holds_text_node "link" n = true ->
  flat_map (select_node p) (normalize_preload_node n) = select_node p n.
Proof.
  intros Hw Hne.
  induction n as [name a ch IH| | |] using node_forest_ind; auto.
  intros Ht Hl.
  assert (Hch : flat_map (select_node p) (flat_map normalize_preload_node ch)
                = flat_map (select_node p) ch).
  { rewrite flat_map_flat_map. apply flat_map_Forall_ext.
    apply holds_text_children, holds_text_Forall in Ht, Hl.
    rewrite Forall_forall in *. auto. }
  cbn [normalize_preload_node]. destruct (preload_link name a) eqn:Hpre.
  - assert (name = "link") as -> by now apply within_preload_link in Hpre.
    assert (Hin : inert ch = true).
    { simpl in Hl. now apply andb_true_iff in Hl as [Hl _]. }
    assert (Hnone : forall a', p "link" a' = false)
      by (intros a'; apply (within_false p t); auto).
    destruct (a !! "as") as [kind|];
      [destruct (String.eqb kind "style");
       [|destruct (String.eqb kind "font")]|];
      cbn [flat_map select_node]; rewrite ?Hnone, ?app_nil_r; cbn [app];
      try exact Hch.
    fold (select p ch). now rewrite select_inert.
  - cbn [flat_map select_node]. rewrite app_nil_r.
    destruct (p name a) eqn:Hp; [|cbn [app]; exact Hch].
    pose proof (holds_text_match p t name a ch Hw Hp Ht) as Hin.
    rewrite (flat_map_inert normalize_preload_node)
      by (auto; now intros []).
    reflexivity.
Qed.

Lemma select_normalize_apart p t l :
  within p t -> t <> "link" ->
  holds_text t l = true -> holds_text "link" l = true ->
  select p (normalizePreloads l) = select p l.
Proof.
  intros Hw Hne Ht Hl. unfold select, normalizePreloads.
  rewrite flat_map_flat_map. apply flat_map_Forall_ext.
  apply holds_text_Forall in Ht, Hl. rewrite Forall_forall in *.
  intros n Hn. apply (select_normalize_node_apart p t); auto.
Qed.

Lemma holds_text_flat_map tag (f : node -> list node) l :
  Forall (fun n => holds_text_node tag n = true ->
                   holds_text tag (f n) = true) l ->
  holds_text tag l = true -> holds_text tag (flat_map f l) = true.
Proof.
  unfold holds_text.
  induction 1 as [|n l Hn _ IH]; [reflexivity|].
  cbn [forallb flat_map]. intros [H1 H2]%andb_true_iff.
  rewrite forallb_app. apply andb_true_iff. split; auto.
Qed.

Lemma holds_text_normalize_node tag n :
  holds_text_node tag n = true ->
  holds_text tag (normalize_preload_node n) = true.
Proof.
  induction n as [name a ch IH| | |] using node_forest_ind;
    [|reflexivity..].
  intros Ht. pose proof Ht as Ht0.
  simpl in Ht. apply andb_true_iff in Ht as [H1 H2].
  assert (Hch : holds_text tag (flat_map normalize_preload_node ch) = true)
    by now apply holds_text_flat_map.
  assert (Hown : forall a',
             holds_text_node tag
               (Elem name a' (flat_map normalize_preload_node ch)) = true).
  { intros a'. cbn [holds_text_node]. apply andb_true_iff. split; [|exact Hch].
    destruct (String.eqb name tag); [|reflexivity].
    now rewrite (flat_map_inert normalize_preload_node)
      by (auto; now intros []). }
  cbn [normalize_preload_node].
  destruct (preload_link name a);
    [destruct (a !! "as") as [kind|];
     [destruct (String.eqb kind "style");
      [|destruct (String.eqb kind "font")]|]|];
    cbn [holds_text forallb]; rewrite ?Hown; reflexivity.
Qed.

Lemma holds_text_normalize tag l :
  holds_text tag l = true -> holds_text tag (normalizePreloads l) = true.
Proof.
  intros H. apply holds_text_flat_map; [|exact H].
  apply Forall_forall. intros n _. apply holds_text_normalize_node.
Qed.

(** The [link] elements follow the rule of the loop, one by one. *)
Lemma link_elements_app l1 l2 :
  link_elements (l1 ++ l2) = link_elements l1 ++ link_elements l2.
Proof. unfold link_elements. now rewrite select_app, map_app. Qed.

Lemma link_elements_cons n l :
  link_elements (n :: l) = link_elements [n] ++ link_elements l.
Proof. apply (link_elements_app [n] l). Qed.

Lemma link_elements_elem name a ch :
  link_elements [Elem name a ch]
  = (if String.eqb name "link" then [(name, a)] else []) ++ link_elements ch.
Proof.
  unfold link_elements, select, by_tag. simpl. rewrite app_nil_r, map_app.
  now destruct (String.eqb name "link").
Qed.

Lemma link_elements_inert l : inert l = true -> link_elements l = [].
Proof. intros H. unfold link_elements. now rewrite select_inert. Qed.

Lemma link_elements_normalize_node n :
  holds_text_node "link" n = true ->
  link_elements (normalize_preload_node n)
  = omap preload_rule (link_elements [n]).
Proof.
  induction n as [name a ch IH| | |] using node_forest_ind;
    [|intros; reflexivity..].
  intros H. simpl in H. apply andb_true_iff in H as [Hlink Hch].
  cbn [normalize_preload_node].
  assert (Hrec : link_elements (flat_map normalize_preload_node ch)
                 = omap preload_rule (link_elements ch)).
  { clear Hlink. apply forallb_Forall_iff in Hch.
    induction ch as [|c ch IHch]; [reflexivity|].
    inversion IH; subst. inversion Hch; subst. simpl.
    rewrite link_elements_app, (link_elements_cons c ch), omap_app.
    f_equal; auto. }
  rewrite (link_elements_elem name a ch), omap_app.
  destruct (preload_link name a) eqn:Hp.
  - assert (name = "link") as -> by now apply within_preload_link in Hp.
    cbn [String.eqb Ascii.eqb Bool.eqb omap list_omap].
    rewrite preload_rule_cases, Hp.
    destruct (a !! "as") as [kind|] eqn:Has.
    + destruct (String.eqb kind "style") eqn:Hs.
      * now rewrite link_elements_elem, Hrec.
      * destruct (String.eqb kind "font") eqn:Hf.
        -- simpl in Hlink. rewrite (link_elements_inert ch) by assumption.
           reflexivity.
        -- now rewrite link_elements_elem, Hrec.
    + now rewrite link_elements_elem, Hrec.
  - rewrite link_elements_elem, Hrec.
    destruct (String.eqb name "link"); [|reflexivity].
    cbn [omap list_omap]. now rewrite preload_rule_cases, Hp.
Qed.

Lemma link_elements_normalize l :
  holds_text "link" l = true ->
  link_elements (normalizePreloads l) = omap preload_rule (link_elements l).
Proof.
  intros H. apply forallb_Forall_iff in H. unfold normalizePreloads.
  induction H as [|n l Hn _ IH]; [reflexivity|]. simpl.
  rewrite link_elements_app, (link_elements_cons n l), omap_app, IH.
  f_equal. now apply link_elements_normalize_node.
Qed.

(** *** Script relocation *)

Lemma select_remove_node_apart p t n : forall b,
  within p t -> t <> "script" ->
  holds_text_node t n = true -> holds_text_node "script" n = true ->
  flat_map (select_node p) (remove_head_scripts b n) = select_node p n.
Proof.
  induction n as [name a ch IH| | |] using node_forest_ind;
    [|reflexivity..].
  intros b Hw Hne Ht Hs. cbn [remove_head_scripts].
  destruct (b && String.eqb name "script") eqn:Hb.
  - apply andb_true_iff in Hb as [_ Hn]. apply String.eqb_eq in Hn. subst.
    simpl in Hs. apply andb_true_iff in Hs as [Hin _].
    cbn [flat_map select_node].
    rewrite (within_false p t "script" a Hw) by congruence.
    fold (select p ch). now rewrite select_inert.
  - cbn [flat_map select_node]. rewrite app_nil_r.
    destruct (p name a) eqn:Hp.
    + pose proof (holds_text_match p t name a ch Hw Hp Ht) as Hin.
      rewrite (flat_map_inert (remove_head_scripts _))
        by (auto; now intros []).
      reflexivity.
    + cbn [app]. rewrite flat_map_flat_map. apply flat_map_Forall_ext.
      apply holds_text_children, holds_text_Forall in Ht, Hs.
      rewrite Forall_forall in *. auto.
Qed.

Lemma select_remove_apart p t b l :
  within p t -> t <> "script" ->
  holds_text t l = true -> holds_text "script" l = true ->
  select p (flat_map (remove_head_scripts b) l) = select p l.
Proof.
  intros Hw Hne Ht Hs. unfold select. rewrite flat_map_flat_map.
  apply flat_map_Forall_ext.
  apply holds_text_Forall in Ht, Hs. rewrite Forall_forall in *.
  intros n Hn. apply (select_remove_node_apart p t); auto.
Qed.

Lemma select_collect_node_apart p t n : forall b,
  within p t -> t <> "script" ->
  holds_text_node t n = true -> holds_text_node "script" n = true ->
  flat_map (select_node p) (head_scripts_of b n) = [].
Proof.
  induction n as [name a ch IH| | |] using node_forest_ind;
    [|reflexivity..].
  intros b Hw Hne Ht Hs. cbn [head_scripts_of]. rewrite flat_map_app.
  assert (Hch : flat_map (select_node p)
                  (flat_map (head_scripts_of (b || String.eqb name "head")) ch)
                = []).
  { rewrite flat_map_flat_map. apply flat_map_nil_Forall.
    apply holds_text_children, holds_text_Forall in Ht, Hs.
    rewrite Forall_forall in *. auto. }
  rewrite Hch, app_nil_r.
  destruct (b && String.eqb name "script") eqn:Hb; [|reflexivity].
  apply andb_true_iff in Hb as [_ Hn]. apply String.eqb_eq in Hn. subst.
  simpl in Hs. apply andb_true_iff in Hs as [Hin _].
  cbn [flat_map select_node].
  rewrite (within_false p t "script" a Hw) by congruence.
  rewrite (flat_map_inert (remove_head_scripts _)) by (auto; now intros []).
  fold (select p ch). now rewrite select_inert.
Qed.

Lemma select_collect_apart p t b l :
  within p t -> t <> "script" ->
  holds_text t l = true -> holds_text "script" l = true ->
  select p (flat_map (head_scripts_of b) l) = [].
Proof.
  intros Hw Hne Ht Hs. unfold select. rewrite flat_map_flat_map.
  apply flat_map_nil_Forall.
  apply holds_text_Forall in Ht, Hs. rewrite Forall_forall in *.
  intros n Hn. apply (select_collect_node_apart p t); auto.
Qed.

(** ** Loaded documents *)

Lemma leaves_hold_text_iff l :
  leaves_hold_text l = true <->
  holds_text "title" l = true /\ holds_text "meta" l = true
  /\ holds_text "link" l = true /\ holds_text "script" l = true.
Proof. unfold leaves_hold_text. rewrite !andb_true_iff. tauto. Qed.

Lemma leaves_normalize l :
  leaves_hold_text l = true -> leaves_hold_text (normalizePreloads l) = true.
Proof.
  rewrite !leaves_hold_text_iff. intros (? & ? & ? & ?).
  auto using holds_text_normalize.
Qed.

Lemma leaves_set_text q s l :
  leaves_hold_text l = true -> leaves_hold_text (set_text q s l) = true.
Proof.
  rewrite !leaves_hold_text_iff. intros (? & ? & ? & ?).
  auto using holds_text_set_text.
Qed.

Lemma leaves_set_attr q key value l :
  leaves_hold_text l = true ->
  leaves_hold_text (set_attr q key value l) = true.
Proof.
  rewrite !leaves_hold_text_iff. intros (? & ? & ? & ?).
  auto using holds_text_set_attr.
Qed.

Lemma loaded_iff k :
  loaded k = true <->
  parsed k = true /\ leaves_hold_text (sk_head k) = true
  /\ leaves_hold_text (sk_body k) = true.
Proof. unfold loaded. rewrite !andb_true_iff. tauto. Qed.

(** What a selector finds in a parsed document depends on the children of
    head and body only. *)
Lemma select_with_head_body p k hd bd :
  parsed k = true -> parsed (with_head_body k hd bd) = true ->
  rejects_structure p ->
  select p hd = select p (sk_head k) -> select p bd = select p (sk_body k) ->
  select p (assemble (with_head_body k hd bd)) = select p (assemble k).
Proof.
  intros Hk Hk' Hp Hh Hb. rewrite !select_assemble by assumption.
  now rewrite sk_head_with, sk_body_with, Hh, Hb.
Qed.

(** *** [normalizePreloads] on a parsed document *)

Lemma flat_map_assemble (f : node -> list node) k :
  parsed k = true ->
  (forall n, is_element n = false -> f n = [n]) ->
  (forall a ch, f (Elem "html" a ch) = [Elem "html" a (flat_map f ch)]) ->
  (forall a ch, f (Elem "head" a ch) = [Elem "head" a (flat_map f ch)]) ->
  (forall a ch, f (Elem "body" a ch) = [Elem "body" a (flat_map f ch)]) ->
  flat_map f (assemble k) =
  assemble (with_head_body k (flat_map f (sk_head k)) (flat_map f (sk_body k))).
Proof.
  intros [Hbefore Hprehead Hbetween Hpostbody Hafter Hhh Hhb Hbh Hbb]
         %parsed_facts_iff Hi Hhtml Hhead Hbody.
  unfold assemble. simpl.
  rewrite !flat_map_app. simpl. rewrite Hhtml, !flat_map_app. simpl.
  rewrite Hhead, !flat_map_app. simpl. rewrite Hbody.
  rewrite (flat_map_inert f (sk_before k)), (flat_map_inert f (sk_after k)),
    (flat_map_inert f (sk_pre_head k)), (flat_map_inert f (sk_between k)),
    (flat_map_inert f (sk_post_body k)) by assumption.
  reflexivity.
Qed.

Lemma normalizePreloads_assemble k :
  parsed k = true ->
  normalizePreloads (assemble k) =
  assemble (with_head_body k (normalizePreloads (sk_head k))
                           (normalizePreloads (sk_body k))).
Proof.
  intros Hk. unfold normalizePreloads. apply flat_map_assemble; auto.
  now intros [].
Qed.

(** *** Lists without script *)

Lemma remove_lacks_script b l :
  lacks "script" l = true -> flat_map (remove_head_scripts b) l = l.
Proof.
  intros H. apply flat_map_singleton_Forall.
  apply lacks_Forall in H. eapply Forall_impl; [|exact H].
  clear. intros n. revert b.
  induction n as [name a ch IH| | |] using node_forest_ind; simpl; auto.
  intros b [Hn Hch]%andb_true_iff. apply negb_true_iff in Hn.
  rewrite Hn, andb_false_r. do 2 f_equal.
  apply flat_map_singleton_Forall. apply lacks_Forall in Hch.
  rewrite Forall_forall in *. auto.
Qed.

Lemma collect_lacks_script b l :
  lacks "script" l = true -> flat_map (head_scripts_of b) l = [].
Proof.
  intros H. apply flat_map_nil_Forall.
  apply lacks_Forall in H. eapply Forall_impl; [|exact H].
  clear. intros n. revert b.
  induction n as [name a ch IH| | |] using node_forest_ind; simpl; auto.
  intros b [Hn Hch]%andb_true_iff. apply negb_true_iff in Hn.
  rewrite Hn, andb_false_r. simpl.
  apply flat_map_nil_Forall. apply lacks_Forall in Hch.
  rewrite Forall_forall in *. auto.
Qed.

(** The scripts of a head whose scripts hold text only are collected as
    they are. *)
Lemma head_scripts_text l :
  holds_text "script" l = true ->
  flat_map (head_scripts_of true) l = select (by_tag "script") l.
Proof.
  intros H. rewrite head_scripts_select. apply map_id_Forall.
  apply Forall_forall. intros s Hs. apply detach_text.
  unfold select in Hs. apply in_flat_map in Hs as (n & Hn & Hs).
  apply holds_text_Forall in H. rewrite Forall_forall in H.
  specialize (H n Hn). clear Hn l. revert s Hs H.
  induction n as [name a ch IH| | |] using node_forest_ind;
    simpl; try tauto.
  intros s [Hs|Hs]%in_app_or [H1 H2]%andb_true_iff.
  - unfold by_tag in Hs. destruct (String.eqb name "script"); [|destruct Hs].
    destruct Hs as [<-|[]]. exact H1.
  - apply in_flat_map in Hs as (c & Hc & Hs).
    apply forallb_Forall_iff in H2. rewrite Forall_forall in *. eauto.
Qed.

(** ** Where the scripts of a parsed document go *)

(** In a parsed document, [moveScriptsToBodyBottom] leaves no script in
    the head and appends the scripts of the head, in document order, to the
    children of the body, after everything the body held before; a script
    is moved without the scripts nested in it.  A head without script
    leaves the document unchanged. *)
Lemma moveScripts_parsed k :
  parsed k = true ->
  moveScriptsToBodyBottom (assemble k)
  = assemble (with_head_body k
                (flat_map (remove_head_scripts true) (sk_head k))
                (sk_body k ++ map detach (select (by_tag "script") (sk_head k))))
  /\ select (by_tag "script")
            (flat_map (remove_head_scripts true) (sk_head k)) = []
  /\ length (map detach (select (by_tag "script") (sk_head k)))
     = length (select (by_tag "script") (sk_head k))
  /\ (Forall (fun s => inert (node_children s) = true)
             (select (by_tag "script") (sk_head k)) ->
      map detach (select (by_tag "script") (sk_head k))
      = select (by_tag "script") (sk_head k))
  /\ (select (by_tag "script") (sk_head k) = [] ->
      moveScriptsToBodyBottom (assemble k) = assemble k).
Proof.
  intros Hk.
  assert (Hmove := moveScripts_assemble k Hk).
  rewrite head_scripts_select in Hmove.
  split; [exact Hmove|]. split; [apply removed_all_have_no_script|].
  split; [apply length_map|]. split.
  - intros Htext. apply map_id_Forall.
    eapply Forall_impl; [|exact Htext]. intros s. apply detach_text.
  - intros Hnone. rewrite Hmove, Hnone. simpl. rewrite app_nil_r.
    rewrite (flat_map_singleton_Forall (remove_head_scripts true)).
    + now rewrite with_head_body_same.
    + apply Forall_forall. intros n Hn. apply remove_head_scripts_none.
      rewrite head_scripts_of_select.
      destruct (select_node (by_tag "script") n) eqn:E; [reflexivity|].
      apply in_split in Hn as (l1 & l2 & Hs). unfold select in Hnone.
      rewrite Hs, flat_map_app in Hnone. simpl in Hnone. rewrite E in Hnone.
      now destruct (flat_map _ l1).
Qed.

(** ** The three steps of [updateTDK] *)

Section UpdateFacts.

Variable parse_fragment : string -> list node.
Variable blockPageTranslations : gmap string translation.
Variable errorPageTranslations : gmap string translation.
Variable challengePageTranslations : gmap string translation.

Local Abbreviation set_description := (set_description parse_fragment).
Local Abbreviation ensure_keywords := (ensure_keywords parse_fragment).
Local Abbreviation inject := (inject parse_fragment).
Local Abbreviation page_texts :=
  (page_texts blockPageTranslations errorPageTranslations
              challengePageTranslations).
Local Abbreviation translation_entry :=
  (translation_entry blockPageTranslations errorPageTranslations
                     challengePageTranslations).
Local Abbreviation updateTDK :=
  (updateTDK parse_fragment blockPageTranslations errorPageTranslations
             challengePageTranslations).

Local Abbreviation page_description :=
  (page_description blockPageTranslations errorPageTranslations
                    challengePageTranslations).
Local Abbreviation addCloudflareMetaTags :=
  (addCloudflareMetaTags parse_fragment).
Local Abbreviation transform :=
  (transform parse_fragment blockPageTranslations errorPageTranslations
             challengePageTranslations).
Local Abbreviation parses_description := (parses_description parse_fragment).
Local Abbreviation parses_keywords := (parses_keywords parse_fragment).
Local Abbreviation parses_cloudflare := (parses_cloudflare parse_fragment).

(** *** The looked-up texts *)

Lemma page_texts_entry directory type :
  page_texts directory type =
  match translation_entry directory type with
  | Some e => (title e, message e)
  | None => ("", "")
  end.
Proof.
  unfold page_texts, translation_entry, has_key,
    title_at, message_at.
  destruct (String.eqb_spec directory "block") as [->|Hb].
  { simpl. now destruct (blockPageTranslations !! type) as [e|]. }
  destruct (String.eqb_spec directory "error") as [->|He].
  { simpl. now destruct (errorPageTranslations !! type) as [e|]. }
  destruct (String.eqb_spec directory "challenge") as [->|Hc].
  { simpl. now destruct (challengePageTranslations !! type) as [e|]. }
  reflexivity.
Qed.

Lemma truthy_true s : s <> "" -> truthy s = true.
Proof. intros H. unfold truthy. now apply negb_true_iff, String.eqb_neq. Qed.

(** *** [set_title] *)

Lemma set_title_texts doc pageTitle :
  pageTitle <> "" ->
  Forall (fun t => t = pageTitle +:+ " - Cloudflare")
         (title_texts (set_title doc pageTitle)).
Proof.
  intros H. unfold set_title, title_texts. rewrite truthy_true by assumption.
  apply Forall_map, set_text_texts.
Qed.

Lemma lacks_set_title tag doc pageTitle :
  lacks tag doc = true -> lacks tag (set_title doc pageTitle) = true.
Proof.
  unfold set_title. destruct (truthy pageTitle); [|auto].
  apply lacks_set_text.
Qed.

Lemma set_title_assemble k pageTitle :
  parsed k = true ->
  set_title (assemble k) pageTitle =
  assemble (with_head_body k (set_title (sk_head k) pageTitle)
                           (set_title (sk_body k) pageTitle)).
Proof.
  intros Hk. unfold set_title. destruct (truthy pageTitle).
  - apply set_text_assemble; [exact Hk|]. now apply by_tag_rejects.
  - now rewrite with_head_body_same.
Qed.

(** *** [set_description] *)

Lemma set_description_titles doc text :
  parses_description text ->
  title_texts (set_description doc text) = title_texts doc.
Proof.
  intros Hd. unfold set_description, title_texts.
  destruct (truthy text); [|reflexivity].
  destruct (0 <? length (select (meta_named "description") doc))%nat.
  - rewrite select_set_attr by apply by_tag_unmoved.
    rewrite map_map. apply map_ext. intros n. apply text_of_set_attr_node.
  - rewrite Hd. apply select_append_texts.
    + now apply select_tag_meta_node.
    + apply silent_meta_node.
Qed.

(** *** [ensure_keywords] *)

Lemma ensure_keywords_titles doc :
  parses_keywords -> title_texts (ensure_keywords doc) = title_texts doc.
Proof.
  intros Hk. unfold ensure_keywords, title_texts.
  destruct (length _ =? 0)%nat; [|reflexivity].
  rewrite Hk. apply select_append_texts.
  - now apply select_tag_meta_node.
  - apply silent_meta_node.
Qed.

Lemma ensure_keywords_other name doc :
  parses_keywords -> name <> "keywords" ->
  meta_attribs name (ensure_keywords doc) = meta_attribs name doc.
Proof.
  intros Hk Hne. unfold ensure_keywords, meta_attribs.
  destruct (length _ =? 0)%nat; [|reflexivity].
  rewrite Hk. apply select_append_attribs.
  apply select_meta_node_other. congruence.
Qed.

Lemma meta_attribs_assemble name k :
  parsed k = true ->
  meta_attribs name (assemble k)
  = meta_attribs name (sk_head k) ++ meta_attribs name (sk_body k).
Proof.
  intros Hk. unfold meta_attribs.
  rewrite select_assemble by (auto using meta_named_rejects).
  apply map_app.
Qed.

(** *** [updateTDK] as a whole *)

Lemma updateTDK_found doc filePath directory type :
  category_and_type filePath = Some (directory, type) ->
  updateTDK doc filePath =
  inject doc (fst (page_texts directory type)) (snd (page_texts directory type)).
Proof.
  intros H. unfold updateTDK. rewrite H.
  now destruct (page_texts directory type).
Qed.

Lemma updateTDK_not_found doc filePath :
  category_and_type filePath = None -> updateTDK doc filePath = doc.
Proof. intros H. unfold updateTDK. now rewrite H. Qed.

Lemma set_title_empty doc : set_title doc "" = doc.
Proof. reflexivity. Qed.

Lemma set_description_empty doc : set_description doc "" = doc.
Proof. reflexivity. Qed.

Lemma lacks_inject tag doc pageTitle pageDescription :
  tag <> "meta" ->
  parses_description pageDescription -> parses_keywords ->
  lacks tag doc = true ->
  lacks tag (inject doc pageTitle pageDescription) = true.
Proof.
  intros Hne Hd Hk H. unfold inject, ensure_keywords, set_description.
  assert (H1 : lacks tag (set_title doc pageTitle) = true)
    by now apply lacks_set_title.
  assert (H2 : lacks tag
                 (if truthy pageDescription
                  then if (0 <? length (select (meta_named "description")
                                               (set_title doc pageTitle)))%nat
                       then set_attr (meta_named "description") "content"
                                     pageDescription (set_title doc pageTitle)
                       else append (by_tag "head")
                                   (parse_fragment
                                      (meta_src "description" pageDescription))
                                   (set_title doc pageTitle)
                  else set_title doc pageTitle) = true).
  { destruct (truthy pageDescription); [|exact H1].
    destruct (0 <? _)%nat.
    - now apply lacks_set_attr.
    - rewrite Hd. apply lacks_append; [|exact H1]. now apply lacks_meta_node. }
  destruct (length _ =? 0)%nat; [|exact H2].
  rewrite Hk. apply lacks_append; [|exact H2]. now apply lacks_meta_node.
Qed.

Lemma lacks_updateTDK tag doc filePath :
  tag <> "meta" ->
  parses_description (page_description filePath) -> parses_keywords ->
  lacks tag doc = true -> lacks tag (updateTDK doc filePath) = true.
Proof.
  intros Hne Hd Hk H. unfold page_description in Hd.
  destruct (category_and_type filePath) as [[directory type]|] eqn:E.
  - rewrite (updateTDK_found _ _ _ _ E). now apply lacks_inject.
  - now rewrite updateTDK_not_found.
Qed.

Lemma updateTDK_unrecognised doc filePath directory type :
  parses_keywords ->
  category_and_type filePath = Some (directory, type) ->
  translation_entry directory type = None ->
  title_texts (updateTDK doc filePath) = title_texts doc
  /\ meta_attribs "description" (updateTDK doc filePath)
     = meta_attribs "description" doc.
Proof.
  intros Hkw Hcat Hnone.
  rewrite (updateTDK_found _ _ directory type Hcat).
  rewrite page_texts_entry, Hnone. cbn [fst snd]. unfold inject.
  rewrite set_title_empty, set_description_empty. split.
  - now apply ensure_keywords_titles.
  - apply ensure_keywords_other; [assumption|discriminate].
Qed.

(** *** The platform meta tags *)

Lemma addCloudflareMetaTags_assemble k package buildDate :
  parsed k = true ->
  parses_cloudflare buildDate (manifest_version package) ->
  addCloudflareMetaTags (assemble k) package buildDate =
  assemble (with_head_body k
              (cloudflare_nodes buildDate (manifest_version package)
               ++ sk_head k)
              (sk_body k)).
Proof.
  intros Hk Hcf. unfold addCloudflareMetaTags. rewrite Hcf.
  now apply prepend_head_assemble.
Qed.

Lemma manifest_version_fallback package :
  (forall v, package <> ManifestVersion v) ->
  manifest_version package = "unknown".
Proof. destruct package; auto. intros H. now destruct (H v). Qed.

Lemma manifest_version_field v :
  v <> "" -> manifest_version (ManifestVersion v) = v.
Proof. intros H. simpl. now rewrite truthy_true. Qed.

Lemma lacks_transform tag doc filePath package buildDate :
  tag <> "meta" ->
  parses_description (page_description filePath) -> parses_keywords ->
  (includes filePath out_cf = true ->
   parses_cloudflare buildDate (manifest_version package)) ->
  lacks tag doc = true ->
  lacks tag (transform filePath package buildDate doc) = true.
Proof.
  intros Hne Hd Hk Hcf H. unfold transform.
  apply lacks_moveScripts.
  assert (H1 : lacks tag (updateTDK (normalizePreloads doc) filePath) = true).
  { apply lacks_updateTDK; auto. now apply lacks_normalizePreloads. }
  destruct (includes filePath out_cf); [|exact H1].
  unfold addCloudflareMetaTags. rewrite (Hcf eq_refl).
  apply lacks_prepend; [|exact H1]. now apply lacks_cloudflare_nodes.
Qed.

(** *** The type key *)

Lemma free_of_app c s1 s2 :
  free_of c (s1 +:+ s2) = free_of c s1 && free_of c s2.
Proof.
  induction s1 as [|a s1 IH]; [reflexivity|].
  change (String a s1 +:+ s2) with (String a (s1 +:+ s2)).
  simpl. now rewrite IH, andb_assoc.
Qed.

Lemma ends_with_app s suffix : ends_with (s +:+ suffix) suffix = true.
Proof.
  induction s as [|a s IH]; [apply ends_with_refl|].
  change (String a s +:+ suffix) with (String a (s +:+ suffix)).
  now apply ends_with_cons.
Qed.

Lemma last_middle {A} (pre : list A) x y z d :
  List.last (pre ++ [x; y; z]) d = z.
Proof. induction pre as [|a [|b pre] IH]; auto. Qed.

(** C9.  The type key is the raw segment two positions after the marker.
    For a file directly in a category directory, [.../cf/<category>/<name>.html],
    the key is [<name>.html]; when no key of the table ends in [.html] the
    lookup fails and title and description stay as they are.  For a file one
    level deeper, [.../cf/<category>/<type>/index.html], the key is
    [<type>].  And a file that ends in [.html] and whose lookup succeeds
    lies at least one level below the category directory. *)
Theorem type_key_is_raw_segment pre category name :
  Forall (fun part => free_of sep part = true) pre -> no_marker pre ->
  free_of sep category = true -> free_of sep name = true ->
  category_and_type (join sep (pre ++ ["cf"; category; name +:+ ".html"]))
  = Some (category, name +:+ ".html")
  /\ ((forall key e, translation_entry category key = Some e ->
                     ends_with key ".html" = false) ->
      translation_entry category (name +:+ ".html") = None
      /\ forall doc,
          parses_keywords ->
          title_texts
            (updateTDK doc (join sep (pre ++ ["cf"; category; name +:+ ".html"])))
          = title_texts doc
          /\ meta_attribs "description"
               (updateTDK doc
                  (join sep (pre ++ ["cf"; category; name +:+ ".html"])))
             = meta_attribs "description" doc)
  /\ (forall type,
        free_of sep type = true ->
        category_and_type (join sep (pre ++ ["cf"; category; type; "index.html"]))
        = Some (category, type))
  /\ (forall filePath type e,
        (forall key e', translation_entry category key = Some e' ->
                        ends_with key ".html" = false) ->
        ends_with filePath ".html" = true ->
        category_and_type filePath = Some (category, type) ->
        translation_entry category type = Some e ->
        exists before below,
          split sep filePath = before ++ "cf" :: category :: type :: below
          /\ below <> []).
Proof.
  intros Hpre Hno Hc Hn.
  assert (Hsplit : split sep (join sep (pre ++ ["cf"; category; name +:+ ".html"]))
                   = pre ++ ["cf"; category; name +:+ ".html"]).
  { apply split_join; [now destruct pre|].
    apply Forall_app. split; [exact Hpre|].
    repeat constructor; auto. now rewrite free_of_app, Hn. }
  assert (Hfound : category_and_type
                     (join sep (pre ++ ["cf"; category; name +:+ ".html"]))
                   = Some (category, name +:+ ".html")).
  { now apply (category_and_type_found _ pre _ _ []). }
  split; [exact Hfound|]. split; [|split].
  - intros Hkeys.
    assert (Hnone : translation_entry category (name +:+ ".html") = None).
    { destruct (translation_entry category (name +:+ ".html")) as [e|] eqn:E;
        [|reflexivity].
      apply Hkeys in E. now rewrite ends_with_app in E. }
    split; [exact Hnone|]. intros doc Hkw.
    now apply (updateTDK_unrecognised doc _ category (name +:+ ".html")).
  - intros type Ht.
    apply (category_and_type_found _ pre _ _ ["index.html"]); [|exact Hno].
    apply split_join; [now destruct pre|].
    apply Forall_app. split; [exact Hpre|]. repeat constructor; auto.
  - intros filePath type e Hkeys Hhtml Hcat Hentry.
    apply category_and_type_inv in Hcat as (before & below & Hs & _).
    exists before, below. split; [exact Hs|]. intros ->.
    pose proof (ends_with_last_segment sep filePath ".html" eq_refl Hhtml) as Hl.
    rewrite Hs, last_middle in Hl.
    apply Hkeys in Hentry. congruence.
Qed.

(** ** The transform on a loaded document *)

Local Abbreviation page_title :=
  (page_title blockPageTranslations errorPageTranslations
              challengePageTranslations).
Local Abbreviation edit_existing :=
  (edit_existing blockPageTranslations errorPageTranslations
                 challengePageTranslations).
Local Abbreviation created_tags :=
  (created_tags blockPageTranslations errorPageTranslations
                challengePageTranslations).
Local Abbreviation tags_parse :=
  (tags_parse parse_fragment blockPageTranslations errorPageTranslations
              challengePageTranslations).

Lemma select_Forall_match p l :
  Forall (fun n => match n with
                   | Elem name a _ => p name a = true
                   | _ => False
                   end) (select p l).
Proof.
  apply Forall_forall. intros s Hs.
  unfold select in Hs. apply in_flat_map in Hs as (n & _ & Hs).
  revert s Hs.
  induction n as [name a ch IH| | |] using node_forest_ind;
    simpl; try tauto.
  intros s [Hs|Hs]%in_app_or.
  - destruct (p name a) eqn:E; [|destruct Hs]. now destruct Hs as [<-|[]].
  - apply in_flat_map in Hs as (c & Hc & Hs).
    rewrite Forall_forall in IH. exact (IH c Hc s Hs).
Qed.

(** *** What the edits of existing elements leave alone *)

Lemma select_set_title_apart p t l pageTitle :
  within p t -> t <> "title" ->
  holds_text t l = true -> holds_text "title" l = true ->
  select p (set_title l pageTitle) = select p l.
Proof.
  intros Hw Hne Ht Htitle. unfold set_title.
  destruct (truthy pageTitle); [|reflexivity].
  now apply (select_set_text_apart p t "title").
Qed.

Lemma leaves_set_title l pageTitle :
  leaves_hold_text l = true -> leaves_hold_text (set_title l pageTitle) = true.
Proof.
  intros H. unfold set_title. destruct (truthy pageTitle); [|exact H].
  now apply leaves_set_text.
Qed.

Lemma leaves_edit_existing filePath d l :
  leaves_hold_text l = true ->
  leaves_hold_text (edit_existing filePath d l) = true.
Proof.
  intros H. unfold edit_existing.
  assert (H2 : leaves_hold_text
                 (set_title (normalizePreloads l) (page_title filePath)) = true)
    by now apply leaves_set_title, leaves_normalize.
  destruct (truthy (page_description filePath) && d); [|exact H2].
  now apply leaves_set_attr.
Qed.

Lemma lacks_edit_existing tag filePath d l :
  lacks tag l = true -> lacks tag (edit_existing filePath d l) = true.
Proof.
  intros H. unfold edit_existing.
  assert (H2 : lacks tag
                 (set_title (normalizePreloads l) (page_title filePath)) = true)
    by now apply lacks_set_title, lacks_normalizePreloads.
  destruct (truthy (page_description filePath) && d); [|exact H2].
  now apply lacks_set_attr.
Qed.

(** Titles and links apart, what a selector finds among the elements that
    hold text only is the same after the edits, unless it is aimed at the
    description metas. *)
Lemma select_edit_existing p t filePath d l :
  within p t -> t <> "title" -> t <> "link" ->
  apart p (meta_named "description") ->
  unmoved p (meta_named "description") "content" (page_description filePath) ->
  holds_text t l = true -> leaves_hold_text l = true ->
  select p (edit_existing filePath d l) = select p l.
Proof.
  intros Hw Hnt Hnl Ha Hu Ht Hl.
  pose proof Hl as (Htitle & _ & Hlink & _)%leaves_hold_text_iff.
  unfold edit_existing.
  assert (H1 : select p (normalizePreloads l) = select p l)
    by now apply (select_normalize_apart p t).
  assert (H2 : select p (set_title (normalizePreloads l) (page_title filePath))
               = select p l).
  { rewrite (select_set_title_apart p t); auto using holds_text_normalize. }
  destruct (truthy (page_description filePath) && d); [|exact H2].
  rewrite (select_set_attr_apart p _ t); auto.
  unfold set_title. destruct (truthy _);
    auto using holds_text_normalize, holds_text_set_text.
Qed.

Lemma scripts_edit_existing filePath d l :
  leaves_hold_text l = true ->
  select (by_tag "script") (edit_existing filePath d l)
  = select (by_tag "script") l.
Proof.
  intros Hl. pose proof Hl as (_ & _ & _ & Hs)%leaves_hold_text_iff.
  apply (select_edit_existing _ "script"); auto; try discriminate.
  - apply within_by_tag.
  - apply (within_apart _ _ "script" "meta");
      [apply within_by_tag|apply within_meta_named|discriminate].
  - apply by_tag_unmoved.
Qed.

Lemma metas_edit_existing name filePath d l :
  name <> "description" -> leaves_hold_text l = true ->
  select (meta_named name) (edit_existing filePath d l)
  = select (meta_named name) l.
Proof.
  intros Hne Hl. pose proof Hl as (_ & Hm & _ & _)%leaves_hold_text_iff.
  apply (select_edit_existing _ "meta"); auto; try discriminate.
  - apply within_meta_named.
  - now apply meta_named_apart.
  - apply meta_named_unmoved.
Qed.

(** *** What they change *)

Lemma title_texts_edit_existing filePath d l :
  leaves_hold_text l = true ->
  title_texts (edit_existing filePath d l)
  = if truthy (page_title filePath)
    then map (fun _ => page_title filePath +:+ " - Cloudflare") (title_texts l)
    else title_texts l.
Proof.
  intros Hl. pose proof Hl as (Htitle & _ & Hlink & _)%leaves_hold_text_iff.
  unfold title_texts, edit_existing.
  assert (H1 : select (by_tag "title") (normalizePreloads l)
               = select (by_tag "title") l).
  { apply (select_normalize_apart _ "title"); auto using within_by_tag;
      discriminate. }
  assert (H2 : map text_of
                 (select (by_tag "title")
                    (set_title (normalizePreloads l) (page_title filePath)))
               = if truthy (page_title filePath)
                 then map (fun _ => page_title filePath +:+ " - Cloudflare")
                          (map text_of (select (by_tag "title") l))
                 else map text_of (select (by_tag "title") l)).
  { unfold set_title. destruct (truthy (page_title filePath)).
    - rewrite select_set_text_same by now apply holds_text_normalize.
      now rewrite H1, map_map.
    - now rewrite H1. }
  destruct (truthy (page_description filePath) && d); [|exact H2].
  rewrite (select_set_attr_apart _ _ "title"); auto using within_by_tag.
  - apply (within_apart _ _ "title" "meta");
      [apply within_by_tag|apply within_meta_named|discriminate].
  - apply by_tag_unmoved.
  - unfold set_title. destruct (truthy _);
      auto using holds_text_normalize, holds_text_set_text.
Qed.

Lemma descriptions_edit_existing filePath d l :
  leaves_hold_text l = true ->
  meta_attribs "description" (edit_existing filePath d l)
  = if truthy (page_description filePath) && d
    then map (fun a => <["content" := page_description filePath]> a)
             (meta_attribs "description" l)
    else meta_attribs "description" l.
Proof.
  intros Hl. pose proof Hl as (Htitle & Hm & Hlink & _)%leaves_hold_text_iff.
  unfold meta_attribs, edit_existing.
  assert (H2 : select (meta_named "description")
                 (set_title (normalizePreloads l) (page_title filePath))
               = select (meta_named "description") l).
  { rewrite (select_set_title_apart _ "meta");
      auto using holds_text_normalize, within_meta_named; try discriminate.
    apply (select_normalize_apart _ "meta");
      auto using within_meta_named; discriminate. }
  destruct (truthy (page_description filePath) && d); [|now rewrite H2].
  rewrite select_set_attr by apply meta_named_unmoved.
  rewrite H2, !map_map. apply map_ext_Forall.
  eapply Forall_impl; [|apply select_Forall_match].
  intros [name a ch| | |]; try tauto. simpl. now intros ->.
Qed.

Lemma links_edit_existing filePath d l :
  leaves_hold_text l = true ->
  link_elements (edit_existing filePath d l)
  = omap preload_rule (link_elements l).
Proof.
  intros Hl. pose proof Hl as (Htitle & _ & Hlink & _)%leaves_hold_text_iff.
  rewrite <- link_elements_normalize by assumption.
  unfold link_elements, edit_existing. f_equal.
  assert (H2 : select (by_tag "link")
                 (set_title (normalizePreloads l) (page_title filePath))
               = select (by_tag "link") (normalizePreloads l)).
  { apply (select_set_title_apart _ "link");
      auto using holds_text_normalize, within_by_tag; discriminate. }
  destruct (truthy (page_description filePath) && d); [|exact H2].
  rewrite (select_set_attr_apart _ _ "link"); auto using within_by_tag.
  - apply (within_apart _ _ "link" "meta");
      [apply within_by_tag|apply within_meta_named|discriminate].
  - apply by_tag_unmoved.
  - unfold set_title. destruct (truthy _);
      auto using holds_text_normalize, holds_text_set_text.
Qed.

(** *** The transform, step by step *)

Lemma page_title_found filePath directory type :
  category_and_type filePath = Some (directory, type) ->
  page_title filePath = fst (page_texts directory type).
Proof. intros H. unfold page_title. now rewrite H. Qed.

Lemma page_description_found filePath directory type :
  category_and_type filePath = Some (directory, type) ->
  page_description filePath = snd (page_texts directory type).
Proof. intros H. unfold page_description. now rewrite H. Qed.

Lemma page_texts_not_found filePath :
  category_and_type filePath = None ->
  page_title filePath = "" /\ page_description filePath = "".
Proof. intros H. unfold page_title, page_description. now rewrite H. Qed.

Lemma edit_existing_not_found filePath d l :
  category_and_type filePath = None ->
  edit_existing filePath d l = normalizePreloads l.
Proof.
  intros (HT & HM)%page_texts_not_found. unfold edit_existing.
  now rewrite HT, HM.
Qed.

(** The document after [updateTDK]. *)
Lemma updateTDK_assemble k filePath :
  loaded k = true ->
  parses_description (page_description filePath) -> parses_keywords ->
  updateTDK (normalizePreloads (assemble k)) filePath =
  assemble (with_head_body k
              (edit_existing filePath (described (assemble k)) (sk_head k)
               ++ created_tags filePath (described (assemble k))
                               (keyworded (assemble k)))
              (edit_existing filePath (described (assemble k)) (sk_body k))).
Proof.
  intros Hl Hd Hkw. pose proof Hl as (Hk & Hlh & Hlb)%loaded_iff.
  pose proof Hk as [Hbefore Hprehead Hbetween Hpostbody Hafter Hhh Hhb Hbh Hbb]
    %parsed_facts_iff.
  rewrite normalizePreloads_assemble by assumption.
  destruct (category_and_type filePath) as [[directory type]|] eqn:Hcat.
  2:{ rewrite updateTDK_not_found by assumption.
      rewrite !edit_existing_not_found by assumption.
      unfold created_tags. now rewrite Hcat, app_nil_r. }
  rewrite (updateTDK_found _ _ _ _ Hcat).
  rewrite <- (page_title_found _ _ _ Hcat),
    <- (page_description_found _ _ _ Hcat).
  unfold inject, created_tags. rewrite Hcat.
  set (T := page_title filePath). set (M := page_description filePath) in *.
  set (d := described (assemble k)).
  set (hd2 := set_title (normalizePreloads (sk_head k)) T).
  set (bd2 := set_title (normalizePreloads (sk_body k)) T).
  change (edit_existing filePath d (sk_head k))
    with (if truthy M && d
          then set_attr (meta_named "description") "content" M hd2 else hd2).
  change (edit_existing filePath d (sk_body k))
    with (if truthy M && d
          then set_attr (meta_named "description") "content" M bd2 else bd2).
  assert (Hk1 : parsed (with_head_body k (normalizePreloads (sk_head k))
                                       (normalizePreloads (sk_body k))) = true)
    by (apply parsed_with_head_body; auto using lacks_normalizePreloads).
  assert (Hk2 : parsed (with_head_body k hd2 bd2) = true)
    by (apply parsed_with_head_body; auto; unfold hd2, bd2;
        auto using lacks_set_title, lacks_normalizePreloads).
  rewrite set_title_assemble by assumption.
  rewrite sk_head_with, sk_body_with, with_head_body_twice.
  fold hd2 bd2.
  (* the description *)
  assert (Hsel2 : forall name,
             select (meta_named name) (assemble (with_head_body k hd2 bd2))
             = select (meta_named name) (assemble k)).
  { intros name.
    pose proof Hlh as (Hth & Hmh & Hlkh & _)%leaves_hold_text_iff.
    pose proof Hlb as (Htb & Hmb & Hlkb & _)%leaves_hold_text_iff.
    apply select_with_head_body; auto using meta_named_rejects.
    - unfold hd2. rewrite (select_set_title_apart _ "meta");
        auto using holds_text_normalize, within_meta_named; try discriminate.
      apply (select_normalize_apart _ "meta");
        auto using within_meta_named; discriminate.
    - unfold bd2. rewrite (select_set_title_apart _ "meta");
        auto using holds_text_normalize, within_meta_named; try discriminate.
      apply (select_normalize_apart _ "meta");
        auto using within_meta_named; discriminate. }
  set (Eh := if truthy M && d
             then set_attr (meta_named "description") "content" M hd2 else hd2).
  set (Eb := if truthy M && d
             then set_attr (meta_named "description") "content" M bd2 else bd2).
  set (Dnew := if truthy M && negb d
               then [meta_node "description" M] else []).
  assert (H3 : set_description (assemble (with_head_body k hd2 bd2)) M
               = assemble (with_head_body k (Eh ++ Dnew) Eb)).
  { unfold set_description. rewrite (Hsel2 "description").
    change (0 <? length (select (meta_named "description") (assemble k)))%nat
      with d.
    subst Eh Eb Dnew. destruct (truthy M); cbn [andb negb];
      [destruct d; cbn [negb]|].
    - rewrite set_attr_assemble by (auto using meta_named_rejects).
      now rewrite app_nil_r.
    - rewrite Hd, append_head_assemble by assumption. reflexivity.
    - now rewrite app_nil_r. }
  rewrite H3.
  assert (Hk3 : parsed (with_head_body k (Eh ++ Dnew) Eb) = true).
  { assert (lacks "head" hd2 = true /\ lacks "body" hd2 = true
            /\ lacks "head" bd2 = true /\ lacks "body" bd2 = true)
      as (? & ? & ? & ?)
      by (unfold hd2, bd2;
          auto 10 using lacks_set_title, lacks_normalizePreloads).
    apply parsed_with_head_body; auto; subst Eh Eb Dnew;
      rewrite ?lacks_app; repeat (apply andb_true_iff; split);
      repeat match goal with
             | |- context [if ?c then _ else _] => destruct c
             end;
      auto using lacks_set_attr, lacks_meta_node; try reflexivity;
      apply lacks_meta_node; discriminate. }
  (* the keywords *)
  assert (Hsel3 : select (meta_named "keywords")
                    (assemble (with_head_body k (Eh ++ Dnew) Eb))
                  = select (meta_named "keywords") (assemble k)).
  { rewrite <- (Hsel2 "keywords").
    rewrite !select_assemble by (auto using meta_named_rejects).
    rewrite !sk_head_with, !sk_body_with, select_app.
    assert (HD : select (meta_named "keywords") Dnew = []).
    { subst Dnew. destruct (truthy M && negb d); [|reflexivity].
      now apply select_meta_node_other. }
    rewrite HD, app_nil_r.
    assert (Hattr : forall l,
               holds_text "meta" l = true ->
               select (meta_named "keywords")
                 (set_attr (meta_named "description") "content" M l)
               = select (meta_named "keywords") l).
    { intros l Hm. apply (select_set_attr_apart _ _ "meta");
        auto using within_meta_named, meta_named_unmoved.
      now apply meta_named_apart. }
    pose proof Hlh as (Hth & Hmh & Hlkh & _)%leaves_hold_text_iff.
    pose proof Hlb as (Htb & Hmb & Hlkb & _)%leaves_hold_text_iff.
    assert (holds_text "meta" hd2 = true /\ holds_text "meta" bd2 = true)
      as (Hm2h & Hm2b).
    { unfold hd2, bd2, set_title. destruct (truthy T);
        auto using holds_text_normalize, holds_text_set_text. }
    subst Eh Eb. destruct (truthy M && d); [|reflexivity].
    now rewrite !Hattr. }
  unfold ensure_keywords. rewrite Hsel3. unfold keyworded.
  destruct (length (select (meta_named "keywords") (assemble k)) =? 0)%nat;
    cbn [negb].
  - rewrite Hkw, append_head_assemble by assumption.
    rewrite sk_head_with, sk_body_with, with_head_body_twice.
    now rewrite <- app_assoc.
  - now rewrite app_nil_r.
Qed.

Lemma lacks_created_tags tag filePath d w :
  tag <> "meta" -> lacks tag (created_tags filePath d w) = true.
Proof.
  intros Hne. unfold created_tags.
  destruct (category_and_type filePath); [|reflexivity].
  rewrite lacks_app. apply andb_true_iff.
  split; [destruct (truthy _ && negb d)|destruct w];
    try reflexivity; now apply lacks_meta_node.
Qed.

Lemma lacks_platform_tags tag filePath package buildDate :
  tag <> "meta" -> lacks tag (platform_tags filePath package buildDate) = true.
Proof.
  intros Hne. unfold platform_tags.
  destruct (includes filePath out_cf); [|reflexivity].
  now apply lacks_cloudflare_nodes.
Qed.

(** The document after the whole transform: the platform tags, the children
    of the head without the scripts, the created tags; and the children of
    the body, followed by the scripts of the head. *)
Lemma transform_assemble k filePath package buildDate :
  loaded k = true -> tags_parse filePath package buildDate ->
  transform filePath package buildDate (assemble k) =
  assemble (with_head_body k
              (platform_tags filePath package buildDate
               ++ flat_map (remove_head_scripts true)
                    (edit_existing filePath (described (assemble k)) (sk_head k))
               ++ created_tags filePath (described (assemble k))
                               (keyworded (assemble k)))
              (edit_existing filePath (described (assemble k)) (sk_body k)
               ++ select (by_tag "script") (sk_head k))).
Proof.
  intros Hl (Hd & Hkw & Hcf). pose proof Hl as (Hk & Hlh & Hlb)%loaded_iff.
  pose proof Hk as [Hbefore Hprehead Hbetween Hpostbody Hafter Hhh Hhb Hbh Hbb]
    %parsed_facts_iff.
  unfold transform. rewrite updateTDK_assemble by assumption.
  set (d := described (assemble k)). set (w := keyworded (assemble k)).
  set (Eh := edit_existing filePath d (sk_head k)).
  set (Eb := edit_existing filePath d (sk_body k)).
  set (C := created_tags filePath d w).
  set (P := platform_tags filePath package buildDate).
  assert (HC : forall tag, tag <> "meta" -> lacks tag C = true)
    by (intros; now apply lacks_created_tags).
  assert (HP : forall tag, tag <> "meta" -> lacks tag P = true)
    by (intros; now apply lacks_platform_tags).
  assert (HEh : forall tag, lacks tag (sk_head k) = true -> lacks tag Eh = true)
    by (intros; now apply lacks_edit_existing).
  assert (HEb : forall tag, lacks tag (sk_body k) = true -> lacks tag Eb = true)
    by (intros; now apply lacks_edit_existing).
  assert (Hk3 : parsed (with_head_body k (Eh ++ C) Eb) = true).
  { apply parsed_with_head_body; auto; rewrite lacks_app;
      apply andb_true_iff; split; auto; apply HC; discriminate. }
  assert (Hstep : (if includes filePath out_cf
                   then addCloudflareMetaTags
                          (assemble (with_head_body k (Eh ++ C) Eb))
                          package buildDate
                   else assemble (with_head_body k (Eh ++ C) Eb))
                  = assemble (with_head_body k (P ++ Eh ++ C) Eb)).
  { subst P. unfold platform_tags.
    destruct (includes filePath out_cf); [|reflexivity].
    now rewrite addCloudflareMetaTags_assemble by auto. }
  rewrite Hstep.
  assert (Hk4 : parsed (with_head_body k (P ++ Eh ++ C) Eb) = true).
  { apply parsed_with_head_body; auto; rewrite !lacks_app;
      repeat (apply andb_true_iff; split); auto;
      first [apply HP|apply HC]; discriminate. }
  rewrite moveScripts_assemble by assumption.
  rewrite sk_head_with, sk_body_with, with_head_body_twice.
  rewrite !flat_map_app.
  rewrite (remove_lacks_script true P), (remove_lacks_script true C),
    (collect_lacks_script true P), (collect_lacks_script true C)
    by (first [apply HP|apply HC]; discriminate).
  rewrite app_nil_r. cbn [app].
  rewrite head_scripts_text.
  - subst Eh. now rewrite scripts_edit_existing.
  - now apply leaves_hold_text_iff, leaves_edit_existing.
Qed.

(** *** What is selected in the tags the script writes *)

Lemma select_node_meta_other v name content :
  name <> v -> select_node (meta_named v) (meta_node name content) = [].
Proof.
  intros Hne. pose proof (select_meta_node_other v name content Hne) as H.
  unfold select in H. cbn [flat_map] in H. now rewrite app_nil_r in H.
Qed.

Lemma select_meta_cloudflare v buildDate version :
  v = "description" \/ v = "keywords" ->
  select (meta_named v) (cloudflare_nodes buildDate version) = [].
Proof.
  intros Hv. unfold cloudflare_nodes, select.
  cbn [flat_map select_node app].
  now rewrite !select_node_meta_other
    by (destruct Hv; subst; discriminate).
Qed.

Lemma select_meta_platform_tags v filePath package buildDate :
  v = "description" \/ v = "keywords" ->
  select (meta_named v) (platform_tags filePath package buildDate) = [].
Proof.
  intros Hv. unfold platform_tags.
  destruct (includes filePath out_cf); [|reflexivity].
  now apply select_meta_cloudflare.
Qed.

Lemma select_tag_platform_tags tag filePath package buildDate :
  tag <> "meta" ->
  select (by_tag tag) (platform_tags filePath package buildDate) = [].
Proof. intros H. now apply lacks_select, lacks_platform_tags. Qed.

Lemma select_tag_created_tags tag filePath d w :
  tag <> "meta" -> select (by_tag tag) (created_tags filePath d w) = [].
Proof. intros H. now apply lacks_select, lacks_created_tags. Qed.

Lemma select_description_created_tags filePath d w :
  select (meta_named "description") (created_tags filePath d w)
  = match category_and_type filePath with
    | Some _ =>
        if truthy (page_description filePath) && negb d
        then [meta_node "description" (page_description filePath)] else []
    | None => []
    end.
Proof.
  unfold created_tags. destruct (category_and_type filePath); [|reflexivity].
  rewrite select_app.
  assert (H : select (meta_named "description")
                (if w then [] else [meta_node "keywords" keywords_content])
              = []).
  { destruct w; [reflexivity|]. now apply select_meta_node_other. }
  rewrite H, app_nil_r.
  destruct (truthy _ && negb d); [|reflexivity].
  apply select_meta_node_same.
Qed.

Lemma select_keywords_created_tags filePath d w :
  select (meta_named "keywords") (created_tags filePath d w)
  = match category_and_type filePath with
    | Some _ => if w then [] else [meta_node "keywords" keywords_content]
    | None => []
    end.
Proof.
  unfold created_tags. destruct (category_and_type filePath); [|reflexivity].
  rewrite select_app.
  assert (H : select (meta_named "keywords")
                (if truthy (page_description filePath) && negb d
                 then [meta_node "description" (page_description filePath)]
                 else []) = []).
  { destruct (truthy _ && negb d); [|reflexivity].
    now apply select_meta_node_other. }
  rewrite H. cbn [app]. destruct w; [reflexivity|].
  apply select_meta_node_same.
Qed.

(** *** What is selected after the transform *)

Lemma parsed_transformed k filePath package buildDate d w :
  loaded k = true ->
  parsed (with_head_body k
            (platform_tags filePath package buildDate
             ++ flat_map (remove_head_scripts true)
                  (edit_existing filePath d (sk_head k))
             ++ created_tags filePath d w)
            (edit_existing filePath d (sk_body k)
             ++ select (by_tag "script") (sk_head k))) = true.
Proof.
  intros (Hk & Hlh & Hlb)%loaded_iff.
  pose proof Hk as [Hbefore Hprehead Hbetween Hpostbody Hafter Hhh Hhb Hbh Hbb]
    %parsed_facts_iff.
  pose proof Hlh as (_ & _ & _ & Hs)%leaves_hold_text_iff.
  rewrite <- (head_scripts_text (sk_head k)) by assumption.
  apply parsed_with_head_body; auto; rewrite !lacks_app;
    repeat (apply andb_true_iff; split);
    auto using lacks_platform_tags, lacks_created_tags, lacks_edit_existing,
      remove_all_keeps_lacks, collect_all_keeps_lacks;
    first [apply lacks_platform_tags|apply lacks_created_tags]; discriminate.
Qed.

(** A selector aimed at titles, metas or links finds, after the transform,
    what it finds in the platform tags, in the edited children of the head,
    in the created tags and in the edited children of the body. *)
Lemma select_transform p t k filePath package buildDate :
  within p t -> t = "title" \/ t = "meta" \/ t = "link" ->
  loaded k = true -> tags_parse filePath package buildDate ->
  select p (transform filePath package buildDate (assemble k))
  = select p (platform_tags filePath package buildDate)
    ++ select p (edit_existing filePath (described (assemble k)) (sk_head k))
    ++ select p (created_tags filePath (described (assemble k))
                              (keyworded (assemble k)))
    ++ select p (edit_existing filePath (described (assemble k)) (sk_body k)).
Proof.
  intros Hw Ht Hl Hparse. pose proof Hl as (Hk & Hlh & Hlb)%loaded_iff.
  assert (Hleaf : forall l, leaves_hold_text l = true ->
                            holds_text t l = true /\ holds_text "script" l = true).
  { intros l (? & ? & ? & ?)%leaves_hold_text_iff.
    destruct Ht as [->|[->| ->]]; auto. }
  assert (Hns : t <> "script") by (destruct Ht as [->|[->| ->]]; discriminate).
  assert (Hrej : rejects_structure p).
  { apply (within_rejects p t); auto;
      destruct Ht as [->|[->| ->]]; discriminate. }
  rewrite transform_assemble by assumption.
  rewrite select_assemble by (auto using parsed_transformed).
  rewrite sk_head_with, sk_body_with, !select_app.
  destruct (Hleaf _ (leaves_edit_existing filePath (described (assemble k))
                       _ Hlh)) as (H1 & H2).
  rewrite (select_remove_apart p t) by assumption.
  destruct (Hleaf _ Hlh) as (H3 & H4).
  rewrite <- (head_scripts_text (sk_head k)) by assumption.
  rewrite (select_collect_apart p t) by assumption.
  now rewrite app_nil_r, <- !app_assoc.
Qed.

(** *** Titles, metas and links after the transform *)

Lemma described_false doc :
  described doc = false <-> meta_attribs "description" doc = [].
Proof.
  unfold described, meta_attribs.
  destruct (select (meta_named "description") doc); simpl; split;
    auto; discriminate.
Qed.

Lemma keyworded_false doc :
  keyworded doc = false <-> meta_attribs "keywords" doc = [].
Proof.
  unfold keyworded, meta_attribs.
  destruct (select (meta_named "keywords") doc); simpl; split;
    auto; discriminate.
Qed.

Lemma title_texts_assemble k :
  parsed k = true ->
  title_texts (assemble k) = title_texts (sk_head k) ++ title_texts (sk_body k).
Proof.
  intros Hk. unfold title_texts.
  rewrite select_assemble by (auto; now apply by_tag_rejects).
  apply map_app.
Qed.

Lemma link_elements_assemble k :
  parsed k = true ->
  link_elements (assemble k)
  = link_elements (sk_head k) ++ link_elements (sk_body k).
Proof.
  intros Hk. unfold link_elements.
  rewrite select_assemble by (auto; now apply by_tag_rejects).
  apply map_app.
Qed.

Lemma titles_transform k filePath package buildDate :
  loaded k = true -> tags_parse filePath package buildDate ->
  title_texts (transform filePath package buildDate (assemble k))
  = if truthy (page_title filePath)
    then map (fun _ => page_title filePath +:+ " - Cloudflare")
             (title_texts (assemble k))
    else title_texts (assemble k).
Proof.
  intros Hl Hp. pose proof Hl as (Hk & Hlh & Hlb)%loaded_iff.
  unfold title_texts at 1.
  rewrite (select_transform _ "title") by (auto using within_by_tag).
  rewrite select_tag_platform_tags, select_tag_created_tags by discriminate.
  cbn [app]. rewrite map_app. fold (title_texts (edit_existing filePath (described (assemble k)) (sk_head k)))
    (title_texts (edit_existing filePath (described (assemble k)) (sk_body k))).
  rewrite !title_texts_edit_existing, title_texts_assemble by assumption.
  destruct (truthy (page_title filePath)); [|reflexivity].
  now rewrite map_app.
Qed.

Lemma links_transform k filePath package buildDate :
  loaded k = true -> tags_parse filePath package buildDate ->
  link_elements (transform filePath package buildDate (assemble k))
  = omap preload_rule (link_elements (assemble k)).
Proof.
  intros Hl Hp. pose proof Hl as (Hk & Hlh & Hlb)%loaded_iff.
  unfold link_elements at 1.
  rewrite (select_transform _ "link") by (auto using within_by_tag).
  rewrite select_tag_platform_tags, select_tag_created_tags by discriminate.
  cbn [app]. rewrite map_app.
  fold (link_elements (edit_existing filePath (described (assemble k)) (sk_head k)))
    (link_elements (edit_existing filePath (described (assemble k)) (sk_body k))).
  rewrite !links_edit_existing, link_elements_assemble by assumption.
  now rewrite omap_app.
Qed.

Lemma descriptions_transform k filePath package buildDate :
  loaded k = true -> tags_parse filePath package buildDate ->
  meta_attribs "description" (transform filePath package buildDate (assemble k))
  = if described (assemble k) then
      if truthy (page_description filePath)
      then map (fun a => <["content" := page_description filePath]> a)
               (meta_attribs "description" (assemble k))
      else meta_attribs "description" (assemble k)
    else
      match category_and_type filePath with
      | Some _ =>
          if truthy (page_description filePath)
          then [node_attribs
                  (meta_node "description" (page_description filePath))]
          else []
      | None => []
      end.
Proof.
  intros Hl Hp. pose proof Hl as (Hk & Hlh & Hlb)%loaded_iff.
  unfold meta_attribs at 1.
  rewrite (select_transform _ "meta") by (auto using within_meta_named).
  rewrite select_meta_platform_tags, select_description_created_tags by auto.
  cbn [app]. rewrite !map_app.
  fold (meta_attribs "description"
          (edit_existing filePath (described (assemble k)) (sk_head k)))
    (meta_attribs "description"
          (edit_existing filePath (described (assemble k)) (sk_body k))).
  rewrite !descriptions_edit_existing by assumption.
  pose proof (meta_attribs_assemble "description" k Hk) as Hsplit.
  destruct (described (assemble k)) eqn:Hd.
  - rewrite andb_true_r. cbn [negb]. rewrite andb_false_r.
    assert (Hnone : map node_attribs
                      match category_and_type filePath with
                      | Some _ => []
                      | None => []
                      end = []) by now destruct (category_and_type filePath).
    rewrite Hnone. cbn [app].
    destruct (truthy (page_description filePath));
      now rewrite Hsplit, ?map_app.
  - rewrite andb_false_r. apply described_false in Hd.
    rewrite Hd in Hsplit. symmetry in Hsplit.
    apply app_eq_nil in Hsplit as [-> ->]. cbn [app negb].
    rewrite andb_true_r, app_nil_r.
    destruct (category_and_type filePath); [|reflexivity].
    now destruct (truthy (page_description filePath)).
Qed.

Lemma keywords_transform k filePath package buildDate :
  loaded k = true -> tags_parse filePath package buildDate ->
  meta_attribs "keywords" (transform filePath package buildDate (assemble k))
  = if keyworded (assemble k) then meta_attribs "keywords" (assemble k)
    else
      match category_and_type filePath with
      | Some _ => [node_attribs (meta_node "keywords" keywords_content)]
      | None => []
      end.
Proof.
  intros Hl Hp. pose proof Hl as (Hk & Hlh & Hlb)%loaded_iff.
  unfold meta_attribs at 1.
  rewrite (select_transform _ "meta") by (auto using within_meta_named).
  rewrite select_meta_platform_tags, select_keywords_created_tags by auto.
  rewrite !metas_edit_existing by (assumption || discriminate).
  cbn [app]. rewrite !map_app.
  pose proof (meta_attribs_assemble "keywords" k Hk) as Hsplit.
  unfold meta_attribs in Hsplit |- *.
  destruct (keyworded (assemble k)) eqn:Hw.
  - assert (Hnone : map node_attribs
                      match category_and_type filePath with
                      | Some _ => []
                      | None => []
                      end = []) by now destruct (category_and_type filePath).
    now rewrite Hnone, Hsplit.
  - apply keyworded_false in Hw. unfold meta_attribs in Hw.
    rewrite Hw in Hsplit. symmetry in Hsplit.
    apply app_eq_nil in Hsplit as [-> ->]. cbn [app].
    rewrite app_nil_r. now destruct (category_and_type filePath).
Qed.

(** *** The platform tags after the transform *)

Lemma platform_tags_prepended k filePath package buildDate :
  loaded k = true -> tags_parse filePath package buildDate ->
  includes filePath out_cf = true ->
  exists rest bd,
    transform filePath package buildDate (assemble k)
    = assemble (with_head_body k
                  (cloudflare_nodes buildDate (manifest_version package)
                   ++ rest) bd).
Proof.
  intros Hl Hp Hin. rewrite transform_assemble by assumption.
  unfold platform_tags. rewrite Hin. now eexists _, _.
Qed.

Lemma select_other_created_tags v filePath d w :
  v <> "description" -> v <> "keywords" ->
  select (meta_named v) (created_tags filePath d w) = [].
Proof.
  intros Hd Hk. unfold created_tags.
  destruct (category_and_type filePath); [|reflexivity].
  rewrite select_app.
  destruct (truthy _ && negb d), w; cbn [app];
    rewrite ?select_meta_node_other by congruence; reflexivity.
Qed.

Lemma platform_tags_absent k filePath package buildDate v :
  loaded k = true -> tags_parse filePath package buildDate ->
  includes filePath out_cf = false ->
  v <> "description" -> v <> "keywords" ->
  meta_attribs v (transform filePath package buildDate (assemble k))
  = meta_attribs v (assemble k).
Proof.
  intros Hl Hp Hin Hd Hkw. pose proof Hl as (Hk & Hlh & Hlb)%loaded_iff.
  unfold meta_attribs.
  rewrite (select_transform _ "meta") by (auto using within_meta_named).
  unfold platform_tags. rewrite Hin.
  rewrite select_other_created_tags by assumption.
  rewrite !metas_edit_existing by assumption.
  cbn [app select flat_map].
  now rewrite select_assemble by (auto using meta_named_rejects).
Qed.

(** ** Claims on the metadata *)

(** The translated title and description when the library parses every tag
    the script writes. *)
Lemma transform_translated_parsed k filePath pre directory type post e
        package buildDate :
  loaded k = true -> tags_parse filePath package buildDate ->
  split sep filePath = pre ++ "cf" :: directory :: type :: post ->
  no_marker pre ->
  translation_entry directory type = Some e ->
  title e <> "" -> message e <> "" ->
  let out := transform filePath package buildDate (assemble k) in
  title_texts out
  = map (fun _ => title e +:+ " - Cloudflare") (title_texts (assemble k))
  /\ (title_texts (assemble k) <> [] ->
      document_title out = Some (title e +:+ " - Cloudflare"))
  /\ (meta_attribs "description" (assemble k) <> [] ->
      meta_attribs "description" out
      = map (fun a => <["content" := message e]> a)
            (meta_attribs "description" (assemble k)))
  /\ (meta_attribs "description" (assemble k) = [] ->
      meta_attribs "description" out
      = [ {[ "name" := "description"; "content" := message e ]} ]
      /\ exists front rest bd,
          out = assemble (with_head_body k
                            (front ++ meta_node "description" (message e)
                                   :: rest) bd)
          /\ (rest = [] \/ rest = [meta_node "keywords" keywords_content]))
  /\ Forall (fun c => c = Some (message e)) (meta_contents "description" out)
  /\ meta_contents "description" out <> [].
Proof.
  intros Hl Hp Hs Hpre He Ht Hm out. subst out.
  pose proof (category_and_type_found _ _ _ _ _ Hs Hpre) as Hcat.
  assert (HT : page_title filePath = title e).
  { now rewrite (page_title_found _ _ _ Hcat), page_texts_entry, He. }
  assert (HM : page_description filePath = message e).
  { now rewrite (page_description_found _ _ _ Hcat), page_texts_entry, He. }
  pose proof (titles_transform k filePath package buildDate Hl Hp) as Htitles.
  rewrite HT, truthy_true in Htitles by assumption.
  pose proof (descriptions_transform k filePath package buildDate Hl Hp)
    as Hdesc.
  rewrite HM, truthy_true, Hcat in Hdesc by assumption.
  split; [exact Htitles|]. split.
  { intros Hsome. unfold document_title. rewrite Htitles.
    now destruct (title_texts (assemble k)). }
  split.
  { intros Hsome. destruct (described (assemble k)) eqn:Hd; [exact Hdesc|].
    now apply described_false in Hd. }
  split.
  { intros Hnone. pose proof Hnone as Hd. apply described_false in Hd.
    rewrite Hd in Hdesc. split; [exact Hdesc|].
    exists (platform_tags filePath package buildDate
            ++ flat_map (remove_head_scripts true)
                 (edit_existing filePath false (sk_head k))),
      (if keyworded (assemble k) then []
       else [meta_node "keywords" keywords_content]),
      (edit_existing filePath false (sk_body k)
       ++ select (by_tag "script") (sk_head k)).
    split.
    - rewrite transform_assemble by assumption. unfold created_tags.
      rewrite Hcat, HM, truthy_true, Hd by assumption.
      cbn [negb andb app]. now rewrite <- !app_assoc.
    - destruct (keyworded (assemble k)); auto. }
  unfold meta_contents. rewrite Hdesc.
  destruct (described (assemble k)) eqn:Hd.
  - split.
    + apply Forall_map, Forall_map, Forall_forall. intros a _.
      apply lookup_insert_eq.
    + destruct (meta_attribs "description" (assemble k)) eqn:E;
        [|discriminate].
      apply described_false in E. congruence.
  - split; [|discriminate]. repeat constructor.
Qed.

(** C5 (amended).  Take a loaded document.  When the first segment [cf]
    of the path is followed by two segments, whether or not the lookup
    succeeds: a document without keywords meta has exactly one after the
    transform, with the default content, and in a document that has one
    the keywords metas are left as they are and none is added.  When the
    path has no segment [cf], or fewer than two segments after it, the
    transform leaves the keywords metas as they are and adds none, also
    when the document has none. *)
Theorem transform_keywords k filePath package buildDate :
  loaded k = true -> tags_parse filePath package buildDate ->
  let out := transform filePath package buildDate (assemble k) in
  ((exists pre directory type post,
       split sep filePath = pre ++ "cf" :: directory :: type :: post
       /\ no_marker pre) ->
   (meta_attribs "keywords" (assemble k) = [] ->
    meta_attribs "keywords" out
    = [ {[ "name" := "keywords"; "content" := keywords_content ]} ])
   /\ (meta_attribs "keywords" (assemble k) <> [] ->
       meta_attribs "keywords" out = meta_attribs "keywords" (assemble k)))
  /\ (no_marker (split sep filePath)
      \/ (exists pre post,
            split sep filePath = pre ++ "cf" :: post
            /\ no_marker pre /\ length post < 2) ->
      meta_attribs "keywords" out = meta_attribs "keywords" (assemble k)).
Proof.
  intros Hl Hp out. subst out.
  pose proof (keywords_transform k filePath package buildDate Hl Hp) as Hkw.
  split.
  - intros (pre & directory & type & post & Hs & Hpre).
    rewrite (category_and_type_found _ _ _ _ _ Hs Hpre) in Hkw.
    split.
    + intros Hnone. apply keyworded_false in Hnone.
      now rewrite Hnone in Hkw.
    + intros Hsome. destruct (keyworded (assemble k)) eqn:Hw; [exact Hkw|].
      now apply keyworded_false in Hw.
  - intros Hnot.
    assert (Hcat : category_and_type filePath = None).
    { destruct Hnot as [H|(pre & post & Hs & Hpre & Hlen)].
      - now apply category_and_type_no_marker.
      - now apply (category_and_type_short _ pre post). }
    rewrite Hcat in Hkw.
    destruct (keyworded (assemble k)) eqn:Hw; [exact Hkw|].
    apply keyworded_false in Hw. now rewrite Hw.
Qed.

(** C6.  When the path has no segment [cf], or fewer than two segments
    after the first one, [updateTDK] returns every document as it is; when
    the category and the type after the marker match no entry of the
    tables, the title texts and the description metas of every document
    are those of the input.  In all these cases the title texts and the
    description metas of a loaded document are, after the whole transform,
    those of the input. *)
Theorem transform_without_translation k filePath package buildDate :
  loaded k = true -> tags_parse filePath package buildDate ->
  let out := transform filePath package buildDate (assemble k) in
  (no_marker (split sep filePath)
   \/ (exists pre post,
         split sep filePath = pre ++ "cf" :: post
         /\ no_marker pre /\ length post < 2) ->
   (forall doc, updateTDK doc filePath = doc)
   /\ title_texts out = title_texts (assemble k)
   /\ meta_attribs "description" out = meta_attribs "description" (assemble k))
  /\ ((exists pre directory type post,
         split sep filePath = pre ++ "cf" :: directory :: type :: post
         /\ no_marker pre
         /\ translation_entry directory type = None) ->
      (forall doc,
          title_texts (updateTDK doc filePath) = title_texts doc
          /\ meta_attribs "description" (updateTDK doc filePath)
             = meta_attribs "description" doc)
      /\ title_texts out = title_texts (assemble k)
      /\ meta_attribs "description" out
         = meta_attribs "description" (assemble k)).
Proof.
  intros Hl Hp out. subst out.
  pose proof (titles_transform k filePath package buildDate Hl Hp) as Htitles.
  pose proof (descriptions_transform k filePath package buildDate Hl Hp)
    as Hdesc.
  assert (Hempty : page_title filePath = "" -> page_description filePath = "" ->
                   title_texts (transform filePath package buildDate (assemble k))
                   = title_texts (assemble k)
                   /\ meta_attribs "description"
                        (transform filePath package buildDate (assemble k))
                      = meta_attribs "description" (assemble k)).
  { intros HT HM. rewrite HT in Htitles. rewrite HM in Hdesc.
    split; [exact Htitles|]. rewrite Hdesc.
    change (truthy "") with false. cbn iota.
    destruct (described (assemble k)) eqn:Hd; [reflexivity|].
    apply described_false in Hd. rewrite Hd.
    now destruct (category_and_type filePath). }
  split.
  - intros Hnot.
    assert (Hcat : category_and_type filePath = None).
    { destruct Hnot as [H|(pre & post & Hs & Hpre & Hlen)].
      - now apply category_and_type_no_marker.
      - now apply (category_and_type_short _ pre post). }
    split; [intros doc; now apply updateTDK_not_found|].
    apply page_texts_not_found in Hcat as [HT HM]. now apply Hempty.
  - intros (pre & directory & type & post & Hs & Hpre & Hnone).
    pose proof (category_and_type_found _ _ _ _ _ Hs Hpre) as Hcat.
    destruct Hp as (_ & Hkw & _).
    split.
    + intros doc.
      now apply (updateTDK_unrecognised doc filePath directory type).
    + apply Hempty.
      * now rewrite (page_title_found _ _ _ Hcat), page_texts_entry, Hnone.
      * now rewrite (page_description_found _ _ _ Hcat), page_texts_entry,
          Hnone.
Qed.

(** C10.  A document without title element has none after [updateTDK] and
    none after the whole transform, whatever the path and the tables, also
    when category and type match an entry.  When they match an entry with
    a non-empty title, every title element of the document, wherever it
    is, has the new text after [updateTDK]. *)
Theorem no_title_is_created doc filePath package buildDate :
  tags_parse filePath package buildDate ->
  (select (by_tag "title") doc = [] ->
   select (by_tag "title") (updateTDK doc filePath) = []
   /\ select (by_tag "title") (transform filePath package buildDate doc) = [])
  /\ (forall directory type e,
        category_and_type filePath = Some (directory, type) ->
        translation_entry directory type = Some e -> title e <> "" ->
        Forall (fun t => t = title e +:+ " - Cloudflare")
               (title_texts (updateTDK doc filePath))).
Proof.
  intros (Hd & Hk & Hcf). split.
  - intros H. apply lacks_select in H. split; apply lacks_select.
    + apply lacks_updateTDK; auto; discriminate.
    + apply lacks_transform; auto; discriminate.
  - intros directory type e Hcat He Ht.
    rewrite (page_description_found _ _ _ Hcat) in Hd.
    rewrite (updateTDK_found _ _ _ _ Hcat). unfold inject.
    rewrite ensure_keywords_titles, set_description_titles by assumption.
    rewrite page_texts_entry, He. cbn [fst].
    now apply set_title_texts.
Qed.

(** ** Claims on the preload and the script edits *)

(** C3.  After the transform of a loaded document, the link elements are
    those of the input, in the same order, each one rewritten by the
    preload rule: a preload link with resource type "style" has relation
    "stylesheet" and no resource type (every other attribute is kept), a
    preload link with resource type "font" is gone, and every other link,
    preload or not, has the attributes it had.  The preload edit alone
    does the same to the elements of every document whose links are
    void. *)
Theorem normalizePreloads_rule k filePath package buildDate :
  loaded k = true -> tags_parse filePath package buildDate ->
  link_elements (transform filePath package buildDate (assemble k))
  = omap preload_rule (link_elements (assemble k))
  /\ (forall doc,
        holds_text "link" doc = true ->
        elements (normalizePreloads doc) = omap preload_rule (elements doc))
  /\ (forall name (a : gmap string string),
        preload_link name a = true -> a !! "as" = Some "style" ->
        exists a',
          preload_rule (name, a) = Some (name, a')
          /\ a' !! "rel" = Some "stylesheet" /\ a' !! "as" = None
          /\ forall key, key <> "rel" -> key <> "as" -> a' !! key = a !! key)
  /\ (forall name (a : gmap string string),
        preload_link name a = true -> a !! "as" = Some "font" ->
        preload_rule (name, a) = None)
  /\ (forall name (a : gmap string string),
        a !! "as" <> Some "style" -> a !! "as" <> Some "font" ->
        preload_rule (name, a) = Some (name, a))
  /\ (forall name (a : gmap string string),
        preload_link name a = false -> preload_rule (name, a) = Some (name, a)).
Proof.
  intros Hl Hp. split; [now apply links_transform|].
  split; [intros doc; apply elements_normalizePreloads|].
  repeat split.
  - intros name a Hpre Has.
    exists (delete "as" (<["rel" := "stylesheet"]> a)).
    unfold preload_rule. rewrite Hpre, bool_decide_eq_true_2 by assumption.
    repeat split.
    + now rewrite lookup_delete_ne, lookup_insert_eq by discriminate.
    + apply lookup_delete_eq.
    + intros key Hr Ha.
      now rewrite lookup_delete_ne, lookup_insert_ne by congruence.
  - intros name a Hpre Has. unfold preload_rule.
    rewrite Hpre, bool_decide_eq_false_2, bool_decide_eq_true_2;
      [reflexivity|assumption|congruence].
  - intros name a Hs Hf. unfold preload_rule.
    rewrite !bool_decide_eq_false_2 by assumption.
    now destruct (preload_link name a).
  - intros name a Hpre. unfold preload_rule. now rewrite Hpre.
Qed.

(** C2.  After the transform of a loaded document the head holds no
    script, and the children of the body end with the scripts the head
    held, as they were and in document order, after everything else, the
    scripts of the body among it as they were.  The relocation alone does
    this to the document it is given, and it leaves a document whose head
    holds no script as it is. *)
Theorem moveScriptsToBodyBottom_relocates k filePath package buildDate :
  loaded k = true -> tags_parse filePath package buildDate ->
  (exists hd bd,
      transform filePath package buildDate (assemble k)
      = assemble (with_head_body k hd
                    (bd ++ select (by_tag "script") (sk_head k)))
      /\ select (by_tag "script") hd = []
      /\ select (by_tag "script") bd = select (by_tag "script") (sk_body k))
  /\ moveScriptsToBodyBottom (assemble k)
     = assemble (with_head_body k
                   (flat_map (remove_head_scripts true) (sk_head k))
                   (sk_body k ++ select (by_tag "script") (sk_head k)))
  /\ select (by_tag "script")
            (flat_map (remove_head_scripts true) (sk_head k)) = []
  /\ (select (by_tag "script") (sk_head k) = [] ->
      moveScriptsToBodyBottom (assemble k) = assemble k).
Proof.
  intros Hl Hp. pose proof Hl as (Hk & Hlh & Hlb)%loaded_iff.
  pose proof Hlh as (_ & _ & _ & Hs)%leaves_hold_text_iff.
  split.
  { eexists _, _. split; [now apply transform_assemble|]. split.
    - rewrite !select_app.
      rewrite select_tag_platform_tags, select_tag_created_tags
        by discriminate.
      now rewrite removed_all_have_no_script.
    - now apply scripts_edit_existing. }
  destruct (moveScripts_parsed k Hk) as (Hmove & Hnone & _ & _ & Hsame).
  rewrite <- head_scripts_select, head_scripts_text in Hmove by assumption.
  auto.
Qed.

End UpdateFacts.

(** ** The description tag written as text

    Lines 97-99 write the message between double quotes into the source
    text of a meta tag and let the library parse it, where line 95 sets
    the attribute.  Whether the content read back is the message depends on
    the message; the facts below keep that dependence to the one case in
    which the tag is written. *)

Section ParserChoice.

Variable parse_fragment parse_fragment' : string -> list node.
Variable blockPageTranslations : gmap string translation.
Variable errorPageTranslations : gmap string translation.
Variable challengePageTranslations : gmap string translation.

Local Abbreviation page_title :=
  (page_title blockPageTranslations errorPageTranslations
              challengePageTranslations).
Local Abbreviation page_description :=
  (page_description blockPageTranslations errorPageTranslations
                    challengePageTranslations).

(** The transform calls the fragment parser on at most three texts, and on
    the description tag only when the document, after the title edit, has
    no description meta. *)
Lemma transform_parser_ext filePath package buildDate doc :
  parse_fragment keywords_src = parse_fragment' keywords_src ->
  parse_fragment (cloudflare_src buildDate (manifest_version package))
  = parse_fragment' (cloudflare_src buildDate (manifest_version package)) ->
  (described (set_title (normalizePreloads doc) (page_title filePath)) = false ->
   parse_fragment (meta_src "description" (page_description filePath))
   = parse_fragment' (meta_src "description" (page_description filePath))) ->
  transform parse_fragment blockPageTranslations errorPageTranslations
            challengePageTranslations filePath package buildDate doc
  = transform parse_fragment' blockPageTranslations errorPageTranslations
              challengePageTranslations filePath package buildDate doc.
Proof.
  intros Hkw Hcf Hd.
  assert (Hupdate :
    updateTDK parse_fragment blockPageTranslations errorPageTranslations
              challengePageTranslations (normalizePreloads doc) filePath
    = updateTDK parse_fragment' blockPageTranslations errorPageTranslations
                challengePageTranslations (normalizePreloads doc) filePath).
  { unfold updateTDK, page_title, page_description in *.
    destruct (category_and_type filePath) as [[directory type]|];
      [|reflexivity].
    destruct (page_texts _ _ _ directory type) as [pageTitle pageDescription].
    cbn [fst snd] in Hd. unfold inject.
    assert (Hset :
      set_description parse_fragment
        (set_title (normalizePreloads doc) pageTitle) pageDescription
      = set_description parse_fragment'
          (set_title (normalizePreloads doc) pageTitle) pageDescription).
    { unfold set_description. destruct (truthy pageDescription); [|reflexivity].
      unfold described in Hd.
      destruct (0 <? length _)%nat; [reflexivity|]. now rewrite Hd. }
    rewrite Hset. unfold ensure_keywords. now rewrite Hkw. }
  unfold transform. rewrite Hupdate. unfold addCloudflareMetaTags.
  now rewrite Hcf.
Qed.

End ParserChoice.

(** The title edit and the preload edit leave the description metas of a
    loaded document where they are. *)
Lemma described_edited k pageTitle :
  loaded k = true ->
  described (set_title (normalizePreloads (assemble k)) pageTitle)
  = described (assemble k).
Proof.
  intros Hl. pose proof Hl as (Hk & Hlh & Hlb)%loaded_iff.
  pose proof Hk as [Hbefore Hprehead Hbetween Hpostbody Hafter Hhh Hhb Hbh Hbb]
    %parsed_facts_iff.
  pose proof Hlh as (Hth & Hmh & Hlkh & _)%leaves_hold_text_iff.
  pose proof Hlb as (Htb & Hmb & Hlkb & _)%leaves_hold_text_iff.
  assert (Hk1 : parsed (with_head_body k (normalizePreloads (sk_head k))
                                       (normalizePreloads (sk_body k))) = true)
    by (apply parsed_with_head_body; auto using lacks_normalizePreloads).
  rewrite normalizePreloads_assemble, set_title_assemble by assumption.
  rewrite sk_head_with, sk_body_with, with_head_body_twice.
  unfold described. f_equal. f_equal.
  apply select_with_head_body; auto using meta_named_rejects.
  - apply parsed_with_head_body;
      auto using lacks_set_title, lacks_normalizePreloads.
  - rewrite (select_set_title_apart _ "meta");
      auto using holds_text_normalize, within_meta_named; try discriminate.
    apply (select_normalize_apart _ "meta");
      auto using within_meta_named; discriminate.
  - rewrite (select_set_title_apart _ "meta");
      auto using holds_text_normalize, within_meta_named; try discriminate.
    apply (select_normalize_apart _ "meta");
      auto using within_meta_named; discriminate.
Qed.

(** C1 (amended).  Take a loaded document and a path whose first segment
    [cf] is followed by a category and a type that is a key of the table
    of that category, with a non-empty translated title and message; let
    the library parse the keywords tag and the platform tags into the
    elements they denote.  When the document has description metas, the
    content of each of them is overwritten with the translated message,
    whatever the message is.  When it has none, the script writes the
    message unescaped into the source text of a tag: if the library reads
    that text back as the tag with the message as its content, one
    description meta with that content is appended to the head, where only
    the keywords tag can follow it; nothing is said of a message that is
    not read back so.  In both cases every title element of the document,
    and so the document title when there is one, has the text
    "<translated title> - Cloudflare" after the transform, and no title is
    created. *)
Theorem transform_translated
        (parse_fragment : string -> list node)
        (blockPageTranslations errorPageTranslations
           challengePageTranslations : gmap string translation)
        k filePath pre directory type post e package buildDate :
  loaded k = true ->
  parses_keywords parse_fragment ->
  (includes filePath out_cf = true ->
   parses_cloudflare parse_fragment buildDate (manifest_version package)) ->
  (meta_attribs "description" (assemble k) = [] ->
   parses_description parse_fragment (message e)) ->
  split sep filePath = pre ++ "cf" :: directory :: type :: post ->
  no_marker pre ->
  translation_entry blockPageTranslations errorPageTranslations
                    challengePageTranslations directory type = Some e ->
  title e <> "" -> message e <> "" ->
  let out :=
    transform parse_fragment blockPageTranslations errorPageTranslations
              challengePageTranslations filePath package buildDate
              (assemble k) in
  title_texts out
  = map (fun _ => title e +:+ " - Cloudflare") (title_texts (assemble k))
  /\ (title_texts (assemble k) <> [] ->
      document_title out = Some (title e +:+ " - Cloudflare"))
  /\ (meta_attribs "description" (assemble k) <> [] ->
      meta_attribs "description" out
      = map (fun a => <["content" := message e]> a)
            (meta_attribs "description" (assemble k)))
  /\ (meta_attribs "description" (assemble k) = [] ->
      meta_attribs "description" out
      = [ {[ "name" := "description"; "content" := message e ]} ]
      /\ exists front rest bd,
          out = assemble (with_head_body k
                            (front ++ meta_node "description" (message e)
                                   :: rest) bd)
          /\ (rest = [] \/ rest = [meta_node "keywords" keywords_content]))
  /\ Forall (fun c => c = Some (message e)) (meta_contents "description" out)
  /\ meta_contents "description" out <> [].
Proof.
  intros Hl Hkw Hcf Hnew Hs Hpre He Ht Hm.
  pose proof (category_and_type_found _ _ _ _ _ Hs Hpre) as Hcat.
  assert (HM : page_description blockPageTranslations errorPageTranslations
                 challengePageTranslations filePath = message e).
  { rewrite (page_description_found _ _ _ _ _ _ Hcat).
    now rewrite page_texts_entry, He. }
  set (patched := fun text =>
         if String.eqb text (meta_src "description" (message e))
         then [meta_node "description" (message e)]
         else parse_fragment text).
  assert (Hkw' : patched keywords_src = parse_fragment keywords_src)
    by reflexivity.
  assert (Hcf' : forall date version,
             patched (cloudflare_src date version)
             = parse_fragment (cloudflare_src date version)) by reflexivity.
  assert (Hparse : tags_parse patched blockPageTranslations
                     errorPageTranslations challengePageTranslations
                     filePath package buildDate).
  { split; [|split].
    - unfold parses_description. rewrite HM. unfold patched.
      now rewrite String.eqb_refl.
    - unfold parses_keywords. now rewrite Hkw'.
    - intros Hin. unfold parses_cloudflare. rewrite Hcf'. now apply Hcf. }
  assert (Hsame :
    transform parse_fragment blockPageTranslations errorPageTranslations
              challengePageTranslations filePath package buildDate
              (assemble k)
    = transform patched blockPageTranslations errorPageTranslations
                challengePageTranslations filePath package buildDate
                (assemble k)).
  { apply transform_parser_ext; [now rewrite Hkw'|now rewrite Hcf'|].
    rewrite (described_edited k _ Hl), HM. intros Hd.
    apply described_false in Hd. rewrite (Hnew Hd). unfold patched.
    now rewrite String.eqb_refl. }
  intros out. subst out. rewrite Hsame.
  exact (transform_translated_parsed
           patched blockPageTranslations errorPageTranslations
           challengePageTranslations k filePath pre directory type post e
           package buildDate Hl Hparse Hs Hpre He Ht Hm).
Qed.

(** ** Idempotence *)

(** C8.  The preload edit is idempotent on every document, and the script
    relocation is idempotent on every parsed document: a second pass
    changes nothing. *)
Theorem edits_are_idempotent k doc :
  parsed k = true ->
  normalizePreloads (normalizePreloads doc) = normalizePreloads doc
  /\ moveScriptsToBodyBottom (moveScriptsToBodyBottom (assemble k))
     = moveScriptsToBodyBottom (assemble k).
Proof.
  intros Hk. split; [apply normalizePreloads_twice|].
  pose proof Hk as [Hbefore Hprehead Hbetween Hpostbody Hafter Hhh Hhb Hbh Hbb] %parsed_facts_iff.
  rewrite (moveScripts_assemble k Hk).
  rewrite moveScripts_assemble.
  - rewrite sk_head_with, sk_body_with, with_head_body_twice.
    rewrite removed_all_have_no_head_script, app_nil_r.
    rewrite (flat_map_singleton_Forall (remove_head_scripts true)
               (flat_map (remove_head_scripts true) (sk_head k)));
      [reflexivity|].
    apply Forall_forall. intros n Hn. apply remove_head_scripts_none.
    pose proof (removed_all_have_no_head_script (sk_head k)) as Hnone.
    apply flat_map_nil_inv in Hnone. rewrite Forall_forall in Hnone. auto.
  - apply parsed_with_head_body; auto.
    + now apply remove_all_keeps_lacks.
    + now apply remove_all_keeps_lacks.
    + rewrite lacks_app, Hbh. now apply collect_all_keeps_lacks.
    + rewrite lacks_app, Hbb. now apply collect_all_keeps_lacks.
Qed.

(** ** The run *)

Section RunFacts.

Variable parse_fragment : string -> list node.
Variable blockPageTranslations : gmap string translation.
Variable errorPageTranslations : gmap string translation.
Variable challengePageTranslations : gmap string translation.
Variable load : string -> option (list node).
Variable serialize : list node -> string.
Variable packagePath : string.
Variable parse_package : string -> manifest.
Variable buildDate : string -> string.

Local Abbreviation read_package := (read_package packagePath parse_package).
Local Abbreviation outcome :=
  (outcome parse_fragment blockPageTranslations errorPageTranslations
           challengePageTranslations load serialize packagePath parse_package
           buildDate).
Local Abbreviation report :=
  (report parse_fragment blockPageTranslations errorPageTranslations
          challengePageTranslations load serialize packagePath parse_package
          buildDate).
Local Abbreviation processHtmlFile :=
  (processHtmlFile parse_fragment blockPageTranslations errorPageTranslations
                   challengePageTranslations load serialize packagePath
                   parse_package buildDate).
Local Abbreviation main :=
  (main parse_fragment blockPageTranslations errorPageTranslations
        challengePageTranslations load serialize packagePath parse_package
        buildDate).
Local Abbreviation process_all :=
  (process_all parse_fragment blockPageTranslations errorPageTranslations
               challengePageTranslations load serialize packagePath
               parse_package buildDate).

Lemma filter_report_log l w :
  filter is_report (console (log l w))
  = filter is_report (console w) ++ (if is_report l then [l] else []).
Proof.
  unfold log. cbn [console]. now rewrite filter_app.
Qed.

Lemma read_package_ext w1 w2 :
  fs w1 !! packagePath = fs w2 !! packagePath ->
  read_package w1 = read_package w2.
Proof.
  intros H. unfold read_package, readFileSync. now rewrite H.
Qed.

(** The outcome for a file depends on that file and on the manifest only. *)
Lemma outcome_ext w1 w2 filePath :
  fs w1 !! filePath = fs w2 !! filePath ->
  fs w1 !! packagePath = fs w2 !! packagePath ->
  outcome w1 filePath = outcome w2 filePath.
Proof.
  intros Hf Hp. unfold outcome.
  now rewrite Hf, (read_package_ext w1 w2 Hp).
Qed.

(** One call of [processHtmlFile]: one report line, no other file
    touched, and the file itself rewritten or left alone. *)
Lemma processHtmlFile_effect filePath w :
  filter is_report (console (processHtmlFile filePath w))
  = filter is_report (console w) ++ [report w filePath]
  /\ (forall other, other <> filePath ->
        fs (processHtmlFile filePath w) !! other = fs w !! other)
  /\ match outcome w filePath with
     | Some text =>
         content <$> fs (processHtmlFile filePath w) !! filePath = Some text
     | None => fs (processHtmlFile filePath w) !! filePath = fs w !! filePath
     end.
Proof.
  unfold processHtmlFile, report, outcome,
    readFileSync, writeFileSync.
  destruct (fs w !! filePath) as [f|] eqn:Ef.
  2:{ rewrite filter_report_log. simpl. now rewrite Ef. }
  destruct (readable f) eqn:Er.
  2:{ rewrite filter_report_log. simpl. now rewrite Ef. }
  destruct (load (content f)) as [doc|] eqn:El.
  2:{ rewrite filter_report_log. simpl. now rewrite Ef. }
  set (w1 := if includes filePath out_cf && warns (read_package w)
             then log WarnPackage w else w).
  assert (Hfs : fs w1 = fs w) by (unfold w1; now destruct (_ && _)).
  assert (Hcon : filter is_report (console w1) = filter is_report (console w)).
  { unfold w1. destruct (_ && _); [|reflexivity].
    rewrite filter_report_log. apply app_nil_r. }
  rewrite Hfs, Ef.
  destruct (writable f) eqn:Ew.
  - rewrite filter_report_log. simpl. rewrite Hcon. split; [reflexivity|].
    split.
    + intros other Hne. now rewrite lookup_insert_ne.
    + now rewrite lookup_insert_eq.
  - rewrite filter_report_log. simpl. rewrite Hcon, Hfs, Ef. auto.
Qed.

Lemma process_all_cons filePath htmlFiles w :
  process_all (filePath :: htmlFiles) w
  = process_all htmlFiles (processHtmlFile filePath w).
Proof. reflexivity. Qed.

Lemma process_all_effect htmlFiles : forall w,
  NoDup htmlFiles -> ~ In packagePath htmlFiles ->
  filter is_report (console (process_all htmlFiles w))
  = filter is_report (console w) ++ map (report w) htmlFiles
  /\ (forall filePath,
        In filePath htmlFiles ->
        match outcome w filePath with
        | Some text =>
            content <$> fs (process_all htmlFiles w) !! filePath = Some text
        | None => fs (process_all htmlFiles w) !! filePath = fs w !! filePath
        end)
  /\ (forall other,
        ~ In other htmlFiles ->
        fs (process_all htmlFiles w) !! other = fs w !! other).
Proof.
  induction htmlFiles as [|p l IH]; intros w Hdup Hpkg.
  - simpl. rewrite app_nil_r. repeat split; auto. intros ? [].
  - rewrite process_all_cons.
    apply NoDup_cons_iff in Hdup as [Hp Hdup].
    assert (Hpkg' : ~ In packagePath l) by (intros H; apply Hpkg; now right).
    assert (Hpp : packagePath <> p) by (intros ->; apply Hpkg; now left).
    destruct (processHtmlFile_effect p w) as (Hlog & Hother & Hself).
    destruct (IH (processHtmlFile p w) Hdup Hpkg') as (IHlog & IHin & IHout).
    assert (Hsame : forall q, In q l ->
                      outcome (processHtmlFile p w) q = outcome w q).
    { intros q Hq. apply outcome_ext.
      - apply Hother. intros ->. contradiction.
      - now apply Hother. }
    repeat split.
    + rewrite IHlog, Hlog, <- app_assoc. f_equal. simpl. f_equal.
      apply map_ext_in. intros q Hq. unfold report.
      now rewrite Hsame.
    + intros q [<-|Hq].
      * rewrite (IHout p Hp). exact Hself.
      * specialize (IHin q Hq). rewrite (Hsame q Hq) in IHin.
        destruct (outcome w q); [exact IHin|].
        rewrite IHin. apply Hother. intros ->. contradiction.
    + intros other Hn. rewrite IHout by (intros H; apply Hn; now right).
      apply Hother. intros ->. apply Hn. now left.
Qed.

(** C7.  In a run of [main] over distinct files, none of them the
    manifest: every file is reported exactly once and in order, as
    processed or as failed with its path, and the run ends with its final
    message, so that a failure never ends the run; every file ends with
    what processing it alone in the initial world would have written, or
    untouched when that fails, whatever happened to the other files; and
    no other file is touched. *)
Theorem one_failure_does_not_stop_the_run htmlFiles w :
  NoDup htmlFiles -> ~ In packagePath htmlFiles ->
  filter is_report (console (main (Some htmlFiles) w))
  = filter is_report (console w) ++ map (report w) htmlFiles
  /\ console (main (Some htmlFiles) w)
     = console (process_all htmlFiles w) ++ [AllProcessed]
  /\ (forall filePath,
        In filePath htmlFiles ->
        match outcome w filePath with
        | Some text =>
            content <$> fs (main (Some htmlFiles) w) !! filePath = Some text
        | None => fs (main (Some htmlFiles) w) !! filePath = fs w !! filePath
        end)
  /\ (forall other,
        ~ In other htmlFiles ->
        fs (main (Some htmlFiles) w) !! other = fs w !! other).
Proof.
  intros Hdup Hpkg.
  destruct (process_all_effect htmlFiles w Hdup Hpkg) as (Hlog & Hin & Hout).
  unfold main. cbn [fs log console].
  split; [|split; [|split]].
  - rewrite filter_app. cbn [filter is_report]. now rewrite app_nil_r.
  - reflexivity.
  - exact Hin.
  - exact Hout.
Qed.

End RunFacts.

(** ** The trigger of the platform meta tags *)

Lemma join_split c s : join c (split c s) = s.
Proof.
  induction s as [|a s IH]; [reflexivity|]. cbn [split].
  destruct (Ascii.eqb_spec a c) as [->|Hne].
  - destruct (split c s) as [|p l] eqn:E; [now apply split_nonempty in E|].
    cbn [join] in *. now rewrite IH.
  - destruct (split c s) as [|p [|q l]] eqn:E.
    + now apply split_nonempty in E.
    + cbn [join] in *. now rewrite IH.
    + cbn [join] in *. rewrite <- IH. reflexivity.
Qed.

Lemma prefix_app s1 s2 : String.prefix s1 (s1 +:+ s2) = true.
Proof.
  induction s1 as [|a s1 IH]; [now destruct s2|].
  change (String a s1 +:+ s2) with (String a (s1 +:+ s2)).
  simpl. destruct (ascii_dec a a); [exact IH|congruence].
Qed.

Lemma includes_prefix s sub : String.prefix sub s = true -> includes s sub = true.
Proof. intros H. destruct s; cbn [includes]; now rewrite H. Qed.

Lemma includes_app_l s1 s2 sub :
  includes s2 sub = true -> includes (s1 +:+ s2) sub = true.
Proof.
  intros H. induction s1 as [|a s1 IH]; [exact H|].
  change (String a s1 +:+ s2) with (String a (s1 +:+ s2)).
  cbn [includes]. rewrite IH. apply orb_true_r.
Qed.

Lemma includes_join c a b post :
  includes (join c (a :: b :: post)) (a +:+ String c b) = true.
Proof.
  apply includes_prefix.
  change (join c (a :: b :: post)) with (a +:+ String c (join c (b :: post))).
  destruct post as [|q post].
  - cbn [join]. rewrite <- (string_app_nil_r (a +:+ String c b)) at 2.
    apply prefix_app.
  - change (join c (b :: q :: post)) with (b +:+ String c (join c (q :: post))).
    replace (a +:+ String c (b +:+ String c (join c (q :: post))))
      with ((a +:+ String c b) +:+ String c (join c (q :: post))).
    + apply prefix_app.
    + rewrite string_app_assoc. reflexivity.
Qed.

Lemma includes_join_adjacent c a b parts :
  adjacent a b parts = true ->
  includes (join c parts) (a +:+ String c b) = true.
Proof.
  induction parts as [|x [|y rest] IH]; try discriminate.
  cbn [adjacent]. intros [H|H]%orb_true_iff.
  - apply andb_true_iff in H as [-> %String.eqb_eq -> %String.eqb_eq].
    apply includes_join.
  - change (join c (x :: y :: rest)) with (x +:+ String c (join c (y :: rest))).
    apply includes_app_l. cbn [includes]. rewrite (IH H). apply orb_true_r.
Qed.

(** A path with the segment [out] followed by the segment [cf] contains
    the text [out/cf]: such a file always receives the platform tags. *)
Lemma segments_imply_substring filePath :
  adjacent "out" "cf" (split sep filePath) = true ->
  includes filePath out_cf = true.
Proof.
  intros H. rewrite <- (join_split sep filePath) at 1.
  now apply includes_join_adjacent.
Qed.

(** C4.  The trigger is a test on the text of the path, not on its
    segments.  For a loaded document: when the path contains the text
    [out/cf] the five platform tags are the first children of the head
    after the transform, in the order client-ip, ray-id, location-code,
    build-date, version, the version being that of the manifest, or
    "unknown" when the manifest gives none; when the path does not
    contain that text the metas of these five names are those of the
    input.  A path with the segment [out] followed by the segment [cf]
    contains that text.  The converse fails: [out/cf.html] has no segment
    [cf] and contains the text, so that a file of that name, which does
    not lie in the directory [out/cf], receives the tags. *)
Theorem cloudflare_tags_outside_out_cf
        (parse_fragment : string -> list node)
        (blockPageTranslations errorPageTranslations
           challengePageTranslations : gmap string translation)
        k filePath package buildDate :
  loaded k = true ->
  tags_parse parse_fragment blockPageTranslations errorPageTranslations
             challengePageTranslations filePath package buildDate ->
  let out :=
    transform parse_fragment blockPageTranslations errorPageTranslations
              challengePageTranslations filePath package buildDate
              (assemble k) in
  (includes filePath out_cf = true ->
   exists rest bd,
     out = assemble (with_head_body k
                       (cloudflare_nodes buildDate (manifest_version package)
                        ++ rest) bd))
  /\ (includes filePath out_cf = false ->
      forall v,
        In v ["client-ip"; "ray-id"; "location-code"; "build-date"; "version"] ->
        meta_attribs v out = meta_attribs v (assemble k))
  /\ (forall v, v <> "" -> manifest_version (ManifestVersion v) = v)
  /\ ((forall v, package <> ManifestVersion v) ->
      manifest_version package = "unknown")
  /\ (adjacent "out" "cf" (split sep filePath) = true ->
      includes filePath out_cf = true)
  /\ adjacent "out" "cf" (split sep "out/cf.html") = false
  /\ includes "out/cf.html" out_cf = true
  /\ exists rest,
       transform Reference.parse_fragment Sample.blockPageTranslations
                 Sample.errorPageTranslations Sample.challengePageTranslations
                 "out/cf.html" Sample.package Sample.buildDate
                 (assemble Sample.bare)
       = assemble (with_head_body Sample.bare
                     (cloudflare_nodes Sample.buildDate "1.0.0" ++ rest)
                     (sk_body Sample.bare)).
Proof.
  intros Hl Hp out. subst out.
  split; [now apply platform_tags_prepended|].
  split.
  { intros Hin v Hv. apply platform_tags_absent; auto;
      intros ->; simpl in Hv; intuition discriminate. }
  split; [intros v; apply manifest_version_field|].
  split; [apply manifest_version_fallback|].
  split; [apply segments_imply_substring|].
  split; [reflexivity|]. split; [reflexivity|].
  eexists. vm_compute. reflexivity.
Qed.

(** ** The statements at the sample data *)

Local Abbreviation sample_updateTDK :=
  (updateTDK Reference.parse_fragment Sample.blockPageTranslations
             Sample.errorPageTranslations Sample.challengePageTranslations).

Local Abbreviation sample_transform :=
  (transform Reference.parse_fragment Sample.blockPageTranslations
             Sample.errorPageTranslations Sample.challengePageTranslations).

Local Abbreviation sample_tags_parse :=
  (tags_parse Reference.parse_fragment Sample.blockPageTranslations
              Sample.errorPageTranslations Sample.challengePageTranslations).

Local Abbreviation sample_entry :=
  (translation_entry Sample.blockPageTranslations Sample.errorPageTranslations
                     Sample.challengePageTranslations).

(** The reference parser parses the tags the script writes for the sample
    paths. *)
Lemma tags_parse_blocked :
  sample_tags_parse Sample.blockedPath Sample.package Sample.buildDate.
Proof. repeat split; intros; vm_compute; reflexivity. Qed.

Lemma tags_parse_unknown :
  sample_tags_parse Sample.unknownPath Sample.package Sample.buildDate.
Proof. repeat split; intros; vm_compute; reflexivity. Qed.

Lemma tags_parse_index :
  sample_tags_parse Sample.indexPath Sample.package Sample.buildDate.
Proof. repeat split; intros; vm_compute; reflexivity. Qed.

(** C1, as stated, fails: a loaded page without title element under
    [out/cf/block/ip] has no document title after the transform, although
    [ip] is a key of the block table. *)
Lemma document_title_counterexample :
  ~ (forall k filePath pre directory type post e package buildDate,
        loaded k = true ->
        sample_tags_parse filePath package buildDate ->
        split sep filePath = pre ++ "cf" :: directory :: type :: post ->
        no_marker pre ->
        sample_entry directory type = Some e ->
        document_title (sample_transform filePath package buildDate (assemble k))
        = Some (title e +:+ " - Cloudflare")
        /\ Forall (fun c => c = Some (message e))
                  (meta_contents "description"
                     (sample_transform filePath package buildDate
                                       (assemble k)))).
Proof.
  intros H.
  destruct (H Sample.bare Sample.blockedPath ["out"] "block" "ip"
              ["index.html"]
              {| title := "IP Blocked";
                 message := "Your IP address has been blocked" |}
              Sample.package Sample.buildDate
              eq_refl tags_parse_blocked eq_refl
              ltac:(repeat constructor) eq_refl) as [Htitle _].
  vm_compute in Htitle. discriminate Htitle.
Qed.

Lemma transform_translated_witness :
  loaded Sample.page = true
  /\ split sep Sample.blockedPath = ["out"] ++ "cf" :: "block" :: "ip" :: ["index.html"]
  /\ title_texts (assemble Sample.page) = ["Blocked"]
  /\ title_texts
       (sample_transform Sample.blockedPath Sample.package Sample.buildDate
                         (assemble Sample.page))
     = ["IP Blocked - Cloudflare"]
  /\ meta_attribs "description"
       (sample_transform Sample.blockedPath Sample.package Sample.buildDate
                         (assemble Sample.page))
     = [ {[ "name" := "description";
            "content" := "Your IP address has been blocked" ]} ].
Proof.
  split; [reflexivity|]. split; [reflexivity|]. split; [reflexivity|].
  pose proof (transform_translated
                Reference.parse_fragment Sample.blockPageTranslations
                Sample.errorPageTranslations Sample.challengePageTranslations
                Sample.page Sample.blockedPath ["out"] "block" "ip"
                ["index.html"]
                {| title := "IP Blocked";
                   message := "Your IP address has been blocked" |}
                Sample.package Sample.buildDate
                eq_refl eq_refl (fun _ => eq_refl) (fun _ => eq_refl) eq_refl
                ltac:(repeat constructor) eq_refl
                ltac:(discriminate) ltac:(discriminate)) as H.
  cbv zeta in H. destruct H as (Htitle & _ & _ & Hnew & _).
  split; [exact Htitle|]. exact (proj1 (Hnew eq_refl)).
Defined.

Lemma moveScriptsToBodyBottom_relocates_witness :
  loaded Sample.page = true
  /\ select (by_tag "script") (sk_head Sample.page)
     = [ Elem "script" {[ "src" := "/main.js" ]} [];
         Elem "script" ∅ [Text "self.x=1"] ]
  /\ exists hd bd,
       sample_transform Sample.blockedPath Sample.package Sample.buildDate
                        (assemble Sample.page)
       = assemble (with_head_body Sample.page hd
                     (bd ++ select (by_tag "script") (sk_head Sample.page)))
       /\ select (by_tag "script") hd = []
       /\ select (by_tag "script") bd
          = select (by_tag "script") (sk_body Sample.page).
Proof.
  split; [reflexivity|]. split; [reflexivity|].
  exact (proj1 (moveScriptsToBodyBottom_relocates
                  Reference.parse_fragment Sample.blockPageTranslations
                  Sample.errorPageTranslations Sample.challengePageTranslations
                  Sample.page Sample.blockedPath Sample.package
                  Sample.buildDate eq_refl tags_parse_blocked)).
Defined.

Lemma normalizePreloads_rule_witness :
  loaded Sample.page = true
  /\ link_elements (assemble Sample.page)
     = [ ("link", {[ "rel" := "preload"; "as" := "style"; "href" := "/a.css" ]});
         ("link", {[ "rel" := "preload"; "as" := "font";
                     "href" := "/f.woff2" ]});
         ("link", {[ "rel" := "preload"; "as" := "image";
                     "href" := "/i.png" ]}) ]
  /\ link_elements
       (sample_transform Sample.blockedPath Sample.package Sample.buildDate
                         (assemble Sample.page))
     = omap preload_rule (link_elements (assemble Sample.page)).
Proof.
  split; [reflexivity|]. split; [reflexivity|].
  exact (proj1 (normalizePreloads_rule
                  Reference.parse_fragment Sample.blockPageTranslations
                  Sample.errorPageTranslations Sample.challengePageTranslations
                  Sample.page Sample.blockedPath Sample.package
                  Sample.buildDate eq_refl tags_parse_blocked)).
Defined.

(** C5, as stated, fails: a loaded page outside the marker directory gets
    no keywords meta. *)
Lemma keywords_counterexample :
  ~ (forall k filePath package buildDate,
        loaded k = true ->
        sample_tags_parse filePath package buildDate ->
        meta_attribs "keywords" (assemble k) = [] ->
        meta_contents "keywords"
          (sample_transform filePath package buildDate (assemble k))
        = [Some keywords_content]).
Proof.
  intros H.
  specialize (H Sample.bare Sample.indexPath Sample.package Sample.buildDate
                eq_refl tags_parse_index eq_refl).
  vm_compute in H. discriminate H.
Qed.

Lemma transform_keywords_witness :
  loaded Sample.page = true /\ loaded Sample.tagged = true
  /\ meta_attribs "keywords" (assemble Sample.page) = []
  /\ meta_attribs "keywords"
       (sample_transform Sample.unknownPath Sample.package Sample.buildDate
                         (assemble Sample.page))
     = [ {[ "name" := "keywords"; "content" := keywords_content ]} ]
  /\ meta_attribs "keywords"
       (sample_transform Sample.unknownPath Sample.package Sample.buildDate
                         (assemble Sample.tagged))
     = [ {[ "name" := "keywords"; "content" := "edge" ]} ].
Proof.
  split; [reflexivity|]. split; [reflexivity|]. split; [reflexivity|].
  assert (Hpath : exists pre directory type post,
             split sep Sample.unknownPath
             = pre ++ "cf" :: directory :: type :: post /\ no_marker pre).
  { exists ["out"], "block", "teapot", ["index.html"].
    split; [reflexivity|]. repeat constructor. }
  split.
  - pose proof (transform_keywords
                  Reference.parse_fragment Sample.blockPageTranslations
                  Sample.errorPageTranslations Sample.challengePageTranslations
                  Sample.page Sample.unknownPath Sample.package
                  Sample.buildDate eq_refl tags_parse_unknown) as H.
    cbv zeta in H. destruct H as (Hmarked & _).
    now apply Hmarked.
  - pose proof (transform_keywords
                  Reference.parse_fragment Sample.blockPageTranslations
                  Sample.errorPageTranslations Sample.challengePageTranslations
                  Sample.tagged Sample.unknownPath Sample.package
                  Sample.buildDate eq_refl tags_parse_unknown) as H.
    cbv zeta in H. destruct H as (Hmarked & _).
    destruct (Hmarked Hpath) as (_ & Hkept). rewrite Hkept; [reflexivity|].
    discriminate.
Defined.

Lemma transform_without_translation_witness :
  loaded Sample.page = true
  /\ sample_entry "block" "teapot" = None
  /\ title_texts
       (sample_transform Sample.unknownPath Sample.package Sample.buildDate
                         (assemble Sample.page))
     = title_texts (assemble Sample.page)
  /\ meta_attribs "description"
       (sample_transform Sample.unknownPath Sample.package Sample.buildDate
                         (assemble Sample.page))
     = meta_attribs "description" (assemble Sample.page).
Proof.
  split; [reflexivity|]. split; [reflexivity|].
  pose proof (transform_without_translation
                Reference.parse_fragment Sample.blockPageTranslations
                Sample.errorPageTranslations Sample.challengePageTranslations
                Sample.page Sample.unknownPath Sample.package Sample.buildDate
                eq_refl tags_parse_unknown) as H.
  cbv zeta in H. destruct H as (_ & Hunknown).
  apply Hunknown.
  exists ["out"], "block", "teapot", ["index.html"].
  split; [reflexivity|]. split; [|reflexivity].
  repeat constructor.
Defined.

Lemma cloudflare_tags_outside_out_cf_witness :
  loaded Sample.page = true
  /\ includes Sample.blockedPath out_cf = true
  /\ exists rest bd,
       sample_transform Sample.blockedPath Sample.package Sample.buildDate
                        (assemble Sample.page)
       = assemble (with_head_body Sample.page
                     (cloudflare_nodes Sample.buildDate
                                       (manifest_version Sample.package)
                      ++ rest) bd).
Proof.
  split; [reflexivity|]. split; [reflexivity|].
  pose proof (cloudflare_tags_outside_out_cf
                Reference.parse_fragment Sample.blockPageTranslations
                Sample.errorPageTranslations Sample.challengePageTranslations
                Sample.page Sample.blockedPath Sample.package Sample.buildDate
                eq_refl tags_parse_blocked) as H.
  cbv zeta in H. destruct H as (Hin & _).
  now apply Hin.
Defined.

Lemma one_failure_does_not_stop_the_run_witness :
  NoDup [Sample.blockedPath; Sample.brokenPath; Sample.indexPath]
  /\ ~ In Sample.packagePath
          [Sample.blockedPath; Sample.brokenPath; Sample.indexPath]
  /\ filter is_report
       (console
          (main Reference.parse_fragment Sample.blockPageTranslations
             Sample.errorPageTranslations Sample.challengePageTranslations
             Sample.load Reference.serialize Sample.packagePath
             Sample.parse_package (fun _ => Sample.buildDate)
             (Some [Sample.blockedPath; Sample.brokenPath; Sample.indexPath])
             Sample.disk))
     = [ Processed Sample.blockedPath; ErrorProcessing Sample.brokenPath;
         Processed Sample.indexPath ].
Proof.
  assert (Hdup : NoDup [Sample.blockedPath; Sample.brokenPath; Sample.indexPath]).
  { repeat constructor; simpl; intuition discriminate. }
  assert (Hpkg : ~ In Sample.packagePath
                     [Sample.blockedPath; Sample.brokenPath; Sample.indexPath]).
  { simpl. intuition discriminate. }
  split; [exact Hdup|]. split; [exact Hpkg|].
  destruct (one_failure_does_not_stop_the_run
              Reference.parse_fragment Sample.blockPageTranslations
              Sample.errorPageTranslations Sample.challengePageTranslations
              Sample.load Reference.serialize Sample.packagePath
              Sample.parse_package (fun _ => Sample.buildDate)
              [Sample.blockedPath; Sample.brokenPath; Sample.indexPath]
              Sample.disk Hdup Hpkg) as (Hlog & _).
  rewrite Hlog. vm_compute. reflexivity.
Defined.

Lemma edits_are_idempotent_witness :
  parsed Sample.page = true
  /\ normalizePreloads (normalizePreloads (assemble Sample.page))
     = normalizePreloads (assemble Sample.page)
  /\ moveScriptsToBodyBottom (moveScriptsToBodyBottom (assemble Sample.page))
     = moveScriptsToBodyBottom (assemble Sample.page).
Proof.
  split; [reflexivity|].
  exact (edits_are_idempotent Sample.page (assemble Sample.page) eq_refl).
Defined.

Lemma type_key_is_raw_segment_witness :
  Forall (fun part => free_of sep part = true) ["out"]
  /\ no_marker ["out"]
  /\ free_of sep "block" = true /\ free_of sep "ip" = true
  /\ category_and_type Sample.flatPath = Some ("block", "ip.html")
  /\ sample_entry "block" "ip.html" = None.
Proof.
  assert (Hfree : Forall (fun part => free_of sep part = true) ["out"])
    by (repeat constructor).
  assert (Hno : no_marker ["out"]) by (repeat constructor).
  split; [exact Hfree|]. split; [exact Hno|].
  split; [reflexivity|]. split; [reflexivity|].
  destruct (type_key_is_raw_segment
              Reference.parse_fragment Sample.blockPageTranslations
              Sample.errorPageTranslations Sample.challengePageTranslations
              ["out"] "block" "ip" Hfree Hno eq_refl eq_refl)
    as (Hkey & Hflat & _).
  split; [exact Hkey|]. apply Hflat.
  intros key e H.
  change (Sample.blockPageTranslations !! key = Some e) in H.
  unfold Sample.blockPageTranslations in H.
  apply lookup_singleton_Some in H as [<- _]. reflexivity.
Defined.

Lemma no_title_is_created_witness :
  select (by_tag "title") (assemble Sample.bare) = []
  /\ select (by_tag "title")
            (sample_updateTDK (assemble Sample.bare) Sample.blockedPath) = []
  /\ select (by_tag "title")
            (sample_transform Sample.blockedPath Sample.package
                              Sample.buildDate (assemble Sample.bare)) = [].
Proof.
  split; [reflexivity|].
  apply (no_title_is_created
           Reference.parse_fragment Sample.blockPageTranslations
           Sample.errorPageTranslations Sample.challengePageTranslations
           (assemble Sample.bare) Sample.blockedPath Sample.package
           Sample.buildDate tags_parse_blocked).
  reflexivity.
Defined.

(** * Further facts *)

(** ** Paths of [node:path] *)

Lemma proper_facts name :
  proper name = true ->
  free_of sep name = true /\ name <> "" /\ name <> "." /\ name <> "..".
Proof.
  unfold proper. rewrite !andb_true_iff, !negb_true_iff.
  intros [[[? ?%String.eqb_neq] ?%String.eqb_neq] ?%String.eqb_neq]. auto.
Qed.

Lemma join_snoc c l x :
  l <> [] -> join c (l ++ [x]) = join c l +:+ String c x.
Proof.
  induction l as [|a [|b l] IH]; [congruence|reflexivity|]. intros _.
  change (join c ((a :: b :: l) ++ [x]))
    with (a +:+ String c (join c ((b :: l) ++ [x]))).
  rewrite IH by discriminate.
  change (join c (a :: b :: l)) with (a +:+ String c (join c (b :: l))).
  rewrite string_app_assoc. reflexivity.
Qed.

Lemma string_app_eq_nil s1 s2 : s1 +:+ s2 = "" -> s1 = "" /\ s2 = "".
Proof. destruct s1; [auto|discriminate]. Qed.

Lemma join_snoc_not_empty c l x : x <> "" -> join c (l ++ [x]) <> "".
Proof.
  intros Hx. destruct l as [|a l]; [exact Hx|].
  rewrite join_snoc by discriminate. intros H.
  apply string_app_eq_nil in H as [_ H]. discriminate.
Qed.

Lemma join_cons_not_empty c a l : a <> "" -> join c (a :: l) <> "".
Proof.
  intros Ha. destruct l as [|b l]; [exact Ha|].
  change (join c (a :: b :: l)) with (a +:+ String c (join c (b :: l))).
  intros H. now apply string_app_eq_nil in H as [H _].
Qed.

(** A path that begins with a non-empty segment is not absolute. *)
Lemma join_not_absolute a l :
  free_of sep a = true -> a <> "" ->
  String.prefix (String sep "") (join sep (a :: l)) = false.
Proof.
  intros Hf Ha. destruct a as [|x a]; [congruence|].
  simpl in Hf. apply andb_true_iff in Hf as [Hx _].
  apply negb_true_iff in Hx.
  assert (Hhead : exists rest, join sep (String x a :: l) = String x rest).
  { destruct l as [|b l]; [now exists a|].
    now exists (a +:+ String sep (join sep (b :: l))). }
  destruct Hhead as (rest & ->). cbn [String.prefix].
  destruct (ascii_dec sep x) as [<-|Hne]; [|reflexivity].
  now rewrite Ascii.eqb_refl in Hx.
Qed.

(** A path that ends with a non-empty separator-free segment has no
    trailing separator. *)
Lemma ends_with_separator s x :
  free_of sep x = true -> x <> "" ->
  ends_with (s +:+ x) (String sep "") = false.
Proof.
  intros Hf Hx.
  assert (Hbase : ends_with x (String sep "") = false).
  { clear Hx. induction x as [|a x IH]; [reflexivity|].
    simpl in Hf. apply andb_true_iff in Hf as [Ha Hf].
    apply negb_true_iff in Ha. cbn [ends_with]. rewrite (IH Hf), orb_false_r.
    apply String.eqb_neq. intros [= -> _]. now rewrite Ascii.eqb_refl in Ha. }
  induction s as [|a s IH]; [exact Hbase|].
  change (String a s +:+ x) with (String a (s +:+ x)).
  cbn [ends_with]. rewrite IH, orb_false_r.
  apply String.eqb_neq. intros [= _ H].
  now apply string_app_eq_nil in H as [_ H].
Qed.

Lemma resolve_proper allowAboveRoot kept name :
  proper name = true ->
  resolve_segment allowAboveRoot kept name = name :: kept.
Proof.
  intros (_ & H1 & H2 & H3)%proper_facts. unfold resolve_segment.
  now rewrite !(proj2 (String.eqb_neq _ _)) by assumption.
Qed.

Lemma foldl_resolve_proper allowAboveRoot names : forall kept,
  Forall (fun name => proper name = true) names ->
  foldl (resolve_segment allowAboveRoot) kept names = rev names ++ kept.
Proof.
  induction names as [|name names IH]; intros kept H; [reflexivity|].
  apply Forall_cons_1 in H as [Hn H]. cbn [foldl rev].
  rewrite resolve_proper, IH by assumption. now rewrite <- app_assoc.
Qed.

(** [path.join] of a relative path and a proper name, on segments. *)
Lemma path_join_segments a segments item :
  Forall (fun s => free_of sep s = true) (a :: segments) -> a <> "" ->
  proper item = true ->
  path_join (join sep (a :: segments)) item
  = join sep (rev (item :: foldl (resolve_segment true) [] (a :: segments))).
Proof.
  intros Hfree Ha Hitem.
  pose proof Hitem as (Hf & H1 & H2 & H3)%proper_facts.
  assert (Hjoined : join sep (a :: segments) +:+ String sep item
                    = join sep ((a :: segments) ++ [item]))
    by now rewrite join_snoc.
  assert (Hrel : String.prefix (String sep "")
                   (join sep ((a :: segments) ++ [item])) = false).
  { apply (join_not_absolute a (segments ++ [item])); auto.
    now apply Forall_cons_1 in Hfree. }
  assert (Hend : ends_with (join sep ((a :: segments) ++ [item]))
                           (String sep "") = false).
  { rewrite <- Hjoined.
    change (String sep item) with (String sep "" +:+ item).
    rewrite <- string_app_assoc. now apply ends_with_separator. }
  unfold path_join.
  rewrite (proj2 (String.eqb_neq _ _) (join_cons_not_empty sep a segments Ha)).
  rewrite (proj2 (String.eqb_neq _ _) H1), Hjoined.
  unfold normalize.
  rewrite (proj2 (String.eqb_neq _ _)
             (join_snoc_not_empty sep (a :: segments) item H1)).
  rewrite Hrel, Hend. cbn [negb].
  unfold normalizeString. rewrite split_join;
    [|discriminate|apply Forall_app; split; [exact Hfree|now constructor]].
  rewrite foldl_app. cbn [foldl]. rewrite resolve_proper by assumption.
  cbn [rev].
  rewrite (proj2 (String.eqb_neq _ _)
             (join_snoc_not_empty sep _ item H1)).
  apply string_app_nil_r.
Qed.

Lemma joins_outDir : joins outDir ["out"].
Proof.
  intros item Hitem.
  change outDir with (join sep ["."; "out"]).
  rewrite path_join_segments by (repeat constructor || discriminate || assumption).
  reflexivity.
Qed.

Lemma joins_clean base :
  base <> [] -> Forall (fun name => proper name = true) base ->
  joins (join sep base) base.
Proof.
  intros Hne Hbase item Hitem.
  destruct base as [|a segments]; [congruence|].
  pose proof (Forall_cons_1 _ _ _ Hbase) as [Ha _].
  apply proper_facts in Ha as (_ & Ha & _).
  rewrite path_join_segments; auto.
  - rewrite foldl_resolve_proper by assumption.
    rewrite app_nil_r.
    assert (Hrev : forall l : list string, rev (item :: rev l) = l ++ [item]).
    { intros l. change (rev (item :: rev l)) with (rev (rev l) ++ [item]).
      now rewrite rev_involutive. }
    now rewrite Hrev.
  - eapply Forall_impl; [|exact Hbase]. intros s Hs.
    now apply proper_facts in Hs.
Qed.

(** *** [path.extname] *)

Lemma ends_with_iff s suffix :
  ends_with s suffix = true <-> exists stem, s = stem +:+ suffix.
Proof.
  split.
  - induction s as [|a s IH]; cbn [ends_with].
    + rewrite orb_false_r. intros H%String.eqb_eq. now exists "".
    + intros [H|H]%orb_true_iff.
      * apply String.eqb_eq in H. now exists "".
      * destruct (IH H) as (stem & ->). now exists (String a stem).
  - intros (stem & ->). apply ends_with_app.
Qed.

Lemma from_last_dot_app stem suffix r :
  from_last_dot suffix = Some r -> from_last_dot (stem +:+ suffix) = Some r.
Proof.
  intros H. induction stem as [|a stem IH]; [exact H|].
  change (String a stem +:+ suffix) with (String a (stem +:+ suffix)).
  cbn [from_last_dot]. now rewrite IH.
Qed.

Lemma from_last_dot_suffix s r :
  from_last_dot s = Some r -> exists stem, s = stem +:+ r.
Proof.
  revert r. induction s as [|a s IH]; intros r; cbn [from_last_dot];
    [discriminate|].
  destruct (from_last_dot s) as [r'|].
  - intros [= <-]. destruct (IH r' eq_refl) as (stem & ->).
    now exists (String a stem).
  - destruct (Ascii.eqb a "."); [|discriminate]. intros [= <-]. now exists "".
Qed.

Lemma length_string_app s1 s2 :
  String.length (s1 +:+ s2) = String.length s1 + String.length s2.
Proof.
  induction s1 as [|a s1 IH]; [reflexivity|].
  change (String a s1 +:+ s2) with (String a (s1 +:+ s2)).
  simpl. now rewrite IH.
Qed.

(** The component has the extension [.html] exactly when it ends in
    [.html] and is longer than that. *)
Lemma extname_of_html component :
  String.eqb (extname_of component) ".html" = html_name component.
Proof.
  unfold html_name. destruct (ends_with component ".html") eqn:E.
  - apply ends_with_iff in E as (stem & ->). cbn [andb].
    unfold extname_of.
    rewrite (from_last_dot_app stem ".html" ".html") by reflexivity.
    rewrite length_string_app.
    destruct stem as [|a stem]; [reflexivity|].
    replace (String.length ".html" =? String.length (String a stem)
                                      + String.length ".html")%nat
      with false by (symmetry; apply Nat.eqb_neq; simpl; lia).
    assert (Hlong : String a stem +:+ ".html" <> "..").
    { intros H. apply (f_equal String.length) in H.
      rewrite length_string_app in H. simpl in H. lia. }
    assert (Hnot : String a stem +:+ ".html" <> ".html").
    { intros H. apply (f_equal String.length) in H.
      rewrite length_string_app in H. simpl in H. lia. }
    rewrite (proj2 (String.eqb_neq _ _) Hlong).
    now rewrite (proj2 (String.eqb_neq _ _) Hnot).
  - cbn [andb]. apply String.eqb_neq. intros H.
    unfold extname_of in H.
    destruct (from_last_dot component) as [r|] eqn:Er; [|discriminate].
    destruct (_ =? _)%nat; [discriminate|].
    destruct (String.eqb component ".."); [discriminate|]. subst r.
    apply from_last_dot_suffix in Er as (stem & ->).
    now rewrite ends_with_app in E.
Qed.

Lemma filter_snoc {A} (p : A -> bool) l x :
  filter p (l ++ [x]) = filter p l ++ (if p x then [x] else []).
Proof. now rewrite filter_app. Qed.

Lemma extname_join base item :
  Forall (fun s => free_of sep s = true) base -> proper item = true ->
  extname (join sep (base ++ [item])) = extname_of item.
Proof.
  intros Hbase (Hf & Hne & _)%proper_facts. unfold extname.
  rewrite split_join;
    [|now destruct base|apply Forall_app; split; [exact Hbase|now constructor]].
  rewrite filter_snoc, (proj2 (String.eqb_neq _ _) Hne). cbn [negb].
  now rewrite rev_unit.
Qed.

(** ** The directory walk *)

(** Induction over an entry with the hypothesis for every item of a
    directory. *)
Lemma entry_forest_ind (P : entry -> Prop) :
  P Plain ->
  (forall items, Forall (fun ic => P (snd ic)) items -> P (Directory items)) ->
  P Unlistable -> P Unstattable ->
  forall e, P e.
Proof.
  intros HP HD HL HS.
  fix IH 1.
  intros [ | items | | ]; [ exact HP | | exact HL | exact HS ].
  apply HD.
  induction items as [|[item child] rest IHrest]; constructor;
    [ apply IH | exact IHrest ].
Qed.

Lemma distinct_NoDup l : distinct l = true <-> NoDup l.
Proof.
  induction l as [|x l IH]; cbn [distinct].
  - split; [constructor|reflexivity].
  - rewrite andb_true_iff, negb_true_iff, IH, NoDup_cons_iff.
    assert (Hx : existsb (String.eqb x) l = false <-> ~ In x l).
    { rewrite <- not_true_iff_false, existsb_exists. split.
      - intros H Hin. apply H. exists x. split; [exact Hin|].
        apply String.eqb_refl.
      - intros H (y & Hy & Heq). apply String.eqb_eq in Heq. now subst. }
    now rewrite Hx.
Qed.

(** The walk throws exactly when a directory cannot be listed or an entry
    cannot be examined, whatever the names are. *)
Lemma getAllHtmlFiles_listable e : forall dirPath,
  getAllHtmlFiles dirPath e = None <-> listable e = false.
Proof.
  induction e as [ | items IH | | ] using entry_forest_ind;
    intros dirPath; try (split; reflexivity).
  cbn [getAllHtmlFiles listable].
  induction items as [|[item child] rest IHrest]; [split; discriminate|].
  apply Forall_cons_1 in IH as [IHchild IH]. cbn [snd] in IHchild.
  specialize (IHrest IH). cbn [forallb].
  rewrite andb_false_iff, <- IHrest.
  destruct child as [ | inner | | ].
  - destruct ((fix each (items : list (string * entry)) := _) rest);
      simpl; split; intuition discriminate.
  - rewrite <- (IHchild (path_join dirPath item)).
    destruct (getAllHtmlFiles (path_join dirPath item) (Directory inner));
      [|simpl; tauto].
    destruct ((fix each (items : list (string * entry)) := _) rest);
      simpl; split; intuition discriminate.
  - simpl. tauto.
  - simpl. tauto.
Qed.

(** On a tree with proper names, the walk of a listable directory yields
    the paths of the routes to its plain entries with an [html_name], in
    the order of the listings. *)
Lemma getAllHtmlFiles_routes e : forall dirPath base,
  joins dirPath base ->
  base <> [] -> Forall (fun name => proper name = true) base ->
  well_named e = true -> listable e = true ->
  getAllHtmlFiles dirPath e
  = Some (map (fun route => join sep (base ++ route)) (html_routes e)).
Proof.
  induction e as [ | items IH | | ] using entry_forest_ind;
    intros dirPath base Hjoins Hne Hbase Hnamed Hlist; try discriminate.
  cbn [getAllHtmlFiles html_routes].
  cbn [well_named] in Hnamed.
  apply andb_true_iff in Hnamed as [[Hproper _]%andb_true_iff Hnamed].
  cbn [listable] in Hlist.
  induction items as [|[item child] rest IHrest]; [reflexivity|].
  apply Forall_cons_1 in IH as [IHchild IH]. cbn [snd] in IHchild.
  cbn [forallb] in Hproper, Hnamed, Hlist.
  apply andb_true_iff in Hproper as [Hitem Hproper].
  apply andb_true_iff in Hnamed as [Hchild Hnamed].
  apply andb_true_iff in Hlist as [Hlchild Hlist].
  specialize (IHrest IH Hproper Hnamed Hlist).
  assert (Hfree : Forall (fun s => free_of sep s = true) base).
  { eapply Forall_impl; [|exact Hbase]. intros s Hs.
    now apply proper_facts in Hs. }
  cbn [flat_map]. rewrite map_app, (Hjoins item Hitem).
  destruct child as [ | inner | | ]; try discriminate.
  - rewrite extname_join, extname_of_html by assumption.
    rewrite IHrest. simpl. now destruct (html_name item).
  - rewrite (IHchild (join sep (base ++ [item])) (base ++ [item]));
      [|apply joins_clean; [now destruct base|]| now destruct base | |
       assumption|assumption];
      try (apply Forall_app; split; [exact Hbase|now constructor]).
    rewrite IHrest. simpl. rewrite map_map. do 2 f_equal.
    apply map_ext. intros route. now rewrite <- app_assoc.
Qed.

(** *** The routes *)

Lemma html_routes_head name child route :
  In route
     (match child with
      | Plain => if html_name name then [[name]] else []
      | _ => map (cons name) (html_routes child)
      end) ->
  exists rest, route = name :: rest.
Proof.
  destruct child as [ | inner | | ]; try (intros []).
  - destruct (html_name name); [|intros []]. intros [<-|[]]. now exists [].
  - intros (rest & <- & _)%in_map_iff. now exists rest.
Qed.

Lemma html_routes_NoDup e : well_named e = true -> NoDup (html_routes e).
Proof.
  induction e as [ | items IH | | ] using entry_forest_ind;
    intros Hnamed; [constructor| |constructor|constructor].
  cbn [well_named] in Hnamed.
  apply andb_true_iff in Hnamed as [[_ Hdistinct]%andb_true_iff Hnamed].
  apply distinct_NoDup in Hdistinct. cbn [html_routes].
  induction items as [|[item child] rest IHrest]; [constructor|].
  apply Forall_cons_1 in IH as [IHchild IH]. cbn [snd] in IHchild.
  cbn [forallb] in Hnamed. apply andb_true_iff in Hnamed as [Hchild Hnamed].
  cbn [map fst] in Hdistinct. apply NoDup_cons_iff in Hdistinct as [Hitem Hd].
  cbn [flat_map]. apply List.NoDup_app.
  - destruct child as [ | inner | | ]; try constructor.
    + destruct (html_name item); repeat constructor. intros [].
    + apply Finite.Injective_map_NoDup; [|now apply IHchild].
      now intros ? ? [= ->].
  - now apply IHrest.
  - intros route Hin Hin'.
    apply html_routes_head in Hin as (tail & ->).
    apply in_flat_map in Hin' as ([name other] & Hother & Hin').
    apply html_routes_head in Hin' as (tail' & [= <- _]).
    apply Hitem. apply in_map_iff. now exists (item, other).
Qed.

Lemma html_routes_proper e :
  well_named e = true ->
  Forall (Forall (fun name => proper name = true)) (html_routes e).
Proof.
  induction e as [ | items IH | | ] using entry_forest_ind;
    intros Hnamed; [constructor| |constructor|constructor].
  cbn [well_named] in Hnamed.
  apply andb_true_iff in Hnamed as [[Hproper _]%andb_true_iff Hnamed].
  cbn [html_routes].
  induction items as [|[item child] rest IHrest]; [constructor|].
  apply Forall_cons_1 in IH as [IHchild IH]. cbn [snd] in IHchild.
  cbn [forallb] in Hproper, Hnamed.
  apply andb_true_iff in Hproper as [Hitem Hproper].
  apply andb_true_iff in Hnamed as [Hchild Hnamed].
  cbn [flat_map]. apply Forall_app. split; [|now apply IHrest].
  destruct child as [ | inner | | ]; try constructor.
  - destruct (html_name item); repeat constructor. exact Hitem.
  - apply Forall_map. eapply Forall_impl; [|exact (IHchild Hchild)].
    intros route Hroute. now constructor.
Qed.

(** A route of the list leads to a plain entry, it is not empty and its
    last name is an [html_name]; and every such route is in the list. *)
Lemma html_routes_spec e : forall route,
  well_named e = true ->
  In route (html_routes e) <->
  exists before name,
    route = before ++ [name] /\ html_name name = true
    /\ entry_at e route = Some Plain.
Proof.
  induction e as [ | items IH | | ] using entry_forest_ind;
    intros route Hnamed;
    try (split; [intros []|intros (before & name & -> & _ & H);
                            destruct before; discriminate]).
  cbn [well_named] in Hnamed.
  apply andb_true_iff in Hnamed as [[_ Hdistinct]%andb_true_iff Hnamed].
  apply distinct_NoDup in Hdistinct. cbn [html_routes].
  induction items as [|[item child] rest IHrest].
  { split; [intros []|]. intros (before & name & -> & _ & H).
    destruct before; discriminate. }
  apply Forall_cons_1 in IH as [IHchild IH]. cbn [snd] in IHchild.
  cbn [forallb] in Hnamed. apply andb_true_iff in Hnamed as [Hchild Hnamed].
  cbn [map fst] in Hdistinct. apply NoDup_cons_iff in Hdistinct as [Hitem Hd].
  specialize (IHrest IH Hd Hnamed).
  cbn [flat_map]. rewrite in_app_iff, IHrest. clear IHrest.
  assert (Hthere : forall name other, In (name, other) rest -> name <> item).
  { intros name other Hin ->. apply Hitem. apply in_map_iff.
    now exists (item, other). }
  split.
  - intros [Hin|(before & name & -> & Hhtml & Hat)].
    + destruct child as [ | inner | | ]; try destruct Hin.
      * destruct (html_name item) eqn:Hhtml; [|destruct Hin].
        destruct Hin as [<-|[]]. exists [], item.
        repeat split; auto. cbn. now rewrite String.eqb_refl.
      * apply in_map_iff in Hin as (tail & <- & Hin).
        apply (IHchild tail Hchild) in Hin as (before & name & -> & Hhtml & Hat).
        exists (item :: before), name. repeat split; auto.
        cbn [entry_at app]. now rewrite String.eqb_refl.
    + exists before, name. repeat split; auto.
      destruct before as [|first before]; cbn [app entry_at] in Hat |- *.
      * destruct (String.eqb_spec item name) as [->|_]; [|exact Hat].
        exfalso. clear -Hat Hitem.
        induction rest as [|[n c] rest IHr]; [discriminate|].
        destruct (String.eqb_spec n name) as [->|Hn].
        -- apply Hitem. now left.
        -- apply IHr; [|exact Hat]. intros H. apply Hitem. now right.
      * destruct (String.eqb_spec item first) as [->|_]; [|exact Hat].
        exfalso. clear -Hat Hitem.
        induction rest as [|[n c] rest IHr]; [discriminate|].
        destruct (String.eqb_spec n first) as [->|Hn].
        -- apply Hitem. now left.
        -- apply IHr; [|exact Hat]. intros H. apply Hitem. now right.
  - intros (before & name & -> & Hhtml & Hat).
    destruct before as [|first before]; cbn [app entry_at] in Hat.
    + destruct (String.eqb_spec item name) as [->|Hne].
      * left. destruct child; try discriminate. rewrite Hhtml. now left.
      * right. exists [], name. repeat split; auto.
    + destruct (String.eqb_spec item first) as [->|Hne].
      * left. destruct child as [ | inner | | ];
          try (destruct (before ++ [name]); discriminate).
        -- destruct before; discriminate.
        -- apply in_map_iff. exists (before ++ [name]). split; [reflexivity|].
           apply (IHchild _ Hchild). now exists before, name.
      * right. exists (first :: before), name. repeat split; auto.
Qed.

(** *** What the walk of [main] returns *)

Lemma routes_free root route :
  well_named root = true -> In route (html_routes root) ->
  Forall (fun s => free_of sep s = true) ("out" :: route).
Proof.
  intros Hnamed Hin. constructor; [reflexivity|].
  pose proof (html_routes_proper root Hnamed) as H.
  rewrite Forall_forall in H. specialize (H route Hin).
  eapply Forall_impl; [|exact H]. intros s Hs. now apply proper_facts in Hs.
Qed.

Lemma listable_of_result dirPath e files :
  getAllHtmlFiles dirPath e = Some files -> listable e = true.
Proof.
  intros H. destruct (listable e) eqn:E; [reflexivity|].
  apply (getAllHtmlFiles_listable e dirPath) in E. congruence.
Qed.

Lemma ends_with_app_r stem s suffix :
  ends_with s suffix = true -> ends_with (stem +:+ s) suffix = true.
Proof.
  intros (front & ->)%ends_with_iff. rewrite <- string_app_assoc.
  apply ends_with_app.
Qed.

(** The paths [out/.../name] of the routes to the [.html] files: no two are
    equal, and each ends in [.html]. *)
Lemma out_paths_shape root :
  well_named root = true ->
  let files := map (fun route => join sep ("out" :: route))
                   (html_routes root) in
  NoDup files
  /\ Forall (fun p => exists route,
                 route <> [] /\ split sep p = "out" :: route
                 /\ Forall (fun name => proper name = true) route
                 /\ ends_with p ".html" = true) files.
Proof.
  intros Hnamed files. unfold files. split.
  - apply Finite.Injective_map_NoDup_in; [|now apply html_routes_NoDup].
    intros r1 r2 H1 H2 Heq.
    apply (f_equal (split sep)) in Heq.
    change (split sep (join sep ("out" :: r1))
            = split sep (join sep ("out" :: r2))) in Heq.
    rewrite !split_join in Heq by (discriminate || now apply (routes_free root)).
    congruence.
  - apply Forall_map, Forall_forall. intros route Hin. exists route.
    pose proof (html_routes_proper root Hnamed) as Hproper.
    rewrite Forall_forall in Hproper. specialize (Hproper route Hin).
    apply html_routes_spec in Hin as Hspec; [|exact Hnamed].
    destruct Hspec as (before & name & -> & Hhtml & _).
    split; [now destruct before|]. split.
    + change (split sep (join sep ("out" :: before ++ [name]))
              = "out" :: before ++ [name]).
      apply split_join; [discriminate|]. now apply (routes_free root).
    + split; [exact Hproper|].
      change (ends_with (join sep (("out" :: before) ++ [name])) ".html"
              = true).
      rewrite join_snoc by discriminate.
      apply ends_with_app_r. change (String sep name) with (String sep "" +:+ name).
      apply ends_with_app_r. unfold html_name in Hhtml.
      now apply andb_true_iff in Hhtml as [Hhtml _].
Qed.

Lemma getAllHtmlFiles_out root :
  well_named root = true -> listable root = true ->
  getAllHtmlFiles outDir root
  = Some (map (fun route => join sep ("out" :: route)) (html_routes root)).
Proof.
  intros Hnamed Hlist.
  apply (getAllHtmlFiles_routes root outDir ["out"]);
    first [assumption | apply joins_outDir | discriminate
          | now repeat constructor].
Qed.

(** X1.  The walk of [./out] throws exactly when some directory cannot be listed
    or some entry cannot be examined.  Otherwise it returns, in the order
    of the listings and directory by directory, the path [out/.../name] of
    every plain entry whose name ends in [.html] and is longer than that. *)
Theorem getAllHtmlFiles_finds root :
  well_named root = true ->
  if listable root
  then getAllHtmlFiles outDir root
       = Some (map (fun route => join sep ("out" :: route)) (html_routes root))
  else getAllHtmlFiles outDir root = None.
Proof.
  intros Hnamed. destruct (listable root) eqn:Hlist.
  - now apply getAllHtmlFiles_out.
  - now apply getAllHtmlFiles_listable.
Qed.

(** X2.  A path is returned by the walk exactly when it is [out/.../name] for a
    route that leads to a plain entry, [name] being longer than [.html] and
    ending in it.  So a file named [.html], [a.HTML] or [a.htm] is left
    out, and a directory named [a.html] is walked, not returned. *)
Theorem getAllHtmlFiles_members root files :
  well_named root = true -> getAllHtmlFiles outDir root = Some files ->
  forall p,
    In p files <->
    exists before name,
      p = join sep ("out" :: before ++ [name])
      /\ html_name name = true
      /\ entry_at root (before ++ [name]) = Some Plain.
Proof.
  intros Hnamed Hfiles p.
  pose proof (listable_of_result _ _ _ Hfiles) as Hlist.
  rewrite (getAllHtmlFiles_out root Hnamed Hlist) in Hfiles.
  injection Hfiles as <-. rewrite in_map_iff. split.
  - intros (route & <- & Hin).
    apply html_routes_spec in Hin as (before & name & -> & Hhtml & Hat);
      [|exact Hnamed].
    now exists before, name.
  - intros (before & name & -> & Hhtml & Hat).
    exists (before ++ [name]). split; [reflexivity|].
    apply html_routes_spec; [exact Hnamed|]. now exists before, name.
Qed.

(** X3.  No path is returned twice; every returned path has the segment [out]
    followed by the names of a non-empty route, and ends in [.html]. *)
Theorem getAllHtmlFiles_paths root files :
  well_named root = true -> getAllHtmlFiles outDir root = Some files ->
  NoDup files
  /\ Forall (fun p => exists route,
                 route <> [] /\ split sep p = "out" :: route
                 /\ Forall (fun name => proper name = true) route
                 /\ ends_with p ".html" = true) files.
Proof.
  intros Hnamed Hfiles.
  pose proof (listable_of_result _ _ _ Hfiles) as Hlist.
  rewrite (getAllHtmlFiles_out root Hnamed Hlist) in Hfiles.
  injection Hfiles as <-. now apply out_paths_shape.
Qed.

(** *** Faults *)

Lemma entry_at_item items name route target :
  entry_at (Directory items) (name :: route) = Some target ->
  exists child, In (name, child) items /\ entry_at child route = Some target.
Proof.
  cbn [entry_at].
  induction items as [|[item child] rest IH]; [discriminate|].
  destruct (String.eqb_spec item name) as [->|Hne].
  - intros H. exists child. split; [now left|exact H].
  - intros H. destruct (IH H) as (other & Hin & Hat).
    exists other. split; [now right|exact Hat].
Qed.

Lemma entry_at_fault route : forall e target,
  entry_at e route = Some target ->
  target = Unlistable \/ target = Unstattable ->
  listable e = false.
Proof.
  induction route as [|name route IH]; intros e target Hat Hbad.
  - injection Hat as ->. now destruct Hbad as [-> | ->].
  - destruct e as [ | items | | ]; try reflexivity.
    apply entry_at_item in Hat as (child & Hin & Hat).
    pose proof (IH child target Hat Hbad) as Hchild.
    cbn [listable]. apply not_true_is_false. intros Hall.
    rewrite forallb_forall in Hall. specialize (Hall _ Hin). cbn in Hall.
    destruct child; try congruence.
    destruct route; [|discriminate]. injection Hat as <-.
    now destruct Hbad.
Qed.

(** ** The run, with the walk *)

Section WalkFacts.

Variable parse_fragment : string -> list node.
Variable blockPageTranslations : gmap string translation.
Variable errorPageTranslations : gmap string translation.
Variable challengePageTranslations : gmap string translation.
Variable load : string -> option (list node).
Variable serialize : list node -> string.
Variable packagePath : string.
Variable parse_package : string -> manifest.
Variable buildDate : string -> string.

Local Abbreviation read_package := (read_package packagePath parse_package).
Local Abbreviation outcome :=
  (outcome parse_fragment blockPageTranslations errorPageTranslations
           challengePageTranslations load serialize packagePath parse_package
           buildDate).
Local Abbreviation report :=
  (report parse_fragment blockPageTranslations errorPageTranslations
          challengePageTranslations load serialize packagePath parse_package
          buildDate).
Local Abbreviation processHtmlFile :=
  (processHtmlFile parse_fragment blockPageTranslations errorPageTranslations
                   challengePageTranslations load serialize packagePath
                   parse_package buildDate).
Local Abbreviation process_all :=
  (process_all parse_fragment blockPageTranslations errorPageTranslations
               challengePageTranslations load serialize packagePath
               parse_package buildDate).
Local Abbreviation run_main :=
  (run_main parse_fragment blockPageTranslations errorPageTranslations
            challengePageTranslations load serialize packagePath
            parse_package buildDate).
Local Abbreviation transform :=
  (transform parse_fragment blockPageTranslations errorPageTranslations
             challengePageTranslations).

(** X4.  When some route from [./out] leads to a directory that cannot be
    listed or to an entry that cannot be examined, or when [./out] is no
    directory, the run ends in the catch of [main]: no file is processed,
    not even those the walk had passed, and no line is logged before the
    error. *)
Theorem run_main_fault root w :
  root = Plain
  \/ root = Unlistable
  \/ (exists route target,
         route <> [] /\ entry_at root route = Some target
         /\ (target = Unlistable \/ target = Unstattable)) ->
  run_main (Some root) w = (w, true).
Proof.
  intros Hbad.
  assert (root <> Unstattable /\ listable root = false) as [Hroot Hlist].
  { destruct Hbad as [->|[->|(route & target & Hne & Hat & Htarget)]];
      [(split; [discriminate|reflexivity])..|].
    split; [|now apply (entry_at_fault route root target)].
    intros ->. destruct route; [congruence|discriminate]. }
  apply (getAllHtmlFiles_listable root outDir) in Hlist.
  unfold run_main. rewrite Hlist. now destruct root.
Qed.

(** X5.  On a directory without fault the run reports every [.html] file the
    walk finds, once and in the order of the walk, as processed or as
    failed; every one of them ends with what processing it alone would
    have written, and nothing else is touched.  The manifest is not among
    the files as its name does not end in [.html]. *)
Theorem run_main_reports root w :
  well_named root = true -> listable root = true ->
  ends_with packagePath ".html" = false ->
  exists w',
    run_main (Some root) w = (w', false)
    /\ filter is_report (console w')
       = filter is_report (console w)
         ++ map (fun route => report w (join sep ("out" :: route)))
                (html_routes root)
    /\ (forall route,
          In route (html_routes root) ->
          match outcome w (join sep ("out" :: route)) with
          | Some text =>
              content <$> fs w' !! join sep ("out" :: route) = Some text
          | None =>
              fs w' !! join sep ("out" :: route)
              = fs w !! join sep ("out" :: route)
          end)
    /\ (forall other,
          (forall route, In route (html_routes root) ->
                         other <> join sep ("out" :: route)) ->
          fs w' !! other = fs w !! other).
Proof.
  intros Hnamed Hlist Hpkg.
  pose proof (getAllHtmlFiles_out root Hnamed Hlist) as Hfiles.
  destruct (out_paths_shape root Hnamed) as (Hdup & Hshape).
  set (files := map (fun route => join sep ("out" :: route))
                    (html_routes root)) in *.
  assert (Hnotin : ~ In packagePath files).
  { intros Hin. rewrite Forall_forall in Hshape.
    destruct (Hshape _ Hin) as (_ & _ & _ & _ & Hend). congruence. }
  destruct (process_all_effect
              parse_fragment blockPageTranslations errorPageTranslations
              challengePageTranslations load serialize packagePath
              parse_package buildDate files w Hdup Hnotin)
    as (Hlog & Hin & Hout).
  exists (log AllProcessed (process_all files w)).
  split; [|split; [|split]].
  - unfold run_main. rewrite Hfiles. fold files.
    destruct root; try discriminate. reflexivity.
  - rewrite filter_report_log, Hlog. cbn [is_report].
    unfold files. now rewrite app_nil_r, map_map.
  - intros route Hroute. apply (Hin (join sep ("out" :: route))).
    unfold files. apply in_map_iff. now exists route.
  - intros other Hother. apply Hout. unfold files.
    intros (route & <- & Hroute)%in_map_iff. now apply (Hother route).
Qed.

(** *** What [processHtmlFile] does to the file system *)

Lemma processHtmlFile_keeps filePath w p :
  readable <$> fs (processHtmlFile filePath w) !! p = readable <$> fs w !! p.
Proof.
  unfold processHtmlFile, readFileSync, writeFileSync.
  destruct (fs w !! filePath) as [f|] eqn:Ef; [|reflexivity].
  destruct (readable f) eqn:Er; [|reflexivity].
  destruct (load (content f)) as [doc|]; [|reflexivity].
  set (w1 := if includes filePath out_cf && warns (read_package w)
             then log WarnPackage w else w).
  assert (Hfs : fs w1 = fs w) by (unfold w1; now destruct (_ && _)).
  rewrite Hfs, Ef. destruct (writable f); cbn [log fs]; [|now rewrite Hfs].
  destruct (decide (p = filePath)) as [->|Hne].
  - now rewrite lookup_insert_eq, Ef; cbn; rewrite Er.
  - now rewrite lookup_insert_ne by congruence.
Qed.

(** X6.  The run creates no file and deletes none, and a file can be read after
    the run exactly when it could before, whatever the files are and
    whatever fails. *)
Theorem run_keeps_the_files htmlFiles w p :
  readable <$> fs (process_all htmlFiles w) !! p = readable <$> fs w !! p
  /\ (is_Some (fs (process_all htmlFiles w) !! p) <-> is_Some (fs w !! p)).
Proof.
  assert (H : readable <$> fs (process_all htmlFiles w) !! p
              = readable <$> fs w !! p).
  { revert w. induction htmlFiles as [|file files IH]; intros w; [reflexivity|].
    rewrite process_all_cons, IH. apply processHtmlFile_keeps. }
  split; [exact H|].
  rewrite <- !(fmap_is_Some readable), H. reflexivity.
Qed.

(** *** The manifest *)


(** X7.  A file that cannot be read, loaded or written is left as it is, with
    the rest of the file system, and its error line is the last line
    logged; before it stands at most the warning for the manifest, when the
    write is what failed. *)
Theorem processHtmlFile_failure filePath w :
  outcome w filePath = None ->
  fs (processHtmlFile filePath w) = fs w
  /\ exists warning,
      console (processHtmlFile filePath w)
      = console w ++ warning ++ [ErrorProcessing filePath]
      /\ (warning = [] \/ warning = [WarnPackage])
      /\ (readFileSync w filePath = None \/
          (exists html, readFileSync w filePath = Some html
                        /\ load html = None) ->
          warning = []).
Proof.
  unfold outcome, processHtmlFile, readFileSync,
    writeFileSync.
  destruct (fs w !! filePath) as [f|] eqn:Hf.
  - destruct (readable f) eqn:Hr.
    + destruct (load (content f)) as [doc|] eqn:Hl.
      * destruct (writable f) eqn:Hw; [discriminate|]. intros _.
        destruct (includes filePath out_cf && warns (read_package w));
          cbn [fs console log]; rewrite Hf, Hw; cbn [fs console log];
          (split; [reflexivity|]).
        -- exists [WarnPackage]. rewrite <- app_assoc.
           split; [reflexivity|]. split; [now right|].
           intros [?|(html & [= <-] & ?)]; congruence.
        -- exists []. split; [reflexivity|]. split; [now left|]. reflexivity.
      * intros _. split; [reflexivity|]. exists [].
        split; [reflexivity|]. split; [now left|]. reflexivity.
    + intros _. split; [reflexivity|]. exists [].
      split; [reflexivity|]. split; [now left|]. reflexivity.
  - intros _. split; [reflexivity|]. exists [].
    split; [reflexivity|]. split; [now left|]. reflexivity.
Qed.

End WalkFacts.

(** ** The edits, once more *)

(** *** Preload links that are left *)

Lemma stale_within : within style_or_font_preload "link".
Proof.
  intros name a H. unfold style_or_font_preload in H.
  apply andb_true_iff in H as [H _]. now apply within_preload_link in H.
Qed.

Lemma select_stale_normalize_node n :
  select style_or_font_preload (normalize_preload_node n) = [].
Proof.
  induction n as [name a ch IH| | |] using node_forest_ind; auto.
  assert (Hch : select style_or_font_preload
                  (flat_map normalize_preload_node ch) = []).
  { unfold select. rewrite flat_map_flat_map. now apply flat_map_nil_Forall. }
  assert (Hown : forall a',
             style_or_font_preload name a' = false ->
             select style_or_font_preload
               [Elem name a' (flat_map normalize_preload_node ch)] = []).
  { intros a' Ha. unfold select in *. cbn [flat_map select_node].
    now rewrite Ha, Hch. }
  cbn [normalize_preload_node]. unfold style_or_font_preload in Hown.
  destruct (preload_link name a) eqn:Hpre.
  - destruct (a !! "as") as [kind|] eqn:Has.
    + destruct (String.eqb_spec kind "style") as [->|Hs].
      * apply Hown. now rewrite stylesheet_is_no_preload.
      * destruct (String.eqb_spec kind "font") as [->|Hf]; [reflexivity|].
        apply Hown. rewrite Has, !bool_decide_eq_false_2 by congruence.
        apply andb_false_r.
    + apply Hown. rewrite Has, !bool_decide_eq_false_2 by congruence.
      apply andb_false_r.
  - apply Hown. now rewrite Hpre.
Qed.

Lemma select_stale_normalize doc :
  select style_or_font_preload (normalizePreloads doc) = [].
Proof.
  unfold normalizePreloads, select. rewrite flat_map_flat_map.
  apply flat_map_nil_Forall, Forall_forall. intros n _.
  apply select_stale_normalize_node.
Qed.

Lemma normalize_fixed_node n :
  select_node style_or_font_preload n = [] -> normalize_preload_node n = [n].
Proof.
  induction n as [name a ch IH| | |] using node_forest_ind; auto.
  cbn [select_node]. intros [Hown Hch]%app_eq_nil.
  assert (Hch' : flat_map normalize_preload_node ch = ch).
  { apply flat_map_singleton_Forall. apply flat_map_nil_inv in Hch.
    rewrite Forall_forall in *. auto. }
  cbn [normalize_preload_node]. rewrite Hch'.
  unfold style_or_font_preload in Hown.
  destruct (preload_link name a); [|reflexivity].
  destruct (a !! "as") as [kind|]; [|reflexivity].
  destruct (String.eqb_spec kind "style") as [->|Hs].
  { now rewrite bool_decide_eq_true_2 in Hown. }
  destruct (String.eqb_spec kind "font") as [->|Hf]; [|reflexivity].
  rewrite (bool_decide_eq_true_2 (Some "font" = Some "font")) in Hown
    by reflexivity.
  now rewrite orb_true_r in Hown.
Qed.

Lemma normalize_fixed doc :
  select style_or_font_preload doc = [] -> normalizePreloads doc = doc.
Proof.
  intros H. apply flat_map_singleton_Forall. apply flat_map_nil_inv in H.
  eapply Forall_impl; [|exact H]. intros n. apply normalize_fixed_node.
Qed.

(** X9.  After the preload edit no preload link of type style or font is left,
    in any document; and the edit changes a document exactly when the
    document has such a link. *)
Theorem normalizePreloads_settles doc :
  select style_or_font_preload (normalizePreloads doc) = []
  /\ (normalizePreloads doc = doc <-> select style_or_font_preload doc = []).
Proof.
  split; [apply select_stale_normalize|]. split.
  - intros H. rewrite <- H. apply select_stale_normalize.
  - apply normalize_fixed.
Qed.

(** *** Script relocation without head or body *)

Lemma append_each_lacks_body scripts : forall doc,
  lacks "body" doc = true ->
  foldl (fun d script => append (by_tag "body") [script] d) doc scripts = doc.
Proof.
  induction scripts as [|s scripts IH]; intros doc H; [reflexivity|].
  cbn [foldl]. rewrite append_lacks by assumption. now apply IH.
Qed.

Lemma remove_all_none b l :
  flat_map (head_scripts_of b) l = [] ->
  flat_map (remove_head_scripts b) l = l.
Proof.
  intros H. apply flat_map_singleton_Forall. apply flat_map_nil_inv in H.
  eapply Forall_impl; [|exact H]. intros n. apply remove_head_scripts_none.
Qed.

Lemma removed_has_no_head_script_any n : forall b,
  flat_map (head_scripts_of b) (remove_head_scripts b n) = [].
Proof.
  induction n as [name a ch IH| | |] using node_forest_ind; auto.
  intros b. cbn [remove_head_scripts].
  destruct (b && String.eqb name "script") eqn:E; [reflexivity|].
  cbn [flat_map head_scripts_of]. rewrite E, app_nil_r. cbn [app].
  rewrite flat_map_flat_map. apply flat_map_nil_Forall.
  rewrite Forall_forall in *. auto.
Qed.

(** X10.  A document without [head] element is left as it is.  In a document
    without [body] element, a frameset page for one, the scripts of the
    head are removed and appended nowhere: they are lost. *)
Theorem moveScripts_without_body doc :
  (lacks "head" doc = true -> moveScriptsToBodyBottom doc = doc)
  /\ (lacks "body" doc = true ->
      moveScriptsToBodyBottom doc = flat_map (remove_head_scripts false) doc
      /\ headScripts (moveScriptsToBodyBottom doc) = []).
Proof.
  split.
  - intros H. unfold moveScriptsToBodyBottom.
    replace (headScripts doc) with (@nil node); [reflexivity|].
    symmetry. apply flat_map_nil_Forall.
    eapply Forall_impl; [|exact (lacks_Forall _ _ H)].
    intros n. apply head_scripts_of_lacks.
  - intros H.
    assert (Heq : moveScriptsToBodyBottom doc
                  = flat_map (remove_head_scripts false) doc).
    { unfold moveScriptsToBodyBottom.
      destruct (headScripts doc) as [|s scripts] eqn:E.
      - cbn. symmetry. now apply remove_all_none.
      - cbn [length Nat.eqb]. apply append_each_lacks_body.
        now apply remove_all_keeps_lacks. }
    split; [exact Heq|]. rewrite Heq. unfold headScripts.
    rewrite flat_map_flat_map. apply flat_map_nil_Forall, Forall_forall.
    intros n _. apply removed_has_no_head_script_any.
Qed.

(** *** Edits that find their work done *)

Lemma set_text_fixed_node q s n :
  Forall (fun m => node_children m = [Text s]) (select_node q n) ->
  set_text_node q s n = n.
Proof.
  induction n as [name a ch IH| | |] using node_forest_ind; auto.
  cbn [select_node set_text_node]. intros H.
  destruct (q name a).
  - apply Forall_cons_1 in H as [H _]. cbn in H. now rewrite H.
  - f_equal. apply map_id_Forall. cbn [app] in H.
    apply Forall_forall. intros c Hc. rewrite Forall_forall in IH.
    apply IH; [exact Hc|]. apply Forall_forall. intros m Hm.
    rewrite Forall_forall in H. apply H. apply in_flat_map. now exists c.
Qed.

Lemma set_text_fixed q s l :
  Forall (fun m => node_children m = [Text s]) (select q l) ->
  set_text q s l = l.
Proof.
  intros H. apply map_id_Forall, Forall_forall. intros n Hn.
  apply set_text_fixed_node. apply Forall_forall. intros m Hm.
  rewrite Forall_forall in H. apply H. apply in_flat_map. now exists n.
Qed.

Lemma set_attr_fixed_node q key value n :
  Forall (fun m => node_attribs m !! key = Some value) (select_node q n) ->
  set_attr_node q key value n = n.
Proof.
  induction n as [name a ch IH| | |] using node_forest_ind; auto.
  cbn [select_node set_attr_node]. intros H.
  assert (Hch : map (set_attr_node q key value) ch = ch).
  { apply map_id_Forall, Forall_forall. intros c Hc.
    rewrite Forall_forall in IH. apply IH; [exact Hc|].
    apply Forall_forall. intros m Hm. rewrite Forall_forall in H.
    apply H. apply in_or_app. right. apply in_flat_map. now exists c. }
  rewrite Hch. destruct (q name a); [|reflexivity].
  apply Forall_cons_1 in H as [H _]. cbn in H. now rewrite insert_id.
Qed.

Lemma set_attr_fixed q key value l :
  Forall (fun m => node_attribs m !! key = Some value) (select q l) ->
  set_attr q key value l = l.
Proof.
  intros H. apply map_id_Forall, Forall_forall. intros n Hn.
  apply set_attr_fixed_node. apply Forall_forall. intros m Hm.
  rewrite Forall_forall in H. apply H. apply in_flat_map. now exists n.
Qed.

(** Every match of [$(sel).text(s)] holds the text afterwards. *)
Lemma select_set_text_children q s n :
  Forall (fun m => node_children m = [Text s])
         (select_node q (set_text_node q s n)).
Proof.
  induction n as [name a ch IH| | |] using node_forest_ind;
    try constructor.
  cbn [set_text_node]. destruct (q name a) eqn:Hq.
  - cbn [select_node]. rewrite Hq. cbn. now repeat constructor.
  - cbn [select_node]. rewrite Hq. cbn [app].
    apply Forall_forall. intros m Hm.
    apply in_flat_map in Hm as (c' & Hc' & Hm).
    apply in_map_iff in Hc' as (c & <- & Hc).
    rewrite Forall_forall in IH. specialize (IH c Hc).
    rewrite Forall_forall in IH. now apply IH.
Qed.

Lemma select_set_text_all q s l :
  Forall (fun m => node_children m = [Text s]) (select q (set_text q s l)).
Proof.
  apply Forall_forall. intros m Hm.
  apply in_flat_map in Hm as (c' & Hc' & Hm).
  apply in_map_iff in Hc' as (c & <- & Hc).
  pose proof (select_set_text_children q s c) as H.
  rewrite Forall_forall in H. now apply H.
Qed.

(** *** Elements that hold text only, again *)

Lemma inert_holds_text tag l : inert l = true -> holds_text tag l = true.
Proof.
  intros H. apply inert_Forall in H. unfold holds_text.
  rewrite forallb_Forall_iff. eapply Forall_impl; [|exact H].
  now intros [name a ch| | |].
Qed.

Lemma holds_text_remove_node tag n : forall b,
  holds_text_node tag n = true ->
  holds_text tag (remove_head_scripts b n) = true.
Proof.
  induction n as [name a ch IH| | |] using node_forest_ind;
    try (intros b _; reflexivity).
  intros b H. cbn [remove_head_scripts].
  destruct (b && String.eqb name "script"); [reflexivity|].
  cbn [holds_text forallb]. rewrite andb_true_r.
  cbn [holds_text_node] in *. apply andb_true_iff in H as [H1 H2].
  apply andb_true_iff. split.
  - destruct (String.eqb name tag); [|reflexivity].
    now rewrite (flat_map_inert (remove_head_scripts _))
      by (auto; now intros []).
  - apply (holds_text_flat_map tag); [|exact H2].
    rewrite Forall_forall in *. auto.
Qed.

Lemma holds_text_remove tag b l :
  holds_text tag l = true ->
  holds_text tag (flat_map (remove_head_scripts b) l) = true.
Proof.
  intros H. apply holds_text_flat_map; [|exact H].
  apply Forall_forall. intros n _. apply holds_text_remove_node.
Qed.

Lemma holds_text_select tag p t l :
  within p t -> holds_text t l = true -> holds_text tag (select p l) = true.
Proof.
  intros Hw H. apply forallb_Forall_iff, Forall_forall. intros m Hm.
  apply in_flat_map in Hm as (n & Hn & Hm).
  apply holds_text_Forall in H. rewrite Forall_forall in H.
  specialize (H n Hn). clear Hn l. revert m Hm H.
  induction n as [name a ch IH| | |] using node_forest_ind;
    try (intros m []).
  intros m Hm H. cbn [select_node] in Hm. apply in_app_or in Hm as [Hm|Hm].
  - destruct (p name a) eqn:Hp; [|destruct Hm]. destruct Hm as [<-|[]].
    pose proof (holds_text_match p t name a ch Hw Hp H) as Hin.
    cbn [holds_text_node]. rewrite Hin.
    rewrite (inert_holds_text tag ch Hin : forallb _ ch = true).
    now destruct (String.eqb name tag).
  - apply in_flat_map in Hm as (c & Hc & Hm).
    apply holds_text_children, holds_text_Forall in H.
    rewrite Forall_forall in IH, H. exact (IH c Hc m Hm (H c Hc)).
Qed.

Lemma leaves_app l1 l2 :
  leaves_hold_text l1 = true -> leaves_hold_text l2 = true ->
  leaves_hold_text (l1 ++ l2) = true.
Proof.
  unfold leaves_hold_text, holds_text. rewrite !forallb_app, !andb_true_iff.
  tauto.
Qed.

Lemma leaves_remove b l :
  leaves_hold_text l = true ->
  leaves_hold_text (flat_map (remove_head_scripts b) l) = true.
Proof.
  rewrite !leaves_hold_text_iff. intros (? & ? & ? & ?).
  auto using holds_text_remove.
Qed.

Lemma leaves_scripts l :
  leaves_hold_text l = true ->
  leaves_hold_text (select (by_tag "script") l) = true.
Proof.
  intros (_ & _ & _ & Hs)%leaves_hold_text_iff. apply leaves_hold_text_iff.
  repeat split; apply (holds_text_select _ _ "script");
    auto using within_by_tag.
Qed.

(** *** What a selector finds among the matches of another one *)

Lemma selected_shape q t l m :
  within q t -> holds_text t l = true -> In m (select q l) ->
  exists a ch, m = Elem t a ch /\ q t a = true /\ inert ch = true.
Proof.
  intros Hw H Hm. apply in_flat_map in Hm as (n & Hn & Hm).
  apply holds_text_Forall in H. rewrite Forall_forall in H.
  specialize (H n Hn). clear Hn l. revert m Hm H.
  induction n as [name a ch IH| | |] using node_forest_ind;
    try (intros m []).
  intros m Hm H. cbn [select_node] in Hm. apply in_app_or in Hm as [Hm|Hm].
  - destruct (q name a) eqn:Hq; [|destruct Hm]. destruct Hm as [<-|[]].
    pose proof (holds_text_match q t name a ch Hw Hq H) as Hin.
    pose proof (Hw name a Hq) as ->. now exists a, ch.
  - apply in_flat_map in Hm as (c & Hc & Hm).
    apply holds_text_children, holds_text_Forall in H.
    rewrite Forall_forall in IH, H. exact (IH c Hc m Hm (H c Hc)).
Qed.

Lemma select_of_selected p q t t' l :
  within p t -> within q t' -> t <> t' -> holds_text t' l = true ->
  select p (select q l) = [].
Proof.
  intros Hp Hq Hne H. apply flat_map_nil_Forall, Forall_forall. intros m Hm.
  destruct (selected_shape q t' l m Hq H Hm) as (a & ch & -> & _ & Hin).
  cbn [select_node]. rewrite (within_false p t t' a Hp) by congruence.
  apply (select_inert p ch Hin).
Qed.

Lemma select_within_lacks p t l :
  within p t -> lacks t l = true -> select p l = [].
Proof.
  intros Hw H. apply flat_map_nil_Forall.
  eapply Forall_impl; [|exact (lacks_Forall _ _ H)]. clear H l.
  intros n. induction n as [name a ch IH| | |] using node_forest_ind; auto.
  cbn [lacks_node select_node]. intros [Hn Hch]%andb_true_iff.
  destruct (p name a) eqn:Hp.
  { apply Hw in Hp. subst name. now rewrite String.eqb_refl in Hn. }
  cbn [app]. apply flat_map_nil_Forall.
  apply forallb_Forall_iff in Hch. rewrite Forall_forall in *. auto.
Qed.

Lemma select_set_attr_all q key value l :
  Forall (fun m => node_attribs m !! key = Some value)
         (select q (set_attr q key value l)).
Proof.
  apply Forall_forall. intros m Hm.
  apply in_flat_map in Hm as (n' & Hn' & Hm).
  apply in_map_iff in Hn' as (n & <- & _). revert m Hm.
  induction n as [name a ch IH| | |] using node_forest_ind;
    try (intros m []).
  intros m Hm. cbn [set_attr_node select_node] in Hm.
  apply in_app_or in Hm as [Hm|Hm].
  - destruct (q name a) eqn:Hq.
    + destruct (q name (<[key:=value]> a)); [|destruct Hm].
      destruct Hm as [<-|[]]. cbn. apply lookup_insert_eq.
    + rewrite Hq in Hm. destruct Hm.
  - apply in_flat_map in Hm as (c' & Hc' & Hm).
    apply in_map_iff in Hc' as (c & <- & Hc).
    rewrite Forall_forall in IH. exact (IH c Hc m Hm).
Qed.

Lemma stale_apart_description : apart style_or_font_preload (meta_named "description").
Proof.
  apply (within_apart _ _ "link" "meta");
    [apply stale_within|apply within_meta_named|discriminate].
Qed.

Lemma stale_unmoved value :
  unmoved style_or_font_preload (meta_named "description") "content" value.
Proof.
  intros name a. destruct (meta_named "description" name a) eqn:Hq;
    [|reflexivity].
  apply within_meta_named in Hq. subst name.
  now rewrite !(within_false style_or_font_preload "link" "meta")
    by (apply stale_within || discriminate).
Qed.

(** ** A second run *)

Section SecondRun.

Variable parse_fragment : string -> list node.
Variable blockPageTranslations : gmap string translation.
Variable errorPageTranslations : gmap string translation.
Variable challengePageTranslations : gmap string translation.

Local Abbreviation page_texts :=
  (page_texts blockPageTranslations errorPageTranslations
              challengePageTranslations).
Local Abbreviation translation_entry :=
  (translation_entry blockPageTranslations errorPageTranslations
                     challengePageTranslations).
Local Abbreviation updateTDK :=
  (updateTDK parse_fragment blockPageTranslations errorPageTranslations
             challengePageTranslations).
Local Abbreviation page_description :=
  (page_description blockPageTranslations errorPageTranslations
                    challengePageTranslations).
Local Abbreviation page_title :=
  (page_title blockPageTranslations errorPageTranslations
              challengePageTranslations).
Local Abbreviation transform :=
  (transform parse_fragment blockPageTranslations errorPageTranslations
             challengePageTranslations).
Local Abbreviation edit_existing :=
  (edit_existing blockPageTranslations errorPageTranslations
                 challengePageTranslations).
Local Abbreviation created_tags :=
  (created_tags blockPageTranslations errorPageTranslations
                challengePageTranslations).
Local Abbreviation tags_parse :=
  (tags_parse parse_fragment blockPageTranslations errorPageTranslations
              challengePageTranslations).
Local Abbreviation settled :=
  (settled blockPageTranslations errorPageTranslations
           challengePageTranslations).

Lemma edit_existing_settled filePath d l :
  settled filePath l -> edit_existing filePath d l = l.
Proof.
  intros (Hs & Ht & Hd). unfold edit_existing.
  rewrite (normalize_fixed l Hs).
  assert (Htitle : set_title l (page_title filePath) = l).
  { unfold set_title. destruct (truthy (page_title filePath)); [|reflexivity].
    apply set_text_fixed. now apply Ht. }
  rewrite Htitle.
  destruct (truthy (page_description filePath)); [|reflexivity].
  destruct d; [|reflexivity]. cbn [andb].
  apply set_attr_fixed. now apply Hd.
Qed.

Lemma settled_app filePath l1 l2 :
  settled filePath l1 -> settled filePath l2 -> settled filePath (l1 ++ l2).
Proof.
  intros (Hs1 & Ht1 & Hd1) (Hs2 & Ht2 & Hd2).
  repeat split.
  - now rewrite select_app, Hs1, Hs2.
  - intros H. rewrite select_app. apply Forall_app. auto.
  - intros H. rewrite select_app. apply Forall_app. auto.
Qed.

Lemma settled_edit_existing filePath d l :
  leaves_hold_text l = true ->
  (d = false -> select (meta_named "description") l = []) ->
  settled filePath (edit_existing filePath d l).
Proof.
  intros Hl Hd.
  pose proof Hl as (Ht & Hm & Hk & Hs)%leaves_hold_text_iff.
  pose proof (leaves_normalize l Hl) as Hn.
  pose proof (leaves_set_title _ (page_title filePath) Hn) as Hx.
  pose proof Hn as (Htn & Hmn & Hkn & Hsn)%leaves_hold_text_iff.
  pose proof Hx as (Htx & Hmx & Hkx & Hsx)%leaves_hold_text_iff.
  unfold edit_existing. repeat split.
  - assert (Hstale : select style_or_font_preload
                       (set_title (normalizePreloads l) (page_title filePath))
                     = []).
    { rewrite (select_set_title_apart _ "link")
        by (auto using stale_within; discriminate).
      apply select_stale_normalize. }
    destruct (truthy (page_description filePath) && d); [|exact Hstale].
    rewrite (select_set_attr_apart _ _ "link")
      by auto using stale_within, stale_apart_description, stale_unmoved.
    exact Hstale.
  - intros Htruthy.
    assert (Htitles :
              Forall (fun m => node_children m
                               = [Text (page_title filePath +:+ " - Cloudflare")])
                     (select (by_tag "title")
                        (set_title (normalizePreloads l)
                                   (page_title filePath)))).
    { unfold set_title. rewrite Htruthy. apply select_set_text_all. }
    destruct (truthy (page_description filePath) && d); [|exact Htitles].
    rewrite (select_set_attr_apart _ _ "title");
      auto using within_by_tag, by_tag_unmoved.
    apply (within_apart _ _ "title" "meta");
      [apply within_by_tag|apply within_meta_named|discriminate].
  - intros Htruthy. rewrite Htruthy. destruct d; cbn [andb].
    + apply select_set_attr_all.
    + rewrite (select_set_title_apart _ "meta")
        by (auto using within_meta_named; discriminate).
      rewrite (select_normalize_apart _ "meta")
        by (auto using within_meta_named; discriminate).
      rewrite Hd by reflexivity. constructor.
Qed.

Lemma settled_remove filePath b l :
  leaves_hold_text l = true -> settled filePath l ->
  settled filePath (flat_map (remove_head_scripts b) l).
Proof.
  intros (Ht & Hm & Hk & Hs)%leaves_hold_text_iff (H1 & H2 & H3).
  repeat split.
  - rewrite (select_remove_apart _ "link")
      by (auto using stale_within; discriminate). exact H1.
  - rewrite (select_remove_apart _ "title")
      by (auto using within_by_tag; discriminate). exact H2.
  - rewrite (select_remove_apart _ "meta")
      by (auto using within_meta_named; discriminate). exact H3.
Qed.

Lemma settled_platform_tags filePath package buildDate :
  settled filePath (platform_tags filePath package buildDate).
Proof.
  repeat split.
  - apply (select_within_lacks _ "link"); [apply stale_within|].
    now apply lacks_platform_tags.
  - rewrite select_tag_platform_tags by discriminate. constructor.
  - rewrite select_meta_platform_tags by auto. constructor.
Qed.

Lemma settled_created_tags filePath d w :
  settled filePath (created_tags filePath d w).
Proof.
  repeat split.
  - apply (select_within_lacks _ "link"); [apply stale_within|].
    now apply lacks_created_tags.
  - rewrite select_tag_created_tags by discriminate. constructor.
  - intros _. rewrite select_description_created_tags.
    destruct (category_and_type filePath); [|constructor].
    destruct (truthy (page_description filePath) && negb d); constructor;
      [|constructor].
    cbn. rewrite lookup_insert_ne by discriminate. apply lookup_singleton_eq.
Qed.

Lemma settled_scripts filePath l :
  leaves_hold_text l = true ->
  settled filePath (select (by_tag "script") l).
Proof.
  intros (Ht & Hm & Hk & Hs)%leaves_hold_text_iff.
  repeat split; intros;
    [rewrite (select_of_selected _ _ "link" "script")
    |rewrite (select_of_selected _ _ "title" "script")
    |rewrite (select_of_selected _ _ "meta" "script")];
    try constructor;
    auto using stale_within, within_by_tag, within_meta_named; discriminate.
Qed.

Lemma leaves_platform_tags filePath package buildDate :
  leaves_hold_text (platform_tags filePath package buildDate) = true.
Proof. unfold platform_tags. now destruct (includes filePath out_cf). Qed.

Lemma leaves_created_tags filePath d w :
  leaves_hold_text (created_tags filePath d w) = true.
Proof.
  unfold created_tags. destruct (category_and_type filePath); [|reflexivity].
  now destruct (truthy (page_description filePath) && negb d), w.
Qed.

Lemma undescribed_parts k :
  parsed k = true -> described (assemble k) = false ->
  select (meta_named "description") (sk_head k) = []
  /\ select (meta_named "description") (sk_body k) = [].
Proof.
  intros Hp Hd. apply described_false in Hd. unfold meta_attribs in Hd.
  apply map_eq_nil in Hd.
  rewrite select_assemble in Hd by auto using meta_named_rejects.
  now apply app_eq_nil in Hd.
Qed.

(** The normal form of a transformed document is loaded and settled. *)
Lemma transformed_settled k filePath package buildDate :
  loaded k = true ->
  let d := described (assemble k) in
  let w := keyworded (assemble k) in
  let hd := platform_tags filePath package buildDate
            ++ flat_map (remove_head_scripts true)
                 (edit_existing filePath d (sk_head k))
            ++ created_tags filePath d w in
  let bd := edit_existing filePath d (sk_body k)
            ++ select (by_tag "script") (sk_head k) in
  loaded (with_head_body k hd bd) = true
  /\ settled filePath hd /\ settled filePath bd
  /\ select (by_tag "script") hd = [].
Proof.
  intros Hk d w hd bd.
  pose proof Hk as (Hp & Hlh & Hlb)%loaded_iff.
  assert (Hparts : d = false ->
                   select (meta_named "description") (sk_head k) = []
                   /\ select (meta_named "description") (sk_body k) = []).
  { intros Hd. now apply undescribed_parts. }
  assert (Heh : leaves_hold_text (edit_existing filePath d (sk_head k)) = true)
    by now apply leaves_edit_existing.
  assert (Heb : leaves_hold_text (edit_existing filePath d (sk_body k)) = true)
    by now apply leaves_edit_existing.
  split; [|split; [|split]].
  - apply loaded_iff. rewrite sk_head_with, sk_body_with. repeat split.
    + apply parsed_transformed, Hk.
    + apply leaves_app; [apply leaves_platform_tags|].
      apply leaves_app; [now apply leaves_remove|apply leaves_created_tags].
    + apply leaves_app; [exact Heb|now apply leaves_scripts].
  - apply settled_app; [apply settled_platform_tags|].
    apply settled_app; [|apply settled_created_tags].
    apply settled_remove; [exact Heh|].
    apply settled_edit_existing; [exact Hlh|]. intros Hd. now apply Hparts.
  - apply settled_app; [|now apply settled_scripts].
    apply settled_edit_existing; [exact Hlb|]. intros Hd. now apply Hparts.
  - unfold hd. rewrite !select_app.
    rewrite select_tag_platform_tags, select_tag_created_tags by discriminate.
    rewrite app_nil_r. cbn [app].
    pose proof Heh as (_ & _ & _ & Hs)%leaves_hold_text_iff.
    rewrite <- head_scripts_text by (now apply holds_text_remove).
    rewrite flat_map_flat_map. apply flat_map_nil_Forall, Forall_forall.
    intros n _. apply removed_has_no_head_script_any.
Qed.

Lemma described_transformed k filePath package buildDate :
  loaded k = true -> tags_parse filePath package buildDate ->
  category_and_type filePath <> None ->
  truthy (page_description filePath) = true ->
  described (transform filePath package buildDate (assemble k)) = true.
Proof.
  intros Hk Ht Hc Hd.
  destruct (described (transform filePath package buildDate (assemble k)))
    eqn:E; [reflexivity|].
  apply described_false in E.
  rewrite (descriptions_transform _ _ _ _ k filePath package buildDate Hk Ht)
    in E.
  rewrite Hd in E. destruct (described (assemble k)) eqn:E0.
  - apply map_eq_nil, described_false in E. congruence.
  - destruct (category_and_type filePath); [discriminate|congruence].
Qed.

Lemma keyworded_transformed k filePath package buildDate :
  loaded k = true -> tags_parse filePath package buildDate ->
  category_and_type filePath <> None ->
  keyworded (transform filePath package buildDate (assemble k)) = true.
Proof.
  intros Hk Ht Hc.
  destruct (keyworded (transform filePath package buildDate (assemble k)))
    eqn:E; [reflexivity|].
  apply keyworded_false in E.
  rewrite (keywords_transform _ _ _ _ k filePath package buildDate Hk Ht)
    in E.
  destruct (keyworded (assemble k)) eqn:E0.
  - apply keyworded_false in E. congruence.
  - destruct (category_and_type filePath); [discriminate|congruence].
Qed.

Lemma created_tags_transformed k filePath package buildDate :
  loaded k = true -> tags_parse filePath package buildDate ->
  let out := transform filePath package buildDate (assemble k) in
  created_tags filePath (described out) (keyworded out) = [].
Proof.
  intros Hk Ht out. unfold created_tags.
  destruct (category_and_type filePath) as [found|] eqn:Hc; [|reflexivity].
  unfold out. rewrite keyworded_transformed by (auto; congruence).
  destruct (truthy (page_description filePath)) eqn:Hd; [|reflexivity].
  now rewrite described_transformed by (auto; congruence).
Qed.

(** X11.  The edits applied to the document they have produced, as a
    second run of the script does when writing the page and loading it
    again give the document back: the document is as the first run left
    it, but for the platform tags, which a file whose path contains
    [out/cf] gets once more, with the version and the date of the second
    run, in front of those of the first run.  For any other file the second
    run changes nothing. *)
Theorem transform_again k filePath package buildDate package' buildDate' :
  loaded k = true ->
  tags_parse filePath package buildDate ->
  tags_parse filePath package' buildDate' ->
  exists hd bd,
    transform filePath package buildDate (assemble k)
    = assemble (with_head_body k hd bd)
    /\ loaded (with_head_body k hd bd) = true
    /\ transform filePath package' buildDate'
         (transform filePath package buildDate (assemble k))
       = assemble (with_head_body k
                     (platform_tags filePath package' buildDate' ++ hd) bd)
    /\ (includes filePath out_cf = false ->
        transform filePath package' buildDate'
          (transform filePath package buildDate (assemble k))
        = transform filePath package buildDate (assemble k))
    /\ (includes filePath out_cf = true ->
        platform_tags filePath package' buildDate'
        = cloudflare_nodes buildDate' (manifest_version package')
        /\ exists rest,
            hd = cloudflare_nodes buildDate (manifest_version package) ++ rest).
Proof.
  intros Hk Ht Ht'.
  pose proof (transformed_settled k filePath package buildDate Hk)
    as (Hl & Hsh & Hsb & Hscripts).
  pose proof (transform_assemble _ _ _ _ k filePath package buildDate Hk Ht)
    as Hfirst.
  pose proof (created_tags_transformed k filePath package buildDate Hk Ht)
    as Hcreated.
  cbv zeta in Hcreated. rewrite Hfirst in Hcreated.
  eexists _, _. split; [exact Hfirst|]. split; [exact Hl|].
  assert (Hsecond :
    transform filePath package' buildDate'
      (transform filePath package buildDate (assemble k))
    = assemble
        (with_head_body k
           (platform_tags filePath package' buildDate'
            ++ platform_tags filePath package buildDate
            ++ flat_map (remove_head_scripts true)
                 (edit_existing filePath (described (assemble k)) (sk_head k))
            ++ created_tags filePath (described (assemble k))
                            (keyworded (assemble k)))
           (edit_existing filePath (described (assemble k)) (sk_body k)
            ++ select (by_tag "script") (sk_head k)))).
  { rewrite Hfirst.
    rewrite (transform_assemble _ _ _ _ _ filePath package' buildDate' Hl Ht').
    rewrite Hcreated, !sk_head_with, !sk_body_with, with_head_body_twice.
    rewrite (edit_existing_settled filePath _ _ Hsh).
    rewrite (edit_existing_settled filePath _ _ Hsb).
    rewrite Hscripts, !app_nil_r.
    now rewrite (remove_lacks_script true)
      by (now apply lacks_select). }
  split; [exact Hsecond|]. split.
  - intros Hout. rewrite Hsecond, Hfirst. unfold platform_tags at 1.
    now rewrite Hout.
  - intros Hout. unfold platform_tags. rewrite Hout. split; [reflexivity|].
    now eexists.
Qed.

(** X12.  A table entry whose title is the empty string leaves every title as it
    is, and one whose message is the empty string leaves the description
    metas as they are and creates none: the script tests the two texts
    apart, so the other text is still written. *)
Theorem empty_texts_are_skipped k filePath package buildDate directory type e :
  loaded k = true -> tags_parse filePath package buildDate ->
  category_and_type filePath = Some (directory, type) ->
  translation_entry directory type = Some e ->
  let out := transform filePath package buildDate (assemble k) in
  (title e = "" -> title_texts out = title_texts (assemble k))
  /\ (message e = "" ->
      meta_attribs "description" out = meta_attribs "description" (assemble k))
  /\ (title e = "" -> message e <> "" ->
      Forall (fun c => c = Some (message e)) (meta_contents "description" out)
      /\ meta_contents "description" out <> [])
  /\ (message e = "" -> title e <> "" ->
      title_texts out
      = map (fun _ => title e +:+ " - Cloudflare") (title_texts (assemble k))).
Proof.
  intros Hk Ht Hc He out.
  assert (Hpt : page_title filePath = title e).
  { rewrite (page_title_found _ _ _ filePath directory type Hc).
    now rewrite page_texts_entry, He. }
  assert (Hpd : page_description filePath = message e).
  { rewrite (page_description_found _ _ _ filePath directory type Hc).
    now rewrite page_texts_entry, He. }
  pose proof (titles_transform _ _ _ _ k filePath package buildDate Hk Ht)
    as Htitles.
  pose proof (descriptions_transform _ _ _ _ k filePath package buildDate Hk Ht)
    as Hdescriptions.
  rewrite Hpt in Htitles. rewrite Hpd, Hc in Hdescriptions.
  fold out in Htitles, Hdescriptions.
  split; [|split; [|split]].
  - intros Hempty. now rewrite Hempty in Htitles.
  - intros Hempty. rewrite Hempty in Hdescriptions.
    change (truthy "") with false in Hdescriptions.
    destruct (described (assemble k)) eqn:Hd; [exact Hdescriptions|].
    apply described_false in Hd. congruence.
  - intros _ Hmessage. unfold meta_contents. rewrite Hdescriptions.
    rewrite (truthy_true _ Hmessage).
    destruct (described (assemble k)) eqn:Hd.
    + split.
      * apply Forall_forall. intros c (a' & <- & Ha')%in_map_iff.
        apply in_map_iff in Ha' as (a & <- & _). apply lookup_insert_eq.
      * intros Hnil. apply map_eq_nil, map_eq_nil in Hnil.
        apply described_false in Hnil. congruence.
    + split; [|discriminate]. constructor; [|constructor]. cbn.
      rewrite lookup_insert_ne by discriminate. apply lookup_singleton_eq.
  - intros _ Htitle. now rewrite (truthy_true _ Htitle) in Htitles.
Qed.

End SecondRun.

(** ** The lookup key, in full *)

Lemma findIndex_None_inv {A} (p : A -> bool) l :
  findIndex p l = None -> Forall (fun y => p y = false) l.
Proof.
  induction l as [|x l IH]; [constructor|]. cbn [findIndex].
  destruct (p x) eqn:Hx; [discriminate|].
  destruct (findIndex p l); [discriminate|]. constructor; auto.
Qed.

(** X13.  A category and a type are found exactly when the first segment [cf] of
    the path has two segments or more after it, and they are the next two;
    nothing is found exactly when no segment is [cf] or fewer than two
    segments follow the first one.  A later [cf] is never the marker. *)
Theorem category_and_type_spec filePath :
  (forall directory type,
      category_and_type filePath = Some (directory, type) <->
      exists pre post,
        split sep filePath = pre ++ "cf" :: directory :: type :: post
        /\ no_marker pre)
  /\ (category_and_type filePath = None <->
      no_marker (split sep filePath)
      \/ exists pre post,
          split sep filePath = pre ++ "cf" :: post
          /\ no_marker pre /\ length post < 2).
Proof.
  split.
  - intros directory type. split.
    + apply category_and_type_inv.
    + intros (pre & post & Hs & Hn).
      exact (category_and_type_found filePath pre directory type post Hs Hn).
  - split.
    + unfold category_and_type.
      destruct (findIndex _ (split sep filePath)) as [i|] eqn:Hi.
      * apply findIndex_Some in Hi as (pre & x & post & Hs & Hlen & Hx & Hpre).
        apply String.eqb_eq in Hx. subst x.
        destruct (length (split sep filePath) <=? i + 2)%nat eqn:Hle;
          [|discriminate].
        intros _. right. exists pre, post. repeat split; auto.
        apply Nat.leb_le in Hle. rewrite Hs, length_app in Hle.
        cbn [length] in Hle. lia.
      * intros _. left. now apply findIndex_None_inv in Hi.
    + intros [Hn|(pre & post & Hs & Hn & Hlen)].
      * now apply category_and_type_no_marker.
      * exact (category_and_type_short filePath pre post Hs Hn Hlen).
Qed.

(** ** The further statements at the sample data *)

Lemma getAllHtmlFiles_finds_witness :
  well_named SampleOut.root = true
  /\ getAllHtmlFiles outDir SampleOut.root
     = Some ["out/index.html"; "out/cf/block/ip/index.html";
             "out/cf/block/ip.html"; "out/cf.html";
             "out/legacy.html/page.html"]
  /\ well_named SampleOut.broken = true
  /\ getAllHtmlFiles outDir SampleOut.broken = None.
Proof.
  split; [reflexivity|]. split.
  - exact (getAllHtmlFiles_finds SampleOut.root eq_refl).
  - split; [reflexivity|].
    exact (getAllHtmlFiles_finds SampleOut.broken eq_refl).
Defined.

Lemma getAllHtmlFiles_members_witness :
  well_named SampleOut.site = true
  /\ getAllHtmlFiles outDir SampleOut.site
     = Some [Sample.brokenPath; Sample.blockedPath; Sample.indexPath]
  /\ exists before name,
       Sample.blockedPath = join sep ("out" :: before ++ [name])
       /\ html_name name = true
       /\ entry_at SampleOut.site (before ++ [name]) = Some Plain.
Proof.
  split; [reflexivity|]. split; [reflexivity|].
  apply (getAllHtmlFiles_members
           SampleOut.site
           [Sample.brokenPath; Sample.blockedPath; Sample.indexPath]
           eq_refl eq_refl Sample.blockedPath).
  right. left. reflexivity.
Defined.

Lemma getAllHtmlFiles_paths_witness :
  well_named SampleOut.site = true
  /\ getAllHtmlFiles outDir SampleOut.site
     = Some [Sample.brokenPath; Sample.blockedPath; Sample.indexPath]
  /\ NoDup [Sample.brokenPath; Sample.blockedPath; Sample.indexPath].
Proof.
  split; [reflexivity|]. split; [reflexivity|].
  exact (proj1 (getAllHtmlFiles_paths
                  SampleOut.site
                  [Sample.brokenPath; Sample.blockedPath; Sample.indexPath]
                  eq_refl eq_refl)).
Defined.

Lemma run_main_fault_witness :
  entry_at SampleOut.broken ["assets"; "gone"] = Some Unstattable
  /\ run_main Reference.parse_fragment Sample.blockPageTranslations
       Sample.errorPageTranslations Sample.challengePageTranslations
       Sample.load Reference.serialize Sample.packagePath
       Sample.parse_package (fun _ => Sample.buildDate)
       (Some SampleOut.broken) Sample.disk
     = (Sample.disk, true).
Proof.
  split; [reflexivity|].
  apply run_main_fault. right. right.
  exists ["assets"; "gone"], Unstattable.
  split; [discriminate|]. split; [reflexivity|]. now right.
Defined.

Lemma run_main_reports_witness :
  well_named SampleOut.site = true /\ listable SampleOut.site = true
  /\ ends_with Sample.packagePath ".html" = false
  /\ exists w',
      run_main Reference.parse_fragment Sample.blockPageTranslations
        Sample.errorPageTranslations Sample.challengePageTranslations
        Sample.load Reference.serialize Sample.packagePath
        Sample.parse_package (fun _ => Sample.buildDate)
        (Some SampleOut.site) Sample.disk
      = (w', false)
      /\ filter is_report (console w')
         = [ ErrorProcessing Sample.brokenPath; Processed Sample.blockedPath;
             Processed Sample.indexPath ].
Proof.
  split; [reflexivity|]. split; [reflexivity|]. split; [reflexivity|].
  destruct (run_main_reports
              Reference.parse_fragment Sample.blockPageTranslations
              Sample.errorPageTranslations Sample.challengePageTranslations
              Sample.load Reference.serialize Sample.packagePath
              Sample.parse_package (fun _ => Sample.buildDate)
              SampleOut.site Sample.disk eq_refl eq_refl eq_refl)
    as (w' & Hrun & Hlog & _).
  exists w'. split; [exact Hrun|]. rewrite Hlog. vm_compute. reflexivity.
Defined.


Lemma processHtmlFile_failure_witness :
  outcome Reference.parse_fragment Sample.blockPageTranslations
    Sample.errorPageTranslations Sample.challengePageTranslations
    Sample.load Reference.serialize Sample.packagePath
    Sample.parse_package (fun _ => Sample.buildDate)
    Sample.disk Sample.brokenPath = None
  /\ fs (processHtmlFile Reference.parse_fragment Sample.blockPageTranslations
           Sample.errorPageTranslations Sample.challengePageTranslations
           Sample.load Reference.serialize Sample.packagePath
           Sample.parse_package (fun _ => Sample.buildDate)
           Sample.brokenPath Sample.disk)
     = fs Sample.disk.
Proof.
  assert (Hnone : outcome Reference.parse_fragment Sample.blockPageTranslations
                    Sample.errorPageTranslations
                    Sample.challengePageTranslations
                    Sample.load Reference.serialize Sample.packagePath
                    Sample.parse_package (fun _ => Sample.buildDate)
                    Sample.disk Sample.brokenPath = None)
    by (vm_compute; reflexivity).
  split; [exact Hnone|].
  exact (proj1 (processHtmlFile_failure
                  Reference.parse_fragment Sample.blockPageTranslations
                  Sample.errorPageTranslations
                  Sample.challengePageTranslations
                  Sample.load Reference.serialize Sample.packagePath
                  Sample.parse_package (fun _ => Sample.buildDate)
                  Sample.brokenPath Sample.disk Hnone)).
Defined.

Lemma tags_parse_later :
  tags_parse Reference.parse_fragment Sample.blockPageTranslations
    Sample.errorPageTranslations Sample.challengePageTranslations
    Sample.blockedPath SampleOut.laterPackage SampleOut.laterDate.
Proof. repeat split; intros; vm_compute; reflexivity. Qed.

Lemma tags_parse_untitled :
  tags_parse Reference.parse_fragment SampleOut.untitled
    Sample.errorPageTranslations Sample.challengePageTranslations
    Sample.blockedPath Sample.package Sample.buildDate.
Proof. repeat split; intros; vm_compute; reflexivity. Qed.

Lemma transform_again_witness :
  loaded Sample.page = true
  /\ includes Sample.blockedPath out_cf = true
  /\ exists hd bd,
      transform Reference.parse_fragment Sample.blockPageTranslations
        Sample.errorPageTranslations Sample.challengePageTranslations
        Sample.blockedPath SampleOut.laterPackage SampleOut.laterDate
        (transform Reference.parse_fragment Sample.blockPageTranslations
           Sample.errorPageTranslations Sample.challengePageTranslations
           Sample.blockedPath Sample.package Sample.buildDate
           (assemble Sample.page))
      = assemble
          (with_head_body Sample.page
             (cloudflare_nodes SampleOut.laterDate "1.0.1"
              ++ cloudflare_nodes Sample.buildDate "1.0.0" ++ hd) bd).
Proof.
  split; [reflexivity|]. split; [reflexivity|].
  destruct (transform_again
              Reference.parse_fragment Sample.blockPageTranslations
              Sample.errorPageTranslations Sample.challengePageTranslations
              Sample.page Sample.blockedPath Sample.package Sample.buildDate
              SampleOut.laterPackage SampleOut.laterDate
              eq_refl tags_parse_blocked tags_parse_later)
    as (hd & bd & _ & _ & Hsecond & _ & Hcf).
  destruct (Hcf eq_refl) as (Hlater & rest & ->).
  exists rest, bd. rewrite Hsecond, Hlater. reflexivity.
Defined.

Lemma empty_texts_are_skipped_witness :
  loaded Sample.page = true
  /\ category_and_type Sample.blockedPath = Some ("block", "ip")
  /\ title_texts
       (transform Reference.parse_fragment SampleOut.untitled
          Sample.errorPageTranslations Sample.challengePageTranslations
          Sample.blockedPath Sample.package Sample.buildDate
          (assemble Sample.page))
     = ["Blocked"]
  /\ meta_contents "description"
       (transform Reference.parse_fragment SampleOut.untitled
          Sample.errorPageTranslations Sample.challengePageTranslations
          Sample.blockedPath Sample.package Sample.buildDate
          (assemble Sample.page))
     <> [].
Proof.
  split; [reflexivity|]. split; [reflexivity|].
  pose proof (empty_texts_are_skipped
                Reference.parse_fragment SampleOut.untitled
                Sample.errorPageTranslations Sample.challengePageTranslations
                Sample.page Sample.blockedPath Sample.package Sample.buildDate
                "block" "ip"
                {| title := "";
                   message := "Your IP address has been blocked" |}
                eq_refl tags_parse_untitled eq_refl eq_refl) as H.
  cbv zeta in H. destruct H as (Htitle & _ & Hboth & _).
  split.
  - rewrite (Htitle eq_refl). reflexivity.
  - apply Hboth; [reflexivity|discriminate].
Defined.

Lemma moveScripts_without_body_witness :
  lacks "body" SampleOut.frames = true
  /\ headScripts SampleOut.frames = [Elem "script" {[ "src" := "/main.js" ]} []]
  /\ select (by_tag "script") (moveScriptsToBodyBottom SampleOut.frames) = [].
Proof.
  split; [reflexivity|]. split; [reflexivity|].
  destruct (moveScripts_without_body SampleOut.frames) as (_ & Hbody).
  destruct (Hbody eq_refl) as (Hgone & _).
  rewrite Hgone. reflexivity.
Defined.
